(** * Scoring core of the job matcher: [SemanticJobMatcher] (embedding_matcher.py)

    A shallow embedding of the ranking code of [src/embedding_matcher.py]
    (and of the sibling [JobMatcher._match_skills] of [src/job_matching.py]),
    and the properties of its specification that it satisfies or violates.
    The catalog methods of [SemanticJobMatcher] ([add_job], [delete_job],
    [get_all_jobs]), the batch method of the embedding client and the whole
    [JobMatcher] of [src/job_matching.py] are embedded as well, with the
    properties the code itself shows.

    Modelling choices, all taken from the source:
    - Python [float] and numpy [float64] are IEEE binary64: the primitive
      [float] of Rocq, so every literal ([0.40], [0.7], ...) is the same
      rounded constant the interpreter uses and every scalar operation
      ([+], [*], [/], [sqrt], the comparisons) is the correctly rounded one
      of the hardware; the vector kernel behind [np.dot] is another matter,
      see [np.dot_acc];
    - Python [int] is [Z]; [int / int] is the true division of the language
      (one correctly rounded quotient, [ZeroDivisionError], [OverflowError]);
    - [str] is [string] (the text, in UTF-8), [List[str]] is [list string]
      (order and duplicates are those of the lists the code builds);
      [str.lower()], which follows the Unicode tables of the interpreter,
      is a parameter of the model ([StrLower]): every statement holds for
      whatever case mapping the interpreter implements;
    - exceptions are a result type, threaded by a small monad; the two pieces
      of state the ranking touches (the job cache, whose postings it mutates,
      and the wall clock read by [datetime.now()]) are passed explicitly. *)

From stdpp Require Import base list strings gmap sets.
From Stdlib Require Import ZArith Floats Ascii String DecimalString List Bool Lia.
From Stdlib Require Import Sorting.Sorted Sorting.Permutation.
Import ListNotations.

Set Warnings "-inexact-float".

Local Open Scope Z_scope.

(** ** Exceptions *)

Inductive exn : Type :=
| ValueError
| ZeroDivisionError
| OverflowError
| InvalidInput
| DegenerateVector.

Inductive result (A : Type) : Type :=
| Ok (a : A)
| Raise (e : exn).

Arguments Ok {A} a.
Arguments Raise {A} e.

Definition bind {A B : Type} (r : result A) (k : A -> result B) : result B :=
  match r with
  | Ok a => k a
  | Raise e => Raise e
  end.

(** [try: body except Exception: handler] *)
Definition try_except {A : Type} (body : result A) (handler : exn -> result A)
  : result A :=
  match body with
  | Ok a => Ok a
  | Raise e => handler e
  end.

Declare Scope py_scope.
Delimit Scope py_scope with py.
Notation "'let*' x ':=' c 'in' k" := (bind c (fun x => k))
  (at level 10, x pattern, c at level 100, k at level 200) : py_scope.

(** ** Numbers *)

Module PyFloat.

(** The built-in [min(a, b)]: the first argument is kept unless the
    second one is strictly smaller. *)
Definition min (a b : float) : float :=
  if PrimFloat.ltb b a then b else a.

(** [float(n)] for an [int]: the nearest binary64, ties to even. *)
Definition of_int (n : Z) : spec_float :=
  binary_normalize prec emax n 0 false.

(** [a / b] on two [int]s: the exact quotient rounded once. *)
Definition int_true_div (a b : Z) : result float :=
  if b =? 0 then Raise ZeroDivisionError
  else if a =? 0 then Ok (if b <? 0 then (-0)%float else 0%float)
  else
    let '(mz, ez, lz) :=
      SFdiv_core_binary prec emax (Z.abs a) 0 (Z.abs b) 0 in
    match binary_round_aux prec emax (xorb (a <? 0) (b <? 0)) mz ez lz with
    | S754_infinity _ => Raise OverflowError
    | q => Ok (SF2Prim q)
    end.

(** An [int] operand of float arithmetic ([n * 0.1]): converted as
    [float(n)], with [OverflowError] when it is too large. *)
Definition float_of_int (n : Z) : result float :=
  match of_int n with
  | S754_infinity _ => Raise OverflowError
  | q => Ok (SF2Prim q)
  end.

Definition le (a b : float) : Prop := PrimFloat.leb a b = true.
Definition lt (a b : float) : Prop := PrimFloat.ltb a b = true.

End PyFloat.

(** ** numpy *)

Module np.

Local Open Scope float_scope.

(** [np.dot] on two one-dimensional arrays: a [ValueError] when the shapes
    differ, the sum of the products otherwise.  The sum is written left to
    right with every product and every addition rounded; the BLAS kernel
    numpy calls may fuse a product with its addition and may add in another
    order, which moves the last bits of the result.  The statements about
    [_cosine_similarity] therefore rest only on what every such evaluation
    shares: which inputs raise, products and sums of zeros, the symmetry of
    the products. *)
Fixpoint dot_acc (acc : float) (a b : list float) : result float :=
  match a, b with
  | [], [] => Ok acc
  | x :: a', y :: b' => dot_acc (acc + x * y) a' b'
  | _, _ => Raise ValueError
  end.

Definition dot (a b : list float) : result float := dot_acc 0 a b.

(** [np.linalg.norm] of a one-dimensional real array:
    [sqrt(x.dot(x))]. *)
Definition linalg_norm (a : list float) : result float :=
  (let* s := dot a a in Ok (PrimFloat.sqrt s))%py.

End np.

(** ** Strings *)

Definition lower_ascii (c : ascii) : ascii :=
  let n := nat_of_ascii c in
  if andb (Nat.leb 65 n) (Nat.leb n 90) then ascii_of_nat (n + 32) else c.

(** [str.lower()] on ASCII text: the letters [A-Z] become [a-z]. *)
Fixpoint ascii_lower (s : string) : string :=
  match s with
  | EmptyString => EmptyString
  | String c s' => String (lower_ascii c) (ascii_lower s')
  end.

(** [str.lower()] in general: it maps every cased character of Unicode
    (['CAFÉ'.lower() == 'café']), by tables that belong to the interpreter.
    The code is embedded over any such mapping; [ascii_lower] is the one to
    run it with on ASCII text. *)
Class StrLower : Type := lower : string -> string.

(** [sep.join(l)] *)
Fixpoint join (sep : string) (l : list string) : string :=
  match l with
  | [] => EmptyString
  | [x] => x
  | x :: l' => (x ++ sep ++ join sep l')%string
  end.

(** [s in l] for a list of strings. *)
Definition str_in (s : string) (l : list string) : bool :=
  existsb (String.eqb s) l.

(** Truth value of an [Optional[List[float]]]: [None] and [[]] are false. *)
Definition truthy (e : option (list float)) : bool :=
  match e with
  | Some (_ :: _) => true
  | _ => false
  end.

(** [len(l)] *)
Definition len {A : Type} (l : list A) : Z := Z.of_nat (length l).

(** [sub in s] for two strings. *)
Fixpoint str_contains (sub s : string) : bool :=
  if String.prefix sub s then true
  else
    match s with
    | EmptyString => false
    | String _ s' => str_contains sub s'
    end.

(** Truth value of an [Optional[str]]: [None] and the empty string are
    false. *)
Definition str_truthy (s : option string) : bool :=
  match s with
  | Some (String _ _) => true
  | _ => false
  end.

(** ** Dictionaries with [str] keys

    A [dict] keeps its keys in insertion order: an association list, in
    which an assignment to a key that is present replaces the value where it
    stands and an assignment to a new key goes to the end. *)
Section Dict.

Context {V : Type}.

(** [k in d] *)
Definition dict_contains (k : string) (d : list (string * V)) : bool :=
  existsb (fun it => String.eqb (fst it) k) d.

(** [d.get(k)] *)
Fixpoint dict_get (k : string) (d : list (string * V)) : option V :=
  match d with
  | [] => None
  | (k', v) :: d' => if String.eqb k' k then Some v else dict_get k d'
  end.

(** [d[k] = v] *)
Fixpoint dict_set (k : string) (v : V) (d : list (string * V))
  : list (string * V) :=
  match d with
  | [] => [(k, v)]
  | (k', v') :: d' =>
      if String.eqb k' k then (k, v) :: d' else (k', v') :: dict_set k v d'
  end.

(** [del d[k]], for a key that is present. *)
Fixpoint dict_del (k : string) (d : list (string * V)) : list (string * V) :=
  match d with
  | [] => []
  | (k', v') :: d' =>
      if String.eqb k' k then d' else (k', v') :: dict_del k d'
  end.

(** [d.keys()] and [d.values()] *)
Definition dict_keys (d : list (string * V)) : list string := List.map fst d.
Definition dict_values (d : list (string * V)) : list V := List.map snd d.

End Dict.

(** [l.sort(key=key, reverse=True)]: the sort of the language is stable and
    compares keys with [<] only; with [reverse=True] the elements whose keys
    compare equal keep their original order.  An element moves behind
    exactly the elements whose key is strictly greater than its own.  When
    no key is NaN the keys are totally ordered and this is the list every
    stable descending sort returns.  With a NaN key the comparisons are not
    an order and [list.sort] may arrange the list otherwise: the general
    statements about such a run say only what holds of every
    rearrangement. *)
Section Sort.

Context {A : Type} (key : A -> float).

Fixpoint insert_reverse (x : A) (l : list A) : list A :=
  match l with
  | [] => [x]
  | y :: l' =>
      if PrimFloat.ltb (key x) (key y) then y :: insert_reverse x l'
      else x :: y :: l'
  end.

Fixpoint sort_reverse (l : list A) : list A :=
  match l with
  | [] => []
  | x :: l' => insert_reverse x (sort_reverse l')
  end.

End Sort.

(** ** Data models *)

Module JobPosting.
Record t : Type := mk {
  job_id : string;
  title : string;
  company : string;
  description : string;
  required_skills : list string;
  preferred_skills : list string;
  experience_years : Z;
  location : string;
  salary_range : string;
  posted_date : string;
  embedding : option (list float);
  embedding_cached : bool
}.

(** [job.embedding = e] *)
Definition set_embedding (job : t) (e : option (list float)) : t :=
  mk (job_id job) (title job) (company job) (description job)
     (required_skills job) (preferred_skills job) (experience_years job)
     (location job) (salary_range job) (posted_date job)
     e (embedding_cached job).
End JobPosting.

Module EmbeddingMatch.
Record t : Type := mk {
  job_id : string;
  job_title : string;
  company : string;
  embedding_similarity : float;
  keyword_match_score : float;
  experience_match : float;
  education_match : float;
  overall_score : float;
  matched_skills : list string;
  missing_skills : list string;
  analysis : string;
  timestamp : string
}.
End EmbeddingMatch.

(** ** AzureEmbeddingClient *)

Module AzureEmbeddingClient.

Section Client.

(** [get_embedding]: the embedding service, which answers [None] on any
    failure. *)
Variable get_embedding : string -> option (list float).

(** [for text in texts: embeddings.append(self.get_embedding(text))] *)
Fixpoint get_embeddings_batch_loop (texts : list string)
  (embeddings : list (option (list float))) : list (option (list float)) :=
  match texts with
  | [] => embeddings
  | text :: rest =>
      let embedding := get_embedding text in
      get_embeddings_batch_loop rest (embeddings ++ [embedding])
  end.

Definition get_embeddings_batch (texts : list string)
  : list (option (list float)) :=
  let embeddings := [] in
  get_embeddings_batch_loop texts embeddings.

End Client.

End AzureEmbeddingClient.

(** ** SemanticJobMatcher *)

Module SemanticJobMatcher.

Local Open Scope float_scope.
Local Open Scope py_scope.

Definition _cosine_similarity (embedding1 embedding2 : list float)
  : result float :=
  try_except
    (let* d := np.dot embedding1 embedding2 in
     let* n1 := np.linalg_norm embedding1 in
     let* n2 := np.linalg_norm embedding2 in
     let similarity := d / (n1 * n2) in
     let similarity := (similarity + 1) / 2 in
     Ok similarity)
    (fun _ => Ok 0.0).

Definition _calculate_keyword_match {L : StrLower}
  (cv_skills required_skills preferred_skills : list string)
  : result (float * list string * list string) :=
  let cv_skills_lower := List.map lower cv_skills in
  let required_lower := List.map lower required_skills in
  let preferred_lower := List.map lower preferred_skills in
  let matched :=
    List.filter (fun s => str_in s cv_skills_lower) required_lower in
  let missing :=
    List.filter (fun s => negb (str_in s cv_skills_lower)) required_lower in
  if (len required_skills =? 0)%Z then Ok (1.0, matched, missing)
  else
    let* match_score :=
      PyFloat.int_true_div (len matched) (len required_skills) in
    match preferred_skills with
    | _ :: _ =>
        let preferred_matched :=
          List.filter (fun s => str_in s cv_skills_lower) preferred_lower in
        let* ratio :=
          PyFloat.int_true_div (len preferred_matched)
                               (len preferred_skills) in
        let bonus := ratio * 0.1 in
        Ok (PyFloat.min (match_score + bonus) 1.0, matched, missing)
    | [] => Ok (match_score, matched, missing)
    end.

Definition _calculate_experience_match (cv_years required_years : Z)
  : result float :=
  if (required_years =? 0)%Z then Ok 1.0
  else
    let* ratio := PyFloat.int_true_div cv_years required_years in
    Ok (PyFloat.min ratio 1.0).

Section Matcher.

(** The collaborators of the matcher: the embedding client
    ([AzureEmbeddingClient.get_embedding], which answers [None] on any
    failure), the wall clock ([datetime.now().isoformat()]: [clock k] is
    what the k-th reading returns) and the percent formatting of
    f-strings ([format(x, ".1%")]). *)
Context {L : StrLower}.
Variable get_embedding : string -> option (list float).
Variable clock : nat -> string.
Variable format_percent : float -> string.

Definition nl : string := String (ascii_of_nat 10) EmptyString.

Definition str_of_len {A : Type} (l : list A) : string :=
  NilEmpty.string_of_uint (Nat.to_uint (length l)).

Definition _generate_analysis
  (embedding_similarity keyword_score : float)
  (matched_skills missing_skills : list string) : string :=
  let analysis := ("Semantic Analysis:" ++ nl)%string in
  let analysis :=
    (analysis ++ "• Embedding Similarity: "
       ++ format_percent embedding_similarity ++ " - ")%string in
  let analysis :=
    if 0.8 <? embedding_similarity
    then (analysis ++ "Excellent semantic match!" ++ nl)%string
    else if 0.6 <? embedding_similarity
    then (analysis ++ "Good semantic alignment." ++ nl)%string
    else if 0.4 <? embedding_similarity
    then (analysis ++ "Moderate relevance." ++ nl)%string
    else (analysis ++ "Limited semantic match." ++ nl)%string in
  let analysis :=
    (analysis ++ nl ++ "• Skill Match: "
       ++ format_percent keyword_score ++ nl)%string in
  let analysis :=
    (analysis ++ "  - Matched: " ++ str_of_len matched_skills
       ++ " skills" ++ nl)%string in
  let analysis :=
    (analysis ++ "  - Missing: " ++ str_of_len missing_skills
       ++ " skills" ++ nl)%string in
  match missing_skills with
  | _ :: _ =>
      if (len missing_skills <=? 3)%Z
      then (analysis ++ nl ++ "💡 Consider learning: "
              ++ join ", " (firstn 3 missing_skills))%string
      else analysis
  | [] => analysis
  end.

(** The state the ranking reads and writes: the job cache (a dictionary,
    iterated in insertion order; its postings are mutated in place) and
    the number of clock readings made so far. *)
Record World : Type := mkWorld {
  jobs_cache : list (string * JobPosting.t);
  ticks : nat
}.

Definition job_text (job : JobPosting.t) : string :=
  (JobPosting.title job ++ " " ++ JobPosting.description job ++ " "
     ++ join " " (JobPosting.required_skills job))%string.

(** First statement of the loop body: the embedding of a posting that
    has none is requested and stored on the posting. *)
Definition fill_embedding (job : JobPosting.t) : JobPosting.t :=
  if truthy (JobPosting.embedding job) then job
  else JobPosting.set_embedding job (get_embedding (job_text job)).

(** Rest of the loop body: under [if job.embedding:], the scores and the
    match record; nothing otherwise. *)
Definition score_job
  (cv_embedding : list float) (cv_skills : list string)
  (cv_experience_years : Z) (job_id : string) (job : JobPosting.t)
  (now : string) : result (option EmbeddingMatch.t) :=
  if truthy (JobPosting.embedding job) then
    let job_embedding := default [] (JobPosting.embedding job) in
    let* similarity := _cosine_similarity cv_embedding job_embedding in
    let* (keyword_score, matched_skills, missing_skills) :=
      _calculate_keyword_match cv_skills
        (JobPosting.required_skills job)
        (JobPosting.preferred_skills job) in
    let* experience_score :=
      _calculate_experience_match cv_experience_years
        (JobPosting.experience_years job) in
    let education_score := 0.7 in
    let overall_score :=
      similarity * 0.40 + keyword_score * 0.30
      + experience_score * 0.15 + education_score * 0.15 in
    let analysis :=
      _generate_analysis similarity keyword_score
        matched_skills missing_skills in
    Ok (Some (EmbeddingMatch.mk job_id (JobPosting.title job)
                (JobPosting.company job) similarity keyword_score
                experience_score education_score overall_score
                matched_skills missing_skills analysis now))
  else Ok None.

(** [for job_id, job in self.jobs_cache.items(): ...], with the list
    [matches] built so far and the clock; it gives back the postings as
    the loop leaves them. An exception ends the loop where it is
    raised. *)
Fixpoint match_loop
  (cv_embedding : list float) (cv_skills : list string)
  (cv_experience_years : Z) (items : list (string * JobPosting.t))
  (matches : list EmbeddingMatch.t) (t : nat)
  : list (string * JobPosting.t) * nat * result (list EmbeddingMatch.t) :=
  match items with
  | [] => ([], t, Ok matches)
  | (job_id, job) :: rest =>
      let job' := fill_embedding job in
      match score_job cv_embedding cv_skills cv_experience_years
              job_id job' (clock t) with
      | Raise e => ((job_id, job') :: rest, t, Raise e)
      | Ok None =>
          let '(rest', t', r) :=
            match_loop cv_embedding cv_skills cv_experience_years
              rest matches t in
          ((job_id, job') :: rest', t', r)
      | Ok (Some m) =>
          let '(rest', t', r) :=
            match_loop cv_embedding cv_skills cv_experience_years
              rest (matches ++ [m]) (S t) in
          ((job_id, job') :: rest', t', r)
      end
  end.

Definition match_cv_to_jobs
  (cv_text : string) (cv_skills : list string) (cv_experience_years : Z)
  (w : World) : World * result (list EmbeddingMatch.t) :=
  let matches := [] in
  let cv_embedding := get_embedding cv_text in
  if negb (truthy cv_embedding) then (w, Ok matches)
  else
    let '(cache', t', r) :=
      match_loop (default [] cv_embedding) cv_skills cv_experience_years
        (jobs_cache w) matches (ticks w) in
    (mkWorld cache' t',
     let* matches := r in
     Ok (sort_reverse EmbeddingMatch.overall_score matches)).

End Matcher.

(** The methods that maintain the catalog. *)
Section Catalog.

Variable get_embedding : string -> option (list float).

(** [AzureBlobClient.upload_json]: it catches every exception and answers
    a boolean, which [add_job] does not look at. *)
Variable upload_json : JobPosting.t -> string -> bool.

(** [add_job]: the posting is kept (and uploaded) only when an embedding
    of its text is obtained; nothing in the body raises.  The posting that
    is stored is the caller's object, with its two fields assigned. *)
Definition add_job (job : JobPosting.t) (w : World) : World * bool :=
  let embedding := get_embedding (job_text job) in
  if truthy embedding then
    let job :=
      JobPosting.mk (JobPosting.job_id job) (JobPosting.title job)
        (JobPosting.company job) (JobPosting.description job)
        (JobPosting.required_skills job) (JobPosting.preferred_skills job)
        (JobPosting.experience_years job) (JobPosting.location job)
        (JobPosting.salary_range job) (JobPosting.posted_date job)
        embedding true in
    let w' :=
      mkWorld (dict_set (JobPosting.job_id job) job (jobs_cache w))
              (ticks w) in
    let filename := ("job_" ++ JobPosting.job_id job ++ ".json")%string in
    let _uploaded := upload_json job filename in
    (w', true)
  else (w, false).

(** [get_all_jobs] *)
Definition get_all_jobs (w : World) : list JobPosting.t :=
  dict_values (jobs_cache w).

(** [delete_job] *)
Definition delete_job (job_id : string) (w : World) : World * bool :=
  if dict_contains job_id (jobs_cache w) then
    (mkWorld (dict_del job_id (jobs_cache w)) (ticks w), true)
  else (w, false).

End Catalog.

End SemanticJobMatcher.

(** ** Data models of job_matching.py *)

(** The dictionaries of a CV ([{'title': ..., 'details': ...}]). *)
Definition Dict : Type := list (string * string).

(** [CVData], once [__post_init__] has replaced the missing lists by empty
    ones. *)
Module CVData.
Record t : Type := mk {
  name : option string;
  email : option string;
  phone : option string;
  location : option string;
  summary : option string;
  skills : list string;
  experience : list Dict;
  education : list Dict;
  certifications : list string;
  raw_text : string
}.
End CVData.

(** [JobDescription], once [__post_init__] has replaced a missing
    [preferred_skills] by the empty list. *)
Module JobDescription.
Record t : Type := mk {
  title : string;
  company : string;
  description : string;
  required_skills : list string;
  preferred_skills : list string;
  experience_years : Z;
  location : string;
  salary_range : string
}.
End JobDescription.

Module MatchScore.
Record t : Type := mk {
  job_id : Z;
  job_title : string;
  overall_score : float;
  skills_match : float;
  experience_match : float;
  location_match : float;
  education_match : float;
  matched_skills : list string;
  missing_skills : list string;
  match_percentage : float;
  recommendation : string;
  timestamp : string
}.
End MatchScore.

(** ** JobMatcher (job_matching.py): the sibling skill matcher *)

Module JobMatcher.

Local Open Scope float_scope.
Local Open Scope py_scope.

Definition _match_skills {L : StrLower}
  (cv_skills required_skills : list string)
  (preferred_skills : option (list string))
  : result (float * list string * list string) :=
  let preferred_skills := default [] preferred_skills in
  let cv_skills_lower := List.map lower cv_skills in
  let required_lower := List.map lower required_skills in
  let preferred_lower := List.map lower preferred_skills in
  let matched :=
    List.filter (fun s => str_in s cv_skills_lower) required_lower in
  let missing :=
    List.filter (fun s => negb (str_in s cv_skills_lower)) required_lower in
  if (len required_skills =? 0)%Z then Ok (1.0, matched, missing)
  else
    let* match_score :=
      PyFloat.int_true_div (len matched) (len required_skills) in
    let preferred_matched :=
      List.filter (fun s => str_in s cv_skills_lower) preferred_lower in
    match preferred_skills with
    | _ :: _ =>
        let* ratio :=
          PyFloat.int_true_div (len preferred_matched)
                               (len preferred_skills) in
        let bonus := ratio * 0.1 in
        Ok (PyFloat.min (match_score + bonus) 1.0, matched, missing)
    | [] => Ok (match_score, matched, missing)
    end.

Definition _match_experience (cv_experience : list Dict) (required_years : Z)
  : result float :=
  match cv_experience with
  | [] => Ok (if (0 <? required_years)%Z then 0.0 else 1.0)
  | _ :: _ =>
      let estimated_years := Z.min (len cv_experience * 2) 20 in
      if (required_years =? 0)%Z then Ok 1.0
      else
        let* ratio := PyFloat.int_true_div estimated_years required_years in
        Ok (PyFloat.min ratio 1.0)
  end.

Definition _match_location {L : StrLower} (cv_location : option string)
  (job_location : string) : float :=
  if negb (str_truthy cv_location) || negb (str_truthy (Some job_location))
  then 0.5
  else if String.eqb (lower (default EmptyString cv_location))
                     (lower job_location)
  then 1.0
  else if str_contains "remote" (lower job_location) then 0.9
  else 0.3.

Definition _generate_recommendation (match_score : float)
  (missing_skills : list string) : string :=
  if 85 <=? match_score then
    "ðŸŸ¢ Excellent match! Highly recommended for this position."
  else if 70 <=? match_score then
    "ðŸŸ¡ Good match. Consider applying with focus on learning missing skills."
  else if 50 <=? match_score then
    "ðŸŸ  Moderate match. Additional training may help for this role."
  else
    "ðŸ”´ Limited match. Consider looking for related positions.".

Section Matching.

(** The collaborators: [str(edu)] on a dictionary, the built-in [hash] on
    strings (seeded anew by every interpreter) and the wall clock. *)
Context {L : StrLower}.
Variable str_of_dict : Dict -> string.
Variable hash : string -> Z.
Variable clock : nat -> string.

Definition _match_education (cv_education : list Dict)
  (job_description : string) : result float :=
  match cv_education with
  | [] => Ok 0.3
  | _ :: _ =>
      let degree_keywords :=
        ["bachelor"; "master"; "phd"; "diploma"; "certification"]%string in
      let job_desc_lower := lower job_description in
      let education_count := len cv_education in
      let has_relevant_education :=
        existsb (fun keyword =>
                   existsb (fun edu =>
                              str_contains keyword (lower (str_of_dict edu)))
                     cv_education)
          degree_keywords in
      if has_relevant_education then
        let* count := PyFloat.float_of_int education_count in
        Ok (PyFloat.min (0.5 + count * 0.1) 1.0)
      else Ok 0.5
  end.

(** The state of a [JobMatcher]: its history, and the number of clock
    readings made so far. *)
Record State : Type := mkState {
  match_history : list MatchScore.t;
  ticks : nat
}.

(** [match_cv_to_job].  In [min(overall_score * 100, 100)] the cap is the
    integer [100] of the source, which compares as the float [100.0]. *)
Definition match_cv_to_job (cv_data : CVData.t) (job : JobDescription.t)
  (st : State) : State * result MatchScore.t :=
  let scored :=
    let* (skills_match, matched_skills, missing_skills) :=
      _match_skills (CVData.skills cv_data)
        (JobDescription.required_skills job)
        (Some (JobDescription.preferred_skills job)) in
    let* experience_match :=
      _match_experience (CVData.experience cv_data)
        (JobDescription.experience_years job) in
    let location_match :=
      _match_location (CVData.location cv_data)
        (JobDescription.location job) in
    let* education_match :=
      _match_education (CVData.education cv_data)
        (JobDescription.description job) in
    let overall_score :=
      skills_match * 0.40 + experience_match * 0.30
      + location_match * 0.15 + education_match * 0.15 in
    let match_percentage := PyFloat.min (overall_score * 100) 100 in
    let recommendation :=
      _generate_recommendation match_percentage missing_skills in
    Ok (MatchScore.mk
          (hash (JobDescription.title job) mod 10000)
          (JobDescription.title job) overall_score skills_match
          experience_match location_match education_match
          matched_skills missing_skills match_percentage recommendation
          (clock (ticks st))) in
  match scored with
  | Ok match_score =>
      (mkState (match_history st ++ [match_score]) (S (ticks st)),
       Ok match_score)
  | Raise e => (st, Raise e)
  end.

(** [for job in jobs: matches.append(self.match_cv_to_job(cv_data, job))] *)
Fixpoint match_jobs_loop (cv_data : CVData.t) (jobs : list JobDescription.t)
  (matches : list MatchScore.t) (st : State)
  : State * result (list MatchScore.t) :=
  match jobs with
  | [] => (st, Ok matches)
  | job :: rest =>
      match match_cv_to_job cv_data job st with
      | (st', Ok m) => match_jobs_loop cv_data rest (matches ++ [m]) st'
      | (st', Raise e) => (st', Raise e)
      end
  end.

Definition match_cv_to_multiple_jobs (cv_data : CVData.t)
  (jobs : list JobDescription.t) (st : State)
  : State * result (list MatchScore.t) :=
  let '(st', r) := match_jobs_loop cv_data jobs [] st in
  (st',
   let* matches := r in
   Ok (sort_reverse MatchScore.overall_score matches)).

(** [get_match_history] (the records stand for the dictionaries [asdict]
    makes of them) and [clear_history]. *)
Definition get_match_history (st : State) : list MatchScore.t :=
  match_history st.

Definition clear_history (st : State) : State :=
  mkState [] (ticks st).

End Matching.

End JobMatcher.

(** ** Auxiliary notions used by the statements *)

(** A match record with its [timestamp] field blanked. *)
Definition untimed (m : EmbeddingMatch.t) : EmbeddingMatch.t :=
  EmbeddingMatch.mk
    (EmbeddingMatch.job_id m) (EmbeddingMatch.job_title m)
    (EmbeddingMatch.company m) (EmbeddingMatch.embedding_similarity m)
    (EmbeddingMatch.keyword_match_score m) (EmbeddingMatch.experience_match m)
    (EmbeddingMatch.education_match m) (EmbeddingMatch.overall_score m)
    (EmbeddingMatch.matched_skills m) (EmbeddingMatch.missing_skills m)
    (EmbeddingMatch.analysis m) EmptyString.

Definition result_map {A B : Type} (f : A -> B) (r : result A) : result B :=
  match r with
  | Ok a => Ok (f a)
  | Raise e => Raise e
  end.

(** The four-factor blend of [match_cv_to_jobs]. *)
Definition four_factor (similarity keyword experience education : float)
  : float :=
  (similarity * 0.40 + keyword * 0.30 + experience * 0.15
   + education * 0.15)%float.

(** The two-factor blend the specification describes for a posting without
    embedding. *)
Definition two_factor (skill experience : float) : float :=
  (skill * 0.6 + experience * 0.4)%float.


(** Postings the loop scores: those that have an embedding once the
    loop has tried to obtain one. *)
Definition scored (get_embedding : string -> option (list float))
  (it : string * JobPosting.t) : bool :=
  truthy (JobPosting.embedding
            (SemanticJobMatcher.fill_embedding get_embedding (snd it))).

(** What the loop leaves in the cache: every posting it reached has gone
    through [fill_embedding], the others are untouched. *)
Definition same_filled (get_embedding : string -> option (list float))
  (a b : string * JobPosting.t) : Prop :=
  fst a = fst b /\
  SemanticJobMatcher.fill_embedding get_embedding (snd a)
  = SemanticJobMatcher.fill_embedding get_embedding (snd b).

(** The invariant of the job cache: it is a dictionary (no key twice) and
    every posting is filed under its own [job_id]. *)
Definition cache_wf (cache : list (string * JobPosting.t)) : Prop :=
  List.NoDup (dict_keys cache) /\
  Forall (fun it => fst it = JobPosting.job_id (snd it)) cache.

(** ** Skill sets of the specification *)

(** The normalized set a list of skills stands for. *)
Definition skill_set {L : StrLower} (skills : list string) : gset string :=
  list_to_set (List.map lower skills).

(** The score of [scoreSkills] as the specification words it, on sets:
    [|candidate ∩ required| / |required|], plus the bonus
    [(|candidate ∩ preferred| / |preferred|) * 0.1] capped by
    [min(score + bonus, 1.0)] when the preferred set is not empty, and [1.0]
    when nothing is required. *)
Definition scoreSkills_score
  (candidateSkills requiredSkills preferredSkills : gset string)
  : result float :=
  if (Z.of_nat (size requiredSkills) =? 0)%Z then Ok 1.0%float
  else
    (let* score :=
       PyFloat.int_true_div
         (Z.of_nat (size (candidateSkills ∩ requiredSkills)))
         (Z.of_nat (size requiredSkills)) in
     if (Z.of_nat (size preferredSkills) =? 0)%Z then Ok score
     else
       let* ratio :=
         PyFloat.int_true_div
           (Z.of_nat (size (candidateSkills ∩ preferredSkills)))
           (Z.of_nat (size preferredSkills)) in
       let bonus := (ratio * 0.1)%float in
       Ok (PyFloat.min (score + bonus) 1.0%float))%py.

(** ** Trimming, as the specification words it

    Modelled from the specification, which compares skills "after trimming
    surrounding whitespace"; the code under study never trims. *)

Definition is_space (c : ascii) : bool :=
  let n := nat_of_ascii c in
  (Nat.eqb n 32) || (Nat.leb 9 n && Nat.leb n 13).

Fixpoint lstrip (s : string) : string :=
  match s with
  | EmptyString => EmptyString
  | String c s' => if is_space c then lstrip s' else s
  end.

Fixpoint rstrip (s : string) : string :=
  match s with
  | EmptyString => EmptyString
  | String c s' =>
      match rstrip s' with
      | EmptyString => if is_space c then EmptyString else String c EmptyString
      | r => String c r
      end
  end.

Definition strip (s : string) : string := rstrip (lstrip s).

(** Two skills the specification treats as equal: the same text once
    trimmed and put in lower case. *)
Definition same_skill {L : StrLower} (a b : string) : Prop :=
  lower (strip a) = lower (strip b).

(** ** Binary64 rounding, as arithmetic on integers *)

(** The record reached after [n] one-bit shifts of an exact mantissa. *)
Definition shifted (m n : Z) : shr_record :=
  Build_shr_record (m / 2 ^ n)
    ((0 <? n) && Z.odd (m / 2 ^ (n - 1)))
    ((0 <? n) && negb (m mod 2 ^ (n - 1) =? 0)).

(** Rounding [m / 2^n] to the nearest integer, ties to even. *)
Definition rne (m n : Z) : Z :=
  let q := m / 2 ^ n in
  let r := m mod 2 ^ n in
  if 2 * r <? 2 ^ n then q
  else if 2 ^ n <? 2 * r then q + 1
  else if Z.even q then q else q + 1.

(** The result of rounding the exact value [m * 2^e] to binary64. *)
Definition round_spec (s : bool) (m e : Z) : spec_float :=
  let E := fexp prec emax (Zdigits2 m + e) in
  let N := rne m (E - e) in
  if N =? 0 then S754_zero s
  else if N =? 2 ^ 53 then
    if E + 1 <=? 971 then S754_finite s (2 ^ 52)%positive (E + 1)
    else S754_infinity s
  else if E <=? 971 then S754_finite s (Z.to_pos N) E
  else S754_infinity s.

(** The value of a finite float, scaled by [2^1074] (an integer for every
    valid binary64). *)
Definition SFval (x : spec_float) : Z :=
  match x with
  | S754_finite _ m e => Z.pos m * 2 ^ (e + 1074)
  | _ => 0
  end.

(** Zero or a positive finite number. *)
Definition nonneg_finite (x : spec_float) : bool :=
  match x with
  | S754_zero _ => true
  | S754_finite false _ _ => true
  | _ => false
  end.

(** Zero, a positive finite number or plus infinity. *)
Definition nonneg_class (x : spec_float) : bool :=
  match x with
  | S754_zero _ => true
  | S754_finite false _ _ => true
  | S754_infinity false => true
  | _ => false
  end.

(** The position of an inexact value between two mantissas, as two more
    bits. *)
Definition loc_code (l : location) : Z :=
  match l with
  | loc_Exact => 0
  | loc_Inexact Lt => 1
  | loc_Inexact Eq => 2
  | loc_Inexact Gt => 3
  end.

(** ** The order of binary64, as an order on integer triples *)

(** The place of a number in the order of comparison: its class (minus
    infinity, negative, zero, positive, plus infinity), then its exponent and
    mantissa, both negated for a negative number. *)
Definition sf_key (x : spec_float) : Z * Z * Z :=
  match x with
  | S754_zero _ => (0, 0, 0)
  | S754_nan => (0, 0, 0)
  | S754_infinity s => (if s then -2 else 2, 0, 0)
  | S754_finite s m e => if s then (-1, - e, - Z.pos m) else (1, e, Z.pos m)
  end.

Definition key_le (a b : Z * Z * Z) : Prop :=
  let '(c1, e1, m1) := a in
  let '(c2, e2, m2) := b in
  c1 < c2 \/ (c1 = c2 /\ (e1 < e2 \/ (e1 = e2 /\ m1 <= m2))).

Definition key_lt (a b : Z * Z * Z) : Prop :=
  let '(c1, e1, m1) := a in
  let '(c2, e2, m2) := b in
  c1 < c2 \/ (c1 = c2 /\ (e1 < e2 \/ (e1 = e2 /\ m1 < m2))).

Definition sf_is_nan (x : spec_float) : bool :=
  match x with
  | S754_nan => true
  | _ => false
  end.

(** [sys.float_info.max], an integer: the quotients up to it are floats. *)
Definition max_float_int : Z := (2 ^ 53 - 1) * 2 ^ 971.

Definition sf_is_zero (x : spec_float) : bool :=
  match x with
  | S754_zero _ => true
  | _ => false
  end.

(** A zero or NaN: what a sum of products with zeros can be. *)
Definition sf_zero_or_nan (x : spec_float) : bool :=
  match x with
  | S754_zero _ | S754_nan => true
  | _ => false
  end.

(** ** Sorted lists *)

Section SortOrder.

Context {A : Type} (key : A -> float).

(** [x] may stand before [y] in a list sorted with [reverse=True]. *)
Definition before (x y : A) : Prop := PrimFloat.leb (key y) (key x) = true.

(** No key is NaN. *)
Definition no_nan (l : list A) : Prop :=
  Forall (fun x => PrimFloat.is_nan (key x) = false) l.

End SortOrder.

(** ** Sample data *)

(** The first posting of [create_sample_jobs], a catalog and stub
    collaborators, used to run the code on concrete inputs. *)
Module Sample.

Local Open Scope string_scope.
Local Open Scope float_scope.

Definition job (id title : string) (required preferred : list string)
  (years : Z) (e : option (list float)) : JobPosting.t :=
  JobPosting.mk id title "TechCorp" "backend development"
    required preferred years "San Francisco, CA"
    "$150,000 - $200,000" "2024-01-01T00:00:00" e false.

Definition job_001 (e : option (list float)) : JobPosting.t :=
  job "job_001" "Senior Python Developer"
    ["Python"; "FastAPI"; "PostgreSQL"; "Docker"; "AWS"]
    ["Kubernetes"; "Redis"; "Elasticsearch"] 5 e.

Definition job_002 (e : option (list float)) : JobPosting.t :=
  job "job_002" "Cloud Solutions Architect"
    ["Azure"; "Terraform"; "Python"; "CI/CD"]
    ["Kubernetes"; "Microservices"; "ARM Templates"] 7 e.

Definition job_003 (e : option (list float)) : JobPosting.t :=
  job "job_003" "AI/ML Engineer"
    ["Python"; "Machine Learning"; "PyTorch"; "Azure AI"]
    ["LLMs"; "Semantic Kernel"; "AutoGen"] 4 e.

(** The case mapping for the sample data, which is ASCII text. *)
Definition ascii_text : StrLower := ascii_lower.

(** An embedder that knows the text of the CV only. *)
Definition cv_only_embedder (text : string) : option (list float) :=
  if String.eqb text "my cv" then Some [1; 0] else None.

(** An embedder that is not available. *)
Definition no_embedder (text : string) : option (list float) := None.

(** A clock that advances by one unit at every reading. *)
Definition counting_clock (k : nat) : string :=
  NilEmpty.string_of_uint (Nat.to_uint k).

Definition no_format (x : float) : string := "".

Definition world (cache : list (string * JobPosting.t))
  : SemanticJobMatcher.World :=
  SemanticJobMatcher.mkWorld cache 0.

End Sample.

(** * Properties *)

(** The properties hold for every case mapping [lower]. *)
Section Model.

Context {L : StrLower}.

(** ** Binary64 rounding *)

Lemma fexp_eq e : fexp prec emax e = Z.max (e - 53) (-1074).
Proof. reflexivity. Qed.

Lemma digits2_pos_size p : digits2_pos p = Pos.size p.
Proof. induction p; simpl; congruence. Qed.

Lemma Zdigits2_bounds m :
  0 < m -> 2 ^ (Zdigits2 m - 1) <= m < 2 ^ Zdigits2 m.
Proof.
  destruct m as [|p|p]; try lia. intros _.
  change (Zdigits2 (Z.pos p)) with (Z.pos (digits2_pos p)).
  rewrite digits2_pos_size.
  pose proof (Pos.size_gt p) as Hgt.
  pose proof (Pos.size_le p) as Hle.
  apply Pos2Z.pos_lt_pos in Hgt. apply Pos2Z.pos_le_pos in Hle.
  rewrite Pos2Z.inj_pow in Hgt, Hle.
  pose proof (Pos2Z.is_pos (Pos.size p)) as Hpos.
  remember (Z.pos (Pos.size p)) as s eqn:Es. clear Es.
  assert (Hs : 2 ^ s = 2 * 2 ^ (s - 1)).
  { replace s with (Z.succ (s - 1)) at 1 by lia. apply Z.pow_succ_r. lia. }
  lia.
Qed.

Lemma Zdigits2_pos m : 0 < m -> 0 < Zdigits2 m.
Proof. destruct m; simpl; lia. Qed.

Lemma Zdigits2_unique m d :
  0 < d -> 2 ^ (d - 1) <= m < 2 ^ d -> Zdigits2 m = d.
Proof.
  intros Hd [Hlo Hhi].
  assert (Hm : 0 < m) by (pose proof (Z.pow_pos_nonneg 2 (d - 1)); lia).
  pose proof (Zdigits2_bounds m Hm) as [Hlo' Hhi'].
  pose proof (Zdigits2_pos m Hm) as Hd'.
  destruct (Z.lt_trichotomy (Zdigits2 m) d) as [H|[H|H]]; [|assumption|].
  - assert (2 ^ Zdigits2 m <= 2 ^ (d - 1)) by (apply Z.pow_le_mono_r; lia). lia.
  - assert (2 ^ d <= 2 ^ (Zdigits2 m - 1)) by (apply Z.pow_le_mono_r; lia). lia.
Qed.

Lemma iter_pos_nat {A : Type} (f : A -> A) p x :
  iter_pos f p x = Nat.iter (Pos.to_nat p) f x.
Proof.
  revert x. induction p as [p IH|p IH|]; intros x; cbn [iter_pos].
  - rewrite !IH, Pos2Nat.inj_xI.
    replace (S (2 * Pos.to_nat p))%nat
      with (Pos.to_nat p + S (Pos.to_nat p))%nat by lia.
    rewrite Nat.iter_add, Nat.iter_succ_r. reflexivity.
  - rewrite !IH, Pos2Nat.inj_xO.
    replace (2 * Pos.to_nat p)%nat
      with (Pos.to_nat p + Pos.to_nat p)%nat by lia.
    rewrite Nat.iter_add. reflexivity.
  - reflexivity.
Qed.

Lemma shr_1_spec m r s :
  0 <= m ->
  shr_1 (Build_shr_record m r s) = Build_shr_record (m / 2) (Z.odd m) (r || s).
Proof.
  intros Hm. rewrite <- Z.div2_div.
  destruct m as [|[p|p|]|p]; try reflexivity; lia.
Qed.

Lemma shifted_succ m n :
  0 <= m -> 0 <= n -> shr_1 (shifted m n) = shifted m (n + 1).
Proof.
  intros Hm Hn. unfold shifted.
  assert (Hp : 0 < 2 ^ n) by (apply Z.pow_pos_nonneg; lia).
  rewrite shr_1_spec by (apply Z.div_pos; lia).
  replace (n + 1 - 1) with n by lia.
  replace (0 <? n + 1) with true by (symmetry; apply Z.ltb_lt; lia).
  rewrite Z.div_div by lia.
  replace (2 ^ n * 2) with (2 ^ (n + 1)) by (rewrite Z.pow_add_r by lia; lia).
  simpl. f_equal.
  destruct (Z.ltb_spec 0 n) as [Hpos|Hz]; simpl.
  - assert (Hh : 0 < 2 ^ (n - 1)) by (apply Z.pow_pos_nonneg; lia).
    assert (E2 : 2 ^ n = 2 ^ (n - 1) * 2).
    { replace n with (n - 1 + 1) at 1 by lia. rewrite Z.pow_add_r by lia. lia. }
    rewrite E2, Z.rem_mul_r by lia.
    rewrite Zmod_odd.
    pose proof (Z.mod_pos_bound m (2 ^ (n - 1)) Hh) as Hb.
    destruct (Z.odd (m / 2 ^ (n - 1))); simpl.
    + symmetry. apply negb_true_iff, Z.eqb_neq. lia.
    + f_equal. rewrite Z.mul_0_r, Z.add_0_r. reflexivity.
  - replace n with 0 by lia. rewrite Z.pow_0_r, Z.mod_1_r. reflexivity.
Qed.

Lemma iter_shr_1 m (n : nat) :
  0 <= m ->
  Nat.iter n shr_1 (Build_shr_record m false false) = shifted m (Z.of_nat n).
Proof.
  intros Hm. induction n as [|n IH].
  - simpl. unfold shifted. simpl. now rewrite Z.div_1_r.
  - rewrite Nat2Z.inj_succ, <- Z.add_1_r, <- shifted_succ by lia.
    simpl. now rewrite IH.
Qed.

Lemma rne_shifted m n :
  0 <= m -> 0 <= n ->
  round_nearest_even (shr_m (shifted m n)) (loc_of_shr_record (shifted m n))
  = rne m n.
Proof.
  intros Hm Hn. unfold shifted, rne. cbv zeta.
  destruct (Z.ltb_spec 0 n) as [Hpos|Hz].
  - assert (Hh : 0 < 2 ^ (n - 1)) by (apply Z.pow_pos_nonneg; lia).
    assert (E2 : 2 ^ n = 2 ^ (n - 1) * 2).
    { replace n with (n - 1 + 1) at 1 by lia. rewrite Z.pow_add_r by lia. lia. }
    assert (Er : m mod 2 ^ n =
                 m mod 2 ^ (n - 1) + 2 ^ (n - 1) * ((m / 2 ^ (n - 1)) mod 2)).
    { rewrite E2 at 1. apply Z.rem_mul_r; lia. }
    rewrite Zmod_odd in Er.
    pose proof (Z.mod_pos_bound m (2 ^ (n - 1)) Hh) as Hb.
    destruct (Z.odd (m / 2 ^ (n - 1)));
      destruct (Z.eqb_spec (m mod 2 ^ (n - 1)) 0) as [Hz|Hnz];
      cbn [andb negb shr_m loc_of_shr_record round_nearest_even];
      destruct (Z.ltb_spec (2 * (m mod 2 ^ n)) (2 ^ n)); try lia;
      destruct (Z.ltb_spec (2 ^ n) (2 * (m mod 2 ^ n))); try lia;
      reflexivity.
  - replace n with 0 by lia.
    cbn [andb negb shr_m loc_of_shr_record round_nearest_even].
    rewrite Z.pow_0_r, Z.mod_1_r. reflexivity.
Qed.

Lemma shr_exact m e n :
  0 <= m -> 0 <= n ->
  shr (Build_shr_record m false false) e n = (shifted m n, e + n).
Proof.
  intros Hm Hn. destruct n as [|p|p]; try lia.
  - unfold shr, shifted. simpl. now rewrite Z.div_1_r, Z.add_0_r.
  - unfold shr. rewrite iter_pos_nat, iter_shr_1 by assumption.
    now rewrite positive_nat_Z.
Qed.

Lemma shr_none mrs e n : n <= 0 -> shr mrs e n = (mrs, e).
Proof. destruct n; try reflexivity; lia. Qed.

Lemma rne_bounds m n :
  0 <= m -> 0 <= n -> m / 2 ^ n <= rne m n <= m / 2 ^ n + 1.
Proof.
  intros Hm Hn. unfold rne. cbv zeta.
  destruct (_ <? _); [lia|]. destruct (_ <? _); [lia|].
  destruct (Z.even _); lia.
Qed.

Lemma rne_nonneg m n : 0 <= m -> 0 <= n -> 0 <= rne m n.
Proof.
  intros Hm Hn. pose proof (rne_bounds m n Hm Hn).
  assert (0 <= m / 2 ^ n) by (apply Z.div_pos; [lia|apply Z.pow_pos_nonneg; lia]).
  lia.
Qed.

Lemma rne_le_pow53 m e :
  0 < m -> e <= fexp prec emax (Zdigits2 m + e) ->
  rne m (fexp prec emax (Zdigits2 m + e) - e) <= 2 ^ 53.
Proof.
  intros Hm Hk. set (E := fexp prec emax (Zdigits2 m + e)) in *.
  pose proof (rne_bounds m (E - e) ltac:(lia) ltac:(lia)) as [_ Hub].
  assert (HE : Zdigits2 m + e - 53 <= E) by (unfold E; rewrite fexp_eq; lia).
  pose proof (Zdigits2_bounds m Hm) as [_ Hd].
  pose proof (Zdigits2_pos m Hm) as Hdp.
  assert (Hp : 0 < 2 ^ (E - e)) by (apply Z.pow_pos_nonneg; lia).
  assert (m / 2 ^ (E - e) < 2 ^ 53).
  { apply Z.div_lt_upper_bound; [assumption|].
    rewrite <- Z.pow_add_r by lia.
    eapply Z.lt_le_trans; [exact Hd|]. apply Z.pow_le_mono_r; lia. }
  lia.
Qed.

Lemma shr_fexp_exact m e :
  0 <= m -> e <= fexp prec emax (Zdigits2 m + e) ->
  shr_fexp prec emax m e loc_Exact
  = (shifted m (fexp prec emax (Zdigits2 m + e) - e),
     fexp prec emax (Zdigits2 m + e)).
Proof.
  intros Hm Hk. unfold shr_fexp. cbn [shr_record_of_loc].
  rewrite shr_exact by lia. f_equal. lia.
Qed.

Lemma shr_fexp_none m e :
  fexp prec emax (Zdigits2 m + e) <= e ->
  shr_fexp prec emax m e loc_Exact = (Build_shr_record m false false, e).
Proof.
  intros Hk. unfold shr_fexp. cbn [shr_record_of_loc].
  now rewrite shr_none by lia.
Qed.

Theorem binary_round_aux_exact s m e :
  0 < m -> e <= fexp prec emax (Zdigits2 m + e) ->
  binary_round_aux prec emax s m e loc_Exact = round_spec s m e.
Proof.
  intros Hm Hk. unfold binary_round_aux, round_spec. cbv zeta.
  pose proof (rne_le_pow53 m e Hm Hk) as HN53.
  set (E := fexp prec emax (Zdigits2 m + e)) in *.
  assert (HEmin : -1074 <= E) by (unfold E; rewrite fexp_eq; lia).
  rewrite shr_fexp_exact by lia. fold E.
  rewrite rne_shifted by lia.
  pose proof (rne_nonneg m (E - e) ltac:(lia) ltac:(lia)) as HN0.
  set (N := rne m (E - e)) in *.
  destruct (Z.eqb_spec N 0) as [HNz|HNz].
  - rewrite HNz. rewrite shr_fexp_none by (simpl; rewrite fexp_eq; lia).
    reflexivity.
  - destruct (Z.eqb_spec N (2 ^ 53)) as [HNc|HNc].
    + rewrite HNc.
      assert (HE1 : fexp prec emax (Zdigits2 (2 ^ 53) + E) = E + 1)
        by (change (Zdigits2 (2 ^ 53)) with 54; rewrite fexp_eq; lia).
      rewrite shr_fexp_exact by lia. rewrite HE1.
      replace (E + 1 - E) with 1 by lia.
      unfold shifted. cbn [shr_m].
      change (2 ^ 53 / 2 ^ 1) with (Z.pos (2 ^ 52)).
      cbv iota. reflexivity.
    + assert (HdN : Zdigits2 N <= 53).
      { pose proof (Zdigits2_bounds N ltac:(lia)) as [Hlo _].
        destruct (Z_le_gt_dec (Zdigits2 N) 53) as [|Hgt]; [assumption|].
        assert (2 ^ 53 <= 2 ^ (Zdigits2 N - 1))
          by (apply Z.pow_le_mono_r; lia).
        lia. }
      rewrite shr_fexp_none by (rewrite fexp_eq; lia).
      cbn [shr_m].
      destruct N as [|p|p]; try lia. reflexivity.
Qed.

Lemma Zdigits2_mono m1 m2 :
  0 < m1 -> m1 <= m2 -> Zdigits2 m1 <= Zdigits2 m2.
Proof.
  intros H1 H12.
  pose proof (Zdigits2_bounds m1 H1) as [Hlo _].
  pose proof (Zdigits2_bounds m2 ltac:(lia)) as [_ Hhi].
  pose proof (Zdigits2_pos m1 H1).
  pose proof (Zdigits2_pos m2 ltac:(lia)).
  destruct (Z_le_gt_dec (Zdigits2 m1) (Zdigits2 m2)) as [|Hgt]; [assumption|].
  assert (2 ^ Zdigits2 m2 <= 2 ^ (Zdigits2 m1 - 1))
    by (apply Z.pow_le_mono_r; lia).
  lia.
Qed.

Lemma Zdigits2_mul_pow m j :
  0 < m -> 0 <= j -> Zdigits2 (m * 2 ^ j) = Zdigits2 m + j.
Proof.
  intros Hm Hj.
  pose proof (Zdigits2_bounds m Hm) as [Hlo Hhi].
  pose proof (Zdigits2_pos m Hm) as Hd.
  assert (Hp : 0 < 2 ^ j) by (apply Z.pow_pos_nonneg; lia).
  apply Zdigits2_unique; [lia|].
  replace (Zdigits2 m + j - 1) with (Zdigits2 m - 1 + j) by lia.
  rewrite !Z.pow_add_r by lia. split.
  - apply Z.mul_le_mono_nonneg_r; lia.
  - apply Z.mul_lt_mono_pos_r; lia.
Qed.

Lemma rne_mul_pow m n j :
  0 <= m -> 0 <= n -> 0 <= j -> rne (m * 2 ^ j) (n + j) = rne m n.
Proof.
  intros Hm Hn Hj. unfold rne. cbv zeta.
  assert (Hp : 0 < 2 ^ j) by (apply Z.pow_pos_nonneg; lia).
  assert (Hq : 0 < 2 ^ n) by (apply Z.pow_pos_nonneg; lia).
  rewrite Z.pow_add_r by lia.
  rewrite Z.div_mul_cancel_r by lia.
  rewrite Z.mul_mod_distr_r by lia.
  assert (E1 : (2 * (m mod 2 ^ n * 2 ^ j) <? 2 ^ n * 2 ^ j)
               = (2 * (m mod 2 ^ n) <? 2 ^ n)).
  { destruct (Z.ltb_spec (2 * (m mod 2 ^ n)) (2 ^ n));
      [apply Z.ltb_lt|apply Z.ltb_ge]; nia. }
  assert (E2 : (2 ^ n * 2 ^ j <? 2 * (m mod 2 ^ n * 2 ^ j))
               = (2 ^ n <? 2 * (m mod 2 ^ n))).
  { destruct (Z.ltb_spec (2 ^ n) (2 * (m mod 2 ^ n)));
      [apply Z.ltb_lt|apply Z.ltb_ge]; nia. }
  now rewrite E1, E2.
Qed.

Lemma round_spec_shift s m e j :
  0 < m -> 0 <= j -> e <= fexp prec emax (Zdigits2 m + e) ->
  round_spec s (m * 2 ^ j) (e - j) = round_spec s m e.
Proof.
  intros Hm Hj Hk. unfold round_spec. cbv zeta.
  rewrite Zdigits2_mul_pow by lia.
  replace (Zdigits2 m + j + (e - j)) with (Zdigits2 m + e) by lia.
  set (E := fexp prec emax (Zdigits2 m + e)) in *.
  replace (E - (e - j)) with (E - e + j) by lia.
  rewrite rne_mul_pow by lia. reflexivity.
Qed.

Lemma rne_mono m1 m2 n :
  0 <= m1 -> m1 <= m2 -> 0 <= n -> rne m1 n <= rne m2 n.
Proof.
  intros H1 H12 Hn.
  assert (Hp : 0 < 2 ^ n) by (apply Z.pow_pos_nonneg; lia).
  pose proof (Z.div_le_mono m1 m2 (2 ^ n) Hp H12) as Hq.
  pose proof (rne_bounds m1 n H1 Hn) as [_ Hb1].
  pose proof (rne_bounds m2 n ltac:(lia) Hn) as [Hb2 _].
  destruct (Z.eq_dec (m1 / 2 ^ n) (m2 / 2 ^ n)) as [Heq|Hne]; [|lia].
  pose proof (Z.div_mod m1 (2 ^ n) ltac:(lia)) as Hd1.
  pose proof (Z.div_mod m2 (2 ^ n) ltac:(lia)) as Hd2.
  assert (Hr : m1 mod 2 ^ n <= m2 mod 2 ^ n) by (rewrite Heq in Hd1; lia).
  unfold rne. cbv zeta. rewrite Heq.
  destruct (Z.ltb_spec (2 * (m1 mod 2 ^ n)) (2 ^ n));
    destruct (Z.ltb_spec (2 * (m2 mod 2 ^ n)) (2 ^ n)); try lia;
    destruct (Z.ltb_spec (2 ^ n) (2 * (m1 mod 2 ^ n)));
    destruct (Z.ltb_spec (2 ^ n) (2 * (m2 mod 2 ^ n))); try lia;
    destruct (Z.even (m2 / 2 ^ n)); lia.
Qed.

Lemma SFleb_finite m1 e1 m2 e2 :
  e1 < e2 \/ (e1 = e2 /\ (m1 <= m2)%positive) ->
  SFleb (S754_finite false m1 e1) (S754_finite false m2 e2) = true.
Proof.
  intros H. unfold SFleb, SFcompare.
  destruct H as [H|[-> H]].
  - apply Z.compare_lt_iff in H. now rewrite H.
  - rewrite Z.compare_refl.
    change (Pos.compare_cont Eq m1 m2) with (m1 ?= m2)%positive.
    destruct (m1 ?= m2)%positive eqn:E; try reflexivity.
    apply Pos.compare_gt_iff in E. lia.
Qed.

Lemma fexp_mono a b : a <= b -> fexp prec emax a <= fexp prec emax b.
Proof. intros H. rewrite !fexp_eq. lia. Qed.

Lemma rne_ge_pow52 m e :
  0 < m -> -1074 < fexp prec emax (Zdigits2 m + e) ->
  e <= fexp prec emax (Zdigits2 m + e) ->
  2 ^ 52 <= rne m (fexp prec emax (Zdigits2 m + e) - e).
Proof.
  intros Hm Hn Hk. rewrite fexp_eq in *.
  assert (HE : Z.max (Zdigits2 m + e - 53) (-1074) = Zdigits2 m + e - 53) by lia.
  rewrite HE in *.
  pose proof (rne_bounds m (Zdigits2 m + e - 53 - e) ltac:(lia) ltac:(lia))
    as [Hlb _].
  pose proof (Zdigits2_bounds m Hm) as [Hlo _].
  assert (Hp : 0 < 2 ^ (Zdigits2 m + e - 53 - e))
    by (apply Z.pow_pos_nonneg; lia).
  assert (2 ^ 52 <= m / 2 ^ (Zdigits2 m + e - 53 - e)).
  { apply Z.div_le_lower_bound; [assumption|].
    rewrite <- Z.pow_add_r by lia.
    replace (Zdigits2 m + e - 53 - e + 52) with (Zdigits2 m - 1) by lia.
    assumption. }
  lia.
Qed.

Theorem round_spec_mono_aligned m1 m2 e :
  0 < m1 -> m1 <= m2 ->
  e <= fexp prec emax (Zdigits2 m1 + e) ->
  SFleb (round_spec false m1 e) (round_spec false m2 e) = true.
Proof.
  intros H1 H12 Hk1.
  pose proof (Zdigits2_mono m1 m2 H1 H12) as Hd.
  pose proof (fexp_mono (Zdigits2 m1 + e) (Zdigits2 m2 + e) ltac:(lia)) as HE.
  assert (Hk2 : e <= fexp prec emax (Zdigits2 m2 + e)) by lia.
  pose proof (rne_le_pow53 m1 e H1 Hk1) as Hu1.
  pose proof (rne_le_pow53 m2 e ltac:(lia) Hk2) as Hu2.
  pose proof (rne_nonneg m1 (fexp prec emax (Zdigits2 m1 + e) - e)
                ltac:(lia) ltac:(lia)) as Hn1.
  pose proof (rne_nonneg m2 (fexp prec emax (Zdigits2 m2 + e) - e)
                ltac:(lia) ltac:(lia)) as Hn2.
  assert (Hcase :
    fexp prec emax (Zdigits2 m1 + e) = fexp prec emax (Zdigits2 m2 + e) /\
    rne m1 (fexp prec emax (Zdigits2 m1 + e) - e)
    <= rne m2 (fexp prec emax (Zdigits2 m2 + e) - e)
    \/
    fexp prec emax (Zdigits2 m1 + e) < fexp prec emax (Zdigits2 m2 + e) /\
    2 ^ 52 <= rne m2 (fexp prec emax (Zdigits2 m2 + e) - e)).
  { destruct (Z.eq_dec (fexp prec emax (Zdigits2 m1 + e))
                       (fexp prec emax (Zdigits2 m2 + e))) as [Heq|Hne].
    - left. split; [assumption|]. rewrite Heq. apply rne_mono; lia.
    - right. split; [lia|]. apply rne_ge_pow52; try lia.
      assert (-1074 <= fexp prec emax (Zdigits2 m1 + e))
        by (rewrite fexp_eq; lia).
      lia. }
  unfold round_spec. cbv zeta.
  set (E1 := fexp prec emax (Zdigits2 m1 + e)) in *.
  set (E2 := fexp prec emax (Zdigits2 m2 + e)) in *.
  set (N1 := rne m1 (E1 - e)) in *.
  set (N2 := rne m2 (E2 - e)) in *.
  clearbody N1 N2 E1 E2.
  assert (P52 : Z.pos (2 ^ 52) = 2 ^ 52) by reflexivity.
  destruct (Z.eqb_spec N1 0); destruct (Z.eqb_spec N2 0);
    destruct (Z.eqb_spec N1 (2 ^ 53)); destruct (Z.eqb_spec N2 (2 ^ 53));
    destruct (Z.leb_spec (E1 + 1) 971); destruct (Z.leb_spec (E2 + 1) 971);
    destruct (Z.leb_spec E1 971); destruct (Z.leb_spec E2 971);
    try lia; try reflexivity;
    apply SFleb_finite; lia.
Qed.

Lemma valid_finite s m e :
  valid_binary (S754_finite s m e) = true ->
  -1074 <= e <= 971 /\ 1 <= Zdigits2 (Z.pos m) <= 53 /\
  (Zdigits2 (Z.pos m) = 53 \/ e = -1074).
Proof.
  unfold SpecFloat.valid_binary, bounded, canonical_mantissa.
  intros H. apply andb_true_iff in H. destruct H as [Hc Hb].
  apply Z.eqb_eq in Hc. apply Z.leb_le in Hb.
  change (Z.pos (digits2_pos m)) with (Zdigits2 (Z.pos m)) in Hc.
  rewrite fexp_eq in Hc.
  pose proof (Zdigits2_pos (Z.pos m) ltac:(lia)).
  change (emax - prec) with 971 in Hb. lia.
Qed.

Lemma rne_exact m : 0 <= m -> rne m 0 = m.
Proof.
  intros Hm. unfold rne. cbv zeta.
  rewrite Z.pow_0_r, Z.mod_1_r, Z.div_1_r. reflexivity.
Qed.

Lemma round_spec_canonical m e :
  valid_binary (S754_finite false m e) = true ->
  round_spec false (Z.pos m) e = S754_finite false m e.
Proof.
  intros Hv. destruct (valid_finite _ _ _ Hv) as (He & Hd & Hc).
  unfold round_spec. cbv zeta.
  assert (HE : fexp prec emax (Zdigits2 (Z.pos m) + e) = e)
    by (rewrite fexp_eq; lia).
  rewrite HE, Z.sub_diag, rne_exact by lia.
  pose proof (Zdigits2_bounds (Z.pos m) ltac:(lia)) as [_ Hhi].
  assert (2 ^ Zdigits2 (Z.pos m) <= 2 ^ 53) by (apply Z.pow_le_mono_r; lia).
  destruct (Z.eqb_spec (Z.pos m) 0); [lia|].
  destruct (Z.eqb_spec (Z.pos m) (2 ^ 53)); [lia|].
  destruct (Z.leb_spec e 971); [reflexivity|lia].
Qed.

Lemma round_spec_val x :
  nonneg_finite x = true -> valid_binary x = true -> 0 < SFval x ->
  round_spec false (SFval x) (-1074) = x.
Proof.
  destruct x as [s|s| |[|] m e]; intros Hnf Hv Hpos;
    try discriminate Hnf; try (cbn in Hpos; lia).
  destruct (valid_finite false m e Hv) as (He & Hd & Hc).
  unfold SFval.
  replace (-1074) with (e - (e + 1074)) by lia.
  rewrite round_spec_shift; try lia.
  - now apply round_spec_canonical.
  - rewrite fexp_eq. lia.
Qed.

Lemma rne_zero n : rne 0 n = 0.
Proof.
  unfold rne. cbv zeta. rewrite Zmod_0_l, Zdiv_0_l.
  pose proof (Z.pow_nonneg 2 n ltac:(lia)).
  destruct (Z.ltb_spec (2 * 0) (2 ^ n)); [reflexivity|].
  destruct (Z.ltb_spec (2 ^ n) (2 * 0)); [lia|reflexivity].
Qed.

Lemma round_spec_zero s e : round_spec s 0 e = S754_zero s.
Proof. unfold round_spec. cbv zeta. now rewrite rne_zero. Qed.

Lemma round_spec_class m e : nonneg_class (round_spec false m e) = true.
Proof.
  unfold round_spec. cbv zeta.
  repeat match goal with |- context [if ?b then _ else _] => destruct b end;
    reflexivity.
Qed.

Lemma SFleb_zero_l s y : nonneg_class y = true -> SFleb (S754_zero s) y = true.
Proof. destruct y as [?|[|]| |[|] ? ?]; simpl; try discriminate; reflexivity. Qed.

Lemma SFleb_infinity_r x :
  nonneg_class x = true -> SFleb x (S754_infinity false) = true.
Proof. destruct x as [?|[|]| |[|] ? ?]; simpl; try discriminate; reflexivity. Qed.

Lemma nonneg_finite_class x : nonneg_finite x = true -> nonneg_class x = true.
Proof. destruct x as [?|[|]| |[|] ? ?]; simpl; try discriminate; reflexivity. Qed.

Lemma SFval_nonneg x : 0 <= SFval x.
Proof.
  destruct x as [?|?| |s m e]; unfold SFval;
    first [lia|apply Z.mul_nonneg_nonneg; [lia|apply Z.pow_nonneg; lia]].
Qed.

Lemma SFval_finite_pos s m e : -1074 <= e -> 0 < SFval (S754_finite s m e).
Proof.
  intros He. unfold SFval.
  apply Z.mul_pos_pos; [lia|apply Z.pow_pos_nonneg; lia].
Qed.

(** On valid floats the comparison of the format is the order of the
    values. *)
Lemma SFleb_val x y :
  nonneg_finite x = true -> nonneg_finite y = true ->
  valid_binary x = true -> valid_binary y = true ->
  SFleb x y = true -> SFval x <= SFval y.
Proof.
  intros Hx Hy Vx Vy Hle.
  destruct x as [sx|sx| |[|] mx ex]; try discriminate Hx.
  { apply SFval_nonneg. }
  destruct y as [sy|sy| |[|] my ey]; try discriminate Hy.
  { discriminate Hle. }
  destruct (valid_finite false mx ex Vx) as (Hex & Hdx & Hcx).
  destruct (valid_finite false my ey Vy) as (Hey & Hdy & Hcy).
  unfold SFleb, SFcompare in Hle. unfold SFval.
  pose proof (Zdigits2_bounds (Z.pos mx) ltac:(lia)) as [Hlx Hux].
  pose proof (Zdigits2_bounds (Z.pos my) ltac:(lia)) as [Hly Huy].
  destruct (Z.compare_spec ex ey) as [Heq|Hlt|Hgt].
  - subst ey.
    change (Pos.compare_cont Eq mx my) with (mx ?= my)%positive in Hle.
    assert (Z.pos mx <= Z.pos my).
    { destruct (mx ?= my)%positive eqn:E; try discriminate Hle.
      - apply Pos.compare_eq in E. subst. lia.
      - assert (mx < my)%positive by (apply Pos.compare_lt_iff; exact E).
        lia. }
    pose proof (Z.pow_nonneg 2 (ex + 1074) ltac:(lia)). nia.
  - assert (Hdy53 : Zdigits2 (Z.pos my) = 53) by lia.
    rewrite Hdy53 in Hly.
    assert (Z.pos mx < 2 ^ 53).
    { eapply Z.lt_le_trans; [exact Hux|]. apply Z.pow_le_mono_r; lia. }
    replace (ey + 1074) with (ex + 1074 + (ey - ex)) by lia.
    rewrite (Z.pow_add_r 2 (ex + 1074) (ey - ex)) by lia.
    assert (2 <= 2 ^ (ey - ex)).
    { change 2 with (2 ^ 1) at 1. apply Z.pow_le_mono_r; lia. }
    assert (0 < 2 ^ (ex + 1074)) by (apply Z.pow_pos_nonneg; lia).
    change (53 - 1) with 52 in Hly.
    assert (Z.pos mx <= Z.pos my * 2 ^ (ey - ex)) by nia.
    nia.
  - discriminate Hle.
Qed.

(** Rounding is monotone on the scaled values. *)
Lemma round_spec_mono_scaled v1 v2 c :
  c <= -1074 -> 0 < v1 -> v1 <= v2 ->
  SFleb (round_spec false v1 c) (round_spec false v2 c) = true.
Proof.
  intros Hc H1 H12. apply round_spec_mono_aligned; try assumption.
  rewrite fexp_eq. lia.
Qed.

Lemma round_spec_mono_scaled0 v1 v2 c :
  c <= -1074 -> 0 <= v1 -> v1 <= v2 ->
  SFleb (round_spec false v1 c) (round_spec false v2 c) = true.
Proof.
  intros Hc H1 H12. destruct (Z.eq_dec v1 0) as [->|Hne].
  - rewrite round_spec_zero. apply SFleb_zero_l, round_spec_class.
  - apply round_spec_mono_scaled; lia.
Qed.

Lemma Zdigits2_mul_lb a b :
  0 < a -> 0 < b -> Zdigits2 a + Zdigits2 b - 1 <= Zdigits2 (a * b).
Proof.
  intros Ha Hb.
  pose proof (Zdigits2_bounds a Ha) as [Hla _].
  pose proof (Zdigits2_bounds b Hb) as [Hlb _].
  pose proof (Zdigits2_bounds (a * b) ltac:(nia)) as [_ Hu].
  pose proof (Zdigits2_pos a Ha). pose proof (Zdigits2_pos b Hb).
  pose proof (Zdigits2_pos (a * b) ltac:(nia)).
  destruct (Z_le_gt_dec (Zdigits2 a + Zdigits2 b - 1) (Zdigits2 (a * b)))
    as [|Hgt]; [assumption|].
  assert (Hp : 2 ^ Zdigits2 (a * b) <= 2 ^ (Zdigits2 a - 1 + (Zdigits2 b - 1)))
    by (apply Z.pow_le_mono_r; lia).
  rewrite Z.pow_add_r in Hp by lia.
  assert (0 < 2 ^ (Zdigits2 a - 1)) by (apply Z.pow_pos_nonneg; lia).
  assert (0 < 2 ^ (Zdigits2 b - 1)) by (apply Z.pow_pos_nonneg; lia).
  nia.
Qed.

Lemma SFmul_finite mx ex mc ec :
  valid_binary (S754_finite false mx ex) = true ->
  valid_binary (S754_finite false mc ec) = true ->
  SFmul prec emax (S754_finite false mx ex) (S754_finite false mc ec)
  = round_spec false
      (SFval (S754_finite false mx ex) * SFval (S754_finite false mc ec))
      (-2148).
Proof.
  intros Vx Vc.
  destruct (valid_finite false mx ex Vx) as (Hex & Hdx & Hcx).
  destruct (valid_finite false mc ec Vc) as (Hec & Hdc & Hcc).
  unfold SFmul. cbn [xorb].
  change (Z.pos (mx * mc)) with (Z.pos mx * Z.pos mc).
  pose proof (Zdigits2_mul_lb (Z.pos mx) (Z.pos mc) ltac:(lia) ltac:(lia)).
  assert (Hk : ex + ec
               <= fexp prec emax (Zdigits2 (Z.pos mx * Z.pos mc) + (ex + ec)))
    by (rewrite fexp_eq; lia).
  rewrite binary_round_aux_exact by (try assumption; lia).
  rewrite <- (round_spec_shift false _ _ (ex + ec + 2148)) by (try assumption; lia).
  f_equal; [|lia].
  unfold SFval.
  replace (ex + ec + 2148) with (ex + 1074 + (ec + 1074)) by lia.
  rewrite Z.pow_add_r by lia. ring.
Qed.

Lemma SFmul_nonneg_finite x mc ec :
  nonneg_finite x = true -> valid_binary x = true ->
  valid_binary (S754_finite false mc ec) = true ->
  (0 < SFval x /\
   SFmul prec emax x (S754_finite false mc ec)
   = round_spec false (SFval x * SFval (S754_finite false mc ec)) (-2148))
  \/ (SFval x = 0 /\
      exists s, SFmul prec emax x (S754_finite false mc ec) = S754_zero s).
Proof.
  intros Hx Vx Vc.
  destruct x as [s|s| |[|] mx ex]; try discriminate Hx.
  - right. split; [reflexivity|]. eexists. reflexivity.
  - left. destruct (valid_finite false mx ex Vx) as (Hex & _).
    split; [now apply SFval_finite_pos|]. now apply SFmul_finite.
Qed.

(** Multiplication by a positive constant is monotone. *)
Theorem SFmul_mono x y mc ec :
  nonneg_finite x = true -> nonneg_finite y = true ->
  valid_binary x = true -> valid_binary y = true ->
  valid_binary (S754_finite false mc ec) = true ->
  SFleb x y = true ->
  SFleb (SFmul prec emax x (S754_finite false mc ec))
        (SFmul prec emax y (S754_finite false mc ec)) = true.
Proof.
  intros Hx Hy Vx Vy Vc Hle.
  pose proof (SFleb_val x y Hx Hy Vx Vy Hle) as Hv.
  destruct (valid_finite false mc ec Vc) as (Hec & _).
  pose proof (SFval_finite_pos false mc ec ltac:(lia)) as Hc.
  destruct (SFmul_nonneg_finite x mc ec Hx Vx Vc) as [[Hpx ->]|[Hzx [s ->]]];
    destruct (SFmul_nonneg_finite y mc ec Hy Vy Vc) as [[Hpy ->]|[Hzy [s' ->]]].
  - apply round_spec_mono_scaled; nia.
  - lia.
  - apply SFleb_zero_l, round_spec_class.
  - reflexivity.
Qed.

Lemma SFmul_class x mc ec :
  nonneg_finite x = true -> valid_binary x = true ->
  valid_binary (S754_finite false mc ec) = true ->
  nonneg_class (SFmul prec emax x (S754_finite false mc ec)) = true.
Proof.
  intros Hx Vx Vc.
  destruct (SFmul_nonneg_finite x mc ec Hx Vx Vc) as [[_ ->]|[_ [s ->]]].
  - apply round_spec_class.
  - reflexivity.
Qed.

Lemma Pos_iter_xO m d : Z.pos (Pos.iter xO m d) = Z.pos m * 2 ^ Z.pos d.
Proof.
  change (Pos.iter xO m d) with (shift_pos d m).
  rewrite shift_pos_correct, Z.mul_comm. reflexivity.
Qed.

Lemma shl_align_fst m e e' :
  e' <= e -> Z.pos (fst (shl_align m e e')) = Z.pos m * 2 ^ (e - e').
Proof.
  intros He. unfold shl_align.
  destruct (e' - e) as [|d|d] eqn:Ed; try lia.
  - replace (e - e') with 0 by lia. simpl fst. lia.
  - simpl fst. rewrite Pos_iter_xO. f_equal. f_equal. lia.
Qed.

Lemma shl_align_none m e e' : e <= e' -> shl_align m e e' = (m, e).
Proof.
  intros He. unfold shl_align. destruct (e' - e) eqn:Ed; try reflexivity. lia.
Qed.

Lemma binary_normalize_pos m e :
  0 < m -> e <= fexp prec emax (Zdigits2 m + e) ->
  binary_normalize prec emax m e false = round_spec false m e.
Proof.
  intros Hm Hk. destruct m as [|p|p]; try lia.
  unfold binary_normalize, binary_round.
  change (Z.pos (digits2_pos p)) with (Zdigits2 (Z.pos p)).
  rewrite shl_align_none by assumption.
  now apply binary_round_aux_exact.
Qed.

Lemma SFadd_finite mx ex my ey :
  valid_binary (S754_finite false mx ex) = true ->
  valid_binary (S754_finite false my ey) = true ->
  SFadd prec emax (S754_finite false mx ex) (S754_finite false my ey)
  = round_spec false
      (SFval (S754_finite false mx ex) + SFval (S754_finite false my ey))
      (-1074).
Proof.
  intros Vx Vy.
  destruct (valid_finite false mx ex Vx) as (Hex & Hdx & Hcx).
  destruct (valid_finite false my ey Vy) as (Hey & Hdy & Hcy).
  unfold SFadd. cbn [cond_Zopp].
  set (ez := Z.min ex ey).
  rewrite !shl_align_fst by lia.
  set (M := Z.pos mx * 2 ^ (ex - ez) + Z.pos my * 2 ^ (ey - ez)).
  assert (Hpx : 0 < 2 ^ (ex - ez)) by (apply Z.pow_pos_nonneg; lia).
  assert (Hpy : 0 < 2 ^ (ey - ez)) by (apply Z.pow_pos_nonneg; lia).
  assert (HM : 0 < M) by (unfold M; nia).
  assert (Hk : ez <= fexp prec emax (Zdigits2 M + ez)).
  { destruct (Z.le_ge_cases ex ey) as [Hle|Hge].
    - pose proof (Zdigits2_mono (Z.pos my * 2 ^ (ey - ez)) M
                    ltac:(nia) ltac:(unfold M; nia)) as Hd.
      rewrite Zdigits2_mul_pow in Hd by lia.
      rewrite fexp_eq. lia.
    - pose proof (Zdigits2_mono (Z.pos mx * 2 ^ (ex - ez)) M
                    ltac:(nia) ltac:(unfold M; nia)) as Hd.
      rewrite Zdigits2_mul_pow in Hd by lia.
      rewrite fexp_eq. lia. }
  rewrite binary_normalize_pos by assumption.
  rewrite <- (round_spec_shift false M ez (ez + 1074)) by (try assumption; lia).
  f_equal; [|lia].
  unfold M, SFval. rewrite Z.mul_add_distr_r, <- !Z.mul_assoc.
  rewrite <- !Z.pow_add_r by lia.
  f_equal; f_equal; f_equal; lia.
Qed.

Lemma SFadd_nonneg_finite x y :
  nonneg_finite x = true -> nonneg_finite y = true ->
  valid_binary x = true -> valid_binary y = true ->
  (0 < SFval x + SFval y /\
   SFadd prec emax x y = round_spec false (SFval x + SFval y) (-1074))
  \/ (SFval x + SFval y = 0 /\ exists s, SFadd prec emax x y = S754_zero s).
Proof.
  intros Hx Hy Vx Vy.
  destruct x as [sx|sx| |[|] mx ex]; try discriminate Hx;
    destruct y as [sy|sy| |[|] my ey]; try discriminate Hy.
  - right. split; [reflexivity|]. destruct sx, sy; eexists; reflexivity.
  - left. destruct (valid_finite false my ey Vy) as (Hey & _).
    pose proof (SFval_finite_pos false my ey ltac:(lia)) as Hp.
    change (SFval (S754_zero sx)) with 0. rewrite Z.add_0_l.
    split; [assumption|].
    rewrite round_spec_val by (try assumption; reflexivity). reflexivity.
  - left. destruct (valid_finite false mx ex Vx) as (Hex & _).
    pose proof (SFval_finite_pos false mx ex ltac:(lia)) as Hp.
    change (SFval (S754_zero sy)) with 0. rewrite Z.add_0_r.
    split; [assumption|].
    rewrite round_spec_val by (try assumption; reflexivity). reflexivity.
  - left. destruct (valid_finite false mx ex Vx) as (Hex & _).
    destruct (valid_finite false my ey Vy) as (Hey & _).
    pose proof (SFval_finite_pos false mx ex ltac:(lia)).
    pose proof (SFval_finite_pos false my ey ltac:(lia)).
    split; [lia|]. now apply SFadd_finite.
Qed.

(** Addition of non-negative numbers is monotone in both arguments. *)
Theorem SFadd_mono x y x' y' :
  nonneg_finite x = true -> nonneg_finite y = true ->
  nonneg_finite x' = true -> nonneg_finite y' = true ->
  valid_binary x = true -> valid_binary y = true ->
  valid_binary x' = true -> valid_binary y' = true ->
  SFleb x x' = true -> SFleb y y' = true ->
  SFleb (SFadd prec emax x y) (SFadd prec emax x' y') = true.
Proof.
  intros Hx Hy Hx' Hy' Vx Vy Vx' Vy' Lx Ly.
  pose proof (SFleb_val x x' Hx Hx' Vx Vx' Lx).
  pose proof (SFleb_val y y' Hy Hy' Vy Vy' Ly).
  destruct (SFadd_nonneg_finite x y Hx Hy Vx Vy) as [[Hp ->]|[Hz [s ->]]];
    destruct (SFadd_nonneg_finite x' y' Hx' Hy' Vx' Vy')
      as [[Hp' ->]|[Hz' [s' ->]]].
  - apply round_spec_mono_scaled; lia.
  - lia.
  - apply SFleb_zero_l, round_spec_class.
  - reflexivity.
Qed.

Lemma SFadd_class x y :
  nonneg_finite x = true -> nonneg_finite y = true ->
  valid_binary x = true -> valid_binary y = true ->
  nonneg_class (SFadd prec emax x y) = true.
Proof.
  intros Hx Hy Vx Vy.
  destruct (SFadd_nonneg_finite x y Hx Hy Vx Vy) as [[_ ->]|[_ [s ->]]].
  - apply round_spec_class.
  - reflexivity.
Qed.

(** A number of the non-negative class below a finite one is finite. *)
Lemma nonneg_class_bounded x y :
  nonneg_class x = true -> nonneg_finite y = true ->
  SFleb x y = true -> nonneg_finite x = true.
Proof.
  destruct x as [?|[|]| |[|] ? ?]; destruct y as [?|[|]| |[|] ? ?];
    simpl; intros; try discriminate; reflexivity.
Qed.

Lemma loc_code_range l : 0 <= loc_code l <= 3.
Proof. destruct l as [|[| |]]; simpl; lia. Qed.

Lemma shr_record_of_loc_shifted m l :
  0 <= m -> shr_record_of_loc m l = shifted (4 * m + loc_code l) 2.
Proof.
  intros Hm. unfold shifted.
  change (0 <? 2) with true. cbn [andb]. change (2 - 1) with 1.
  change (2 ^ 2) with 4. change (2 ^ 1) with 2.
  pose proof (loc_code_range l) as Hc.
  assert (E4 : (4 * m + loc_code l) / 4 = m)
    by (symmetry; apply (Z.div_unique _ 4 m (loc_code l)); lia).
  rewrite E4.
  destruct l as [|[| |]]; cbn [loc_code shr_record_of_loc].
  - replace ((4 * m + 0) / 2) with (2 * m)
      by (apply (Z.div_unique _ 2 (2 * m) 0); lia).
    replace ((4 * m + 0) mod 2) with 0
      by (apply (Z.mod_unique _ 2 (2 * m) 0); lia).
    rewrite Z.odd_mul. reflexivity.
  - replace ((4 * m + 2) / 2) with (2 * m + 1)
      by (apply (Z.div_unique _ 2 (2 * m + 1) 0); lia).
    replace ((4 * m + 2) mod 2) with 0
      by (apply (Z.mod_unique _ 2 (2 * m + 1) 0); lia).
    rewrite Z.add_comm, Z.odd_add_mul_2. reflexivity.
  - replace ((4 * m + 1) / 2) with (2 * m)
      by (apply (Z.div_unique _ 2 (2 * m) 1); lia).
    replace ((4 * m + 1) mod 2) with 1
      by (apply (Z.mod_unique _ 2 (2 * m) 1); lia).
    rewrite Z.odd_mul. reflexivity.
  - replace ((4 * m + 3) / 2) with (2 * m + 1)
      by (apply (Z.div_unique _ 2 (2 * m + 1) 1); lia).
    replace ((4 * m + 3) mod 2) with 1
      by (apply (Z.mod_unique _ 2 (2 * m + 1) 1); lia).
    rewrite Z.add_comm, Z.odd_add_mul_2. reflexivity.
Qed.

Lemma iter_shr_1_shifted m j (n : nat) :
  0 <= m -> 0 <= j ->
  Nat.iter n shr_1 (shifted m j) = shifted m (j + Z.of_nat n).
Proof.
  intros Hm Hj. induction n as [|n IH].
  - simpl. now rewrite Z.add_0_r.
  - rewrite Nat2Z.inj_succ. simpl. rewrite IH, shifted_succ by lia.
    f_equal. lia.
Qed.

Lemma shr_shifted m j e n :
  0 <= m -> 0 <= j -> 0 <= n ->
  shr (shifted m j) e n = (shifted m (j + n), e + n).
Proof.
  intros Hm Hj Hn. destruct n as [|p|p]; try lia.
  - unfold shr. now rewrite !Z.add_0_r.
  - unfold shr. rewrite iter_pos_nat, iter_shr_1_shifted by assumption.
    now rewrite positive_nat_Z.
Qed.

(** The second half of [binary_round_aux]: the rounded mantissa is put
    back in the format. *)
Lemma binary_round_aux_finish s N E :
  0 <= N <= 2 ^ 53 -> -1074 <= E ->
  (let '(mrs, e) := shr_fexp prec emax N E loc_Exact in
   match shr_m mrs with
   | 0 => S754_zero s
   | Z.pos m =>
       if e <=? emax - prec then S754_finite s m e else S754_infinity s
   | Z.neg _ => S754_nan
   end)
  = if N =? 0 then S754_zero s
    else if N =? 2 ^ 53 then
      if E + 1 <=? 971 then S754_finite s (2 ^ 52)%positive (E + 1)
      else S754_infinity s
    else if E <=? 971 then S754_finite s (Z.to_pos N) E
    else S754_infinity s.
Proof.
  intros HN HE.
  destruct (Z.eqb_spec N 0) as [HNz|HNz].
  - rewrite HNz. rewrite shr_fexp_none by (simpl; rewrite fexp_eq; lia).
    reflexivity.
  - destruct (Z.eqb_spec N (2 ^ 53)) as [HNc|HNc].
    + rewrite HNc.
      assert (HE1 : fexp prec emax (Zdigits2 (2 ^ 53) + E) = E + 1)
        by (change (Zdigits2 (2 ^ 53)) with 54; rewrite fexp_eq; lia).
      rewrite shr_fexp_exact by lia. rewrite HE1.
      replace (E + 1 - E) with 1 by lia.
      unfold shifted. cbn [shr_m].
      change (2 ^ 53 / 2 ^ 1) with (Z.pos (2 ^ 52)).
      cbv iota. reflexivity.
    + assert (HdN : Zdigits2 N <= 53).
      { pose proof (Zdigits2_bounds N ltac:(lia)) as [Hlo _].
        destruct (Z_le_gt_dec (Zdigits2 N) 53) as [|Hgt]; [assumption|].
        assert (2 ^ 53 <= 2 ^ (Zdigits2 N - 1))
          by (apply Z.pow_le_mono_r; lia).
        lia. }
      rewrite shr_fexp_none by (rewrite fexp_eq; lia).
      cbn [shr_m].
      destruct N as [|p|p]; try lia. reflexivity.
Qed.

Lemma Zdigits2_code m c :
  0 < m -> 0 <= c <= 3 -> Zdigits2 (4 * m + c) = Zdigits2 m + 2.
Proof.
  intros Hm Hc.
  pose proof (Zdigits2_bounds m Hm) as [Hlo Hhi].
  pose proof (Zdigits2_pos m Hm) as Hd.
  apply Zdigits2_unique; [lia|].
  replace (Zdigits2 m + 2 - 1) with (Zdigits2 m - 1 + 2) by lia.
  rewrite !Z.pow_add_r by lia. change (2 ^ 2) with 4. lia.
Qed.

Lemma shr_fexp_loc m e l :
  0 <= m -> e <= fexp prec emax (Zdigits2 m + e) ->
  shr_fexp prec emax m e l
  = (shifted (4 * m + loc_code l)
       (2 + (fexp prec emax (Zdigits2 m + e) - e)),
     fexp prec emax (Zdigits2 m + e)).
Proof.
  intros Hm Hk. unfold shr_fexp.
  pose proof (loc_code_range l).
  rewrite shr_record_of_loc_shifted by assumption.
  rewrite shr_shifted by lia. f_equal. lia.
Qed.

(** A mantissa with a location rounds as the mantissa with two more
    bits. *)
Theorem binary_round_aux_loc s m e l :
  0 <= m -> 0 < 4 * m + loc_code l ->
  e <= fexp prec emax (Zdigits2 m + e) ->
  fexp prec emax (Zdigits2 (4 * m + loc_code l) + (e - 2))
  = fexp prec emax (Zdigits2 m + e) ->
  binary_round_aux prec emax s m e l
  = round_spec s (4 * m + loc_code l) (e - 2).
Proof.
  intros Hm HM Hk HE.
  pose proof (rne_le_pow53 (4 * m + loc_code l) (e - 2) HM
                ltac:(rewrite HE; lia)) as HN53.
  unfold binary_round_aux, round_spec. cbv zeta. rewrite HE in *.
  set (E := fexp prec emax (Zdigits2 m + e)) in *.
  assert (HEmin : -1074 <= E) by (unfold E; rewrite fexp_eq; lia).
  rewrite shr_fexp_loc by assumption. fold E.
  replace (2 + (E - e)) with (E - (e - 2)) by lia.
  rewrite rne_shifted by lia.
  pose proof (rne_nonneg (4 * m + loc_code l) (E - (e - 2))
                ltac:(lia) ltac:(lia)) as HN0.
  apply binary_round_aux_finish; lia.
Qed.

Lemma new_location_code b r : loc_code (new_location b r) = 0 <-> r = 0.
Proof.
  unfold new_location, new_location_even, new_location_odd.
  destruct (Z.even b); destruct (Z.eqb_spec r 0) as [Hr|Hr]; simpl;
    try tauto;
    (split; [|tauto]);
    repeat match goal with
           | |- context [match ?c with Eq => _ | Lt => _ | Gt => _ end] =>
               destruct c
           end; simpl; lia.
Qed.

Lemma div_eucl_div_mod a b : Z.div_eucl a b = (a / b, a mod b).
Proof. unfold Z.div, Z.modulo. now destruct (Z.div_eucl a b). Qed.

(** The integer division that prepares the quotient of two integers. *)
Lemma SFdiv_core_binary_int a b :
  0 < a -> 0 < b ->
  SFdiv_core_binary prec emax a 0 b 0
  = let e' := Z.min (fexp prec emax (Zdigits2 a - Zdigits2 b)) 0 in
    (a * 2 ^ (- e') / b, e', new_location b ((a * 2 ^ (- e')) mod b)).
Proof.
  intros Ha Hb. unfold SFdiv_core_binary. cbv zeta.
  rewrite !Z.add_0_r. change (0 - 0) with 0.
  set (e' := Z.min (fexp prec emax (Zdigits2 a - Zdigits2 b)) 0).
  assert (He : e' <= 0) by (unfold e'; lia).
  replace (0 - e') with (- e') by lia.
  assert (Hm : match - e' with
               | 0 => a
               | Z.pos _ => Z.shiftl a (- e')
               | Z.neg _ => 0
               end = a * 2 ^ (- e')).
  { destruct (- e') as [|p|p] eqn:Es; try lia.
    - now rewrite Z.shiftl_mul_pow2 by lia. }
  rewrite Hm, div_eucl_div_mod. reflexivity.
Qed.

Lemma Zdigits2_small c : 1 <= c <= 3 -> Zdigits2 c <= 2.
Proof.
  intros Hc.
  assert (Hcases : c = 1 \/ c = 2 \/ c = 3) by lia.
  destruct Hcases as [Hc1|[Hc1|Hc1]]; rewrite Hc1; simpl; lia.
Qed.

(** The quotient of two positive integers, rounded: it is the rounding of
    a value that lies on the same side of every positive integer [K] as the
    exact quotient. *)
Theorem int_quotient_round s a b :
  0 < a -> 0 < b ->
  exists W,
    0 < W /\
    (let '(q, e', l) := SFdiv_core_binary prec emax a 0 b 0 in
     binary_round_aux prec emax s q e' l) = round_spec s W (-1076) /\
    (forall K, 0 < K -> a <= K * b -> W <= K * 2 ^ 1076) /\
    (forall K, 0 < K -> K * b <= a -> K * 2 ^ 1076 <= W).
Proof.
  intros Ha Hb. rewrite SFdiv_core_binary_int by assumption. cbv zeta.
  pose proof (Zdigits2_bounds a Ha) as [Hla Hua].
  pose proof (Zdigits2_bounds b Hb) as [Hlb Hub].
  pose proof (Zdigits2_pos a Ha) as Hda.
  pose proof (Zdigits2_pos b Hb) as Hdb.
  rewrite fexp_eq.
  set (X := Zdigits2 a - Zdigits2 b - 53).
  set (e' := Z.min (Z.max X (-1074)) 0).
  assert (He : -1074 <= e' <= 0) by (unfold e'; lia).
  set (P := 2 ^ (- e')).
  assert (HP : 0 < P) by (apply Z.pow_pos_nonneg; lia).
  pose proof (Z.div_mod (a * P) b ltac:(lia)) as Hdm.
  pose proof (Z.mod_pos_bound (a * P) b Hb) as Hr.
  set (q := a * P / b) in *. set (r := (a * P) mod b) in *.
  assert (Hq0 : 0 <= q) by (unfold q; apply Z.div_pos; nia).
  pose proof (loc_code_range (new_location b r)) as Hc.
  pose proof (new_location_code b r) as Hc0.
  set (c := loc_code (new_location b r)) in *.
  assert (HM : 0 < 4 * q + c).
  { destruct (Z.eq_dec q 0) as [Hz|Hnz]; [|lia].
    assert (r <> 0) by nia. assert (c <> 0) by tauto. lia. }
  assert (Hbig : -1074 < e' -> 2 ^ 52 <= q).
  { intros Hgt. unfold q. apply Z.div_le_lower_bound; [assumption|].
    assert (Hs : Zdigits2 b - Zdigits2 a + 53 <= - e') by (unfold e', X; lia).
    assert (Hpow : 2 ^ (Zdigits2 b + 52)
                   <= 2 ^ (Zdigits2 a - 1) * 2 ^ (- e')).
    { rewrite <- Z.pow_add_r by lia. apply Z.pow_le_mono_r; lia. }
    assert (Hb52 : b * 2 ^ 52 < 2 ^ (Zdigits2 b + 52)).
    { rewrite Z.pow_add_r by lia. nia. }
    fold P in Hpow. nia. }
  assert (Hk : e' <= fexp prec emax (Zdigits2 q + e')).
  { rewrite fexp_eq. destruct (Z.eq_dec e' (-1074)) as [->|Hne]; [lia|].
    pose proof (Zdigits2_mono (2 ^ 52) q ltac:(lia) (Hbig ltac:(lia))) as Hd.
    change (Zdigits2 (2 ^ 52)) with 53 in Hd. lia. }
  assert (HE : fexp prec emax (Zdigits2 (4 * q + c) + (e' - 2))
               = fexp prec emax (Zdigits2 q + e')).
  { destruct (Z.eq_dec q 0) as [Hz|Hnz].
    - assert (e' = -1074).
      { destruct (Z.eq_dec e' (-1074)); [assumption|].
        pose proof (Hbig ltac:(lia)). lia. }
      assert (r <> 0) by nia. assert (c <> 0) by tauto.
      rewrite Hz. change (4 * 0 + c) with c.
      pose proof (Zdigits2_small c ltac:(lia)).
      pose proof (Zdigits2_pos c ltac:(lia)).
      change (Zdigits2 0) with 0. rewrite !fexp_eq. lia.
    - rewrite Zdigits2_code by lia. f_equal. lia. }
  exists ((4 * q + c) * 2 ^ (e' + 1074)).
  assert (HQ : 0 < 2 ^ (e' + 1074)) by (apply Z.pow_pos_nonneg; lia).
  assert (HPQ : P * 2 ^ (e' + 1074) = 2 ^ 1074).
  { unfold P. rewrite <- Z.pow_add_r by lia. f_equal. lia. }
  change (2 ^ 1076) with (4 * 2 ^ 1074).
  split; [nia|]. split; [|split].
  - rewrite binary_round_aux_loc by assumption. fold c.
    rewrite <- (round_spec_shift s (4 * q + c) (e' - 2) (e' + 1074)).
    + f_equal. lia.
    + assumption.
    + lia.
    + rewrite HE. lia.
  - intros K HK Hab. rewrite <- HPQ.
    assert (4 * q + c <= 4 * (K * P)); [|nia].
    assert (HqK : b * q + r <= b * (K * P)) by nia.
    destruct (Z.eq_dec r 0) as [Hz|Hnz].
    + assert (c = 0) by tauto. assert (q <= K * P) by nia. lia.
    + assert (q < K * P) by nia. lia.
  - intros K HK Hba. rewrite <- HPQ.
    assert (HqK : b * (K * P) <= b * q + r) by nia.
    assert (K * P <= q) by nia. nia.
Qed.

Lemma round_spec_valid s m e :
  0 < m -> e <= fexp prec emax (Zdigits2 m + e) ->
  valid_binary (round_spec s m e) = true.
Proof.
  intros Hm Hk.
  pose proof (rne_le_pow53 m e Hm Hk) as Hu.
  pose proof (rne_nonneg m (fexp prec emax (Zdigits2 m + e) - e)
                ltac:(lia) ltac:(lia)) as Hn.
  pose proof (fun H => rne_ge_pow52 m e Hm H Hk) as Hl.
  unfold round_spec. cbv zeta.
  set (E := fexp prec emax (Zdigits2 m + e)) in *.
  assert (HEmin : -1074 <= E) by (unfold E; rewrite fexp_eq; lia).
  set (N := rne m (E - e)) in *.
  destruct (Z.eqb_spec N 0); [reflexivity|].
  destruct (Z.eqb_spec N (2 ^ 53)).
  - destruct (Z.leb_spec (E + 1) 971); [|reflexivity].
    unfold SpecFloat.valid_binary, bounded, canonical_mantissa.
    change (Z.pos (digits2_pos (2 ^ 52))) with 53.
    apply andb_true_iff. split.
    + apply Z.eqb_eq. rewrite fexp_eq. lia.
    + apply Z.leb_le. change (emax - prec) with 971. lia.
  - destruct (Z.leb_spec E 971); [|reflexivity].
    unfold SpecFloat.valid_binary, bounded, canonical_mantissa.
    change (Z.pos (digits2_pos (Z.to_pos N)))
      with (Zdigits2 (Z.pos (Z.to_pos N))).
    rewrite Z2Pos.id by lia.
    assert (HdN : Zdigits2 N <= 53).
    { pose proof (Zdigits2_bounds N ltac:(lia)) as [Hlo _].
      destruct (Z_le_gt_dec (Zdigits2 N) 53) as [|Hgt]; [assumption|].
      assert (2 ^ 53 <= 2 ^ (Zdigits2 N - 1))
        by (apply Z.pow_le_mono_r; lia).
      lia. }
    assert (HdN' : -1074 < E -> 53 <= Zdigits2 N).
    { intros HE. pose proof (Hl HE) as H52.
      pose proof (Zdigits2_mono (2 ^ 52) N ltac:(lia) H52) as Hd.
      exact Hd. }
    apply andb_true_iff. split.
    + apply Z.eqb_eq. rewrite fexp_eq.
      destruct (Z.eq_dec E (-1074)); [lia|].
      pose proof (HdN' ltac:(lia)). lia.
    + apply Z.leb_le. change (emax - prec) with 971. lia.
Qed.

(** The comparison of two non-negative numbers is total. *)
Lemma SFltb_false_SFleb x y :
  nonneg_class x = true -> nonneg_class y = true ->
  SFltb x y = false -> SFleb y x = true.
Proof.
  destruct x as [?|[|]| |[|] mx ex]; destruct y as [?|[|]| |[|] my ey];
    simpl; intros Hx Hy H; try discriminate; try reflexivity.
  unfold SFltb, SFleb, SFcompare in *.
  rewrite (Z.compare_antisym ex ey).
  destruct (ex ?= ey) eqn:Ee; simpl in *; try discriminate; try reflexivity.
  change (Pos.compare_cont Eq my mx) with (my ?= mx)%positive.
  change (Pos.compare_cont Eq mx my) with (mx ?= my)%positive in H.
  rewrite (Pos.compare_antisym mx my).
  destruct (mx ?= my)%positive; simpl in *; try discriminate; reflexivity.
Qed.

Lemma SFleb_refl x : nonneg_class x = true -> SFleb x x = true.
Proof.
  destruct x as [?|[|]| |[|] mx ex]; simpl; intros H; try discriminate;
    try reflexivity.
  unfold SFleb, SFcompare. rewrite Z.compare_refl.
  change (Pos.compare_cont Eq mx mx) with (mx ?= mx)%positive.
  now rewrite Pos.compare_refl.
Qed.

Example Prim2SF_one : Prim2SF 1 = S754_finite false (2 ^ 52) (-52).
Proof. reflexivity. Qed.

Example Prim2SF_zero : Prim2SF 0 = S754_zero false.
Proof. reflexivity. Qed.

Example round_spec_one :
  round_spec false (2 ^ 1076) (-1076) = S754_finite false (2 ^ 52) (-52).
Proof. vm_compute. reflexivity. Qed.

(** ** Python floats *)

Lemma leb_zero_class x :
  PrimFloat.leb 0 x = true -> nonneg_class (Prim2SF x) = true.
Proof.
  rewrite leb_spec. change (Prim2SF 0) with (S754_zero false).
  destruct (Prim2SF x) as [?|[|]| |[|] ? ?]; simpl; intros H;
    try discriminate; reflexivity.
Qed.

Lemma leb_bounded_finite x y :
  nonneg_class (Prim2SF x) = true -> nonneg_finite (Prim2SF y) = true ->
  PrimFloat.leb x y = true -> nonneg_finite (Prim2SF x) = true.
Proof.
  rewrite leb_spec. intros Hx Hy H. exact (nonneg_class_bounded _ _ Hx Hy H).
Qed.

Lemma float_mul_mono x y c mc ec :
  Prim2SF c = S754_finite false mc ec ->
  nonneg_finite (Prim2SF x) = true -> nonneg_finite (Prim2SF y) = true ->
  PrimFloat.leb x y = true ->
  PrimFloat.leb (x * c) (y * c) = true.
Proof.
  intros Hc Hx Hy. rewrite !leb_spec, !mul_spec, Hc. unfold SF64mul.
  intros Hle. apply SFmul_mono; try assumption; try apply Prim2SF_valid.
  rewrite <- Hc. apply Prim2SF_valid.
Qed.

Lemma float_mul_class x c mc ec :
  Prim2SF c = S754_finite false mc ec ->
  nonneg_finite (Prim2SF x) = true ->
  nonneg_class (Prim2SF (x * c)) = true.
Proof.
  intros Hc Hx. rewrite mul_spec, Hc. unfold SF64mul.
  apply SFmul_class; try assumption; try apply Prim2SF_valid.
  rewrite <- Hc. apply Prim2SF_valid.
Qed.

Lemma float_add_mono x y x' y' :
  nonneg_finite (Prim2SF x) = true -> nonneg_finite (Prim2SF y) = true ->
  nonneg_finite (Prim2SF x') = true -> nonneg_finite (Prim2SF y') = true ->
  PrimFloat.leb x x' = true -> PrimFloat.leb y y' = true ->
  PrimFloat.leb (x + y) (x' + y') = true.
Proof.
  intros Hx Hy Hx' Hy'. rewrite !leb_spec, !add_spec. unfold SF64add.
  intros H1 H2. apply SFadd_mono; try assumption; apply Prim2SF_valid.
Qed.

Lemma float_add_class x y :
  nonneg_finite (Prim2SF x) = true -> nonneg_finite (Prim2SF y) = true ->
  nonneg_class (Prim2SF (x + y)) = true.
Proof.
  intros Hx Hy. rewrite add_spec. unfold SF64add.
  apply SFadd_class; try assumption; apply Prim2SF_valid.
Qed.

Lemma in_unit_finite x :
  PrimFloat.leb 0 x = true -> PrimFloat.leb x 1 = true ->
  nonneg_finite (Prim2SF x) = true.
Proof.
  intros H0 H1. apply (leb_bounded_finite x 1); try assumption.
  - now apply leb_zero_class.
  - reflexivity.
Qed.

Lemma class_leb_zero x :
  nonneg_class (Prim2SF x) = true -> PrimFloat.leb 0 x = true.
Proof.
  intros H. rewrite leb_spec. change (Prim2SF 0) with (S754_zero false).
  now apply SFleb_zero_l.
Qed.

(** A sub-score in [0, 1] weighted by a positive constant [c]: the term
    lies between [0 * c] and [1 * c] and is finite. *)
Lemma weighted_term x c mc ec :
  Prim2SF c = S754_finite false mc ec ->
  PrimFloat.leb 0 x = true -> PrimFloat.leb x 1 = true ->
  PrimFloat.leb (x * c) (1 * c) = true /\
  nonneg_class (Prim2SF (x * c)) = true.
Proof.
  intros Hc H0 H1.
  pose proof (in_unit_finite x H0 H1) as Hx.
  split.
  - apply (float_mul_mono x 1 c mc ec); try assumption. reflexivity.
  - now apply (float_mul_class x c mc ec).
Qed.

Theorem four_factor_bounds similarity keyword experience :
  PrimFloat.leb 0 similarity = true -> PrimFloat.leb similarity 1 = true ->
  PrimFloat.leb 0 keyword = true -> PrimFloat.leb keyword 1 = true ->
  PrimFloat.leb 0 experience = true -> PrimFloat.leb experience 1 = true ->
  PrimFloat.leb 0.105 (four_factor similarity keyword experience 0.7) = true
  /\ PrimFloat.leb (four_factor similarity keyword experience 0.7) 0.955
     = true.
Proof.
  intros Hs0 Hs1 Hk0 Hk1 He0 He1. unfold four_factor.
  destruct (weighted_term similarity 0.40 _ _ eq_refl Hs0 Hs1) as [U1 C1].
  destruct (weighted_term keyword 0.30 _ _ eq_refl Hk0 Hk1) as [U2 C2].
  destruct (weighted_term experience 0.15 _ _ eq_refl He0 He1) as [U3 C3].
  set (a1 := (similarity * 0.40)%float) in *.
  set (a2 := (keyword * 0.30)%float) in *.
  set (a3 := (experience * 0.15)%float) in *.
  assert (F1 : nonneg_finite (Prim2SF a1) = true)
    by (apply (leb_bounded_finite a1 (1 * 0.40)%float); auto).
  assert (F2 : nonneg_finite (Prim2SF a2) = true)
    by (apply (leb_bounded_finite a2 (1 * 0.30)%float); auto).
  assert (F3 : nonneg_finite (Prim2SF a3) = true)
    by (apply (leb_bounded_finite a3 (1 * 0.15)%float); auto).
  assert (S1 : PrimFloat.leb (a1 + a2) (1 * 0.40 + 1 * 0.30) = true)
    by (apply float_add_mono; auto).
  assert (G1 : nonneg_finite (Prim2SF (a1 + a2)) = true).
  { apply (leb_bounded_finite _ (1 * 0.40 + 1 * 0.30)%float); auto.
    now apply float_add_class. }
  assert (S2 : PrimFloat.leb (a1 + a2 + a3)
                 (1 * 0.40 + 1 * 0.30 + 1 * 0.15) = true)
    by (apply float_add_mono; auto).
  assert (G2 : nonneg_finite (Prim2SF (a1 + a2 + a3)) = true).
  { apply (leb_bounded_finite _ (1 * 0.40 + 1 * 0.30 + 1 * 0.15)%float); auto.
    now apply float_add_class. }
  split.
  - change 0.105%float with (0 + 0.7 * 0.15)%float.
    apply float_add_mono; auto.
    apply class_leb_zero. now apply nonneg_finite_class.
  - change 0.955%float
      with (1 * 0.40 + 1 * 0.30 + 1 * 0.15 + 0.7 * 0.15)%float.
    apply float_add_mono; auto.
Qed.

(** ** The loop of [match_cv_to_jobs] *)

Section LoopFacts.

Import SemanticJobMatcher.

Variable get_embedding : string -> option (list float).
Variable format_percent : float -> string.

Abbreviation fill := (fill_embedding get_embedding).
Abbreviation score := (score_job format_percent).

Lemma fill_embedding_idem job : fill (fill job) = fill job.
Proof.
  unfold fill_embedding.
  destruct (truthy (JobPosting.embedding job)) eqn:E.
  - now rewrite E.
  - destruct job; simpl in *.
    destruct (truthy (get_embedding _)) eqn:E'; reflexivity.
Qed.

Lemma score_job_now cv sk yrs id job now now' :
  score cv sk yrs id job now' =
  result_map (option_map (fun m =>
    EmbeddingMatch.mk
      (EmbeddingMatch.job_id m) (EmbeddingMatch.job_title m)
      (EmbeddingMatch.company m) (EmbeddingMatch.embedding_similarity m)
      (EmbeddingMatch.keyword_match_score m)
      (EmbeddingMatch.experience_match m)
      (EmbeddingMatch.education_match m) (EmbeddingMatch.overall_score m)
      (EmbeddingMatch.matched_skills m) (EmbeddingMatch.missing_skills m)
      (EmbeddingMatch.analysis m) now'))
    (score cv sk yrs id job now).
Proof.
  unfold score_job.
  destruct (truthy (JobPosting.embedding job)); [|reflexivity].
  destruct (_cosine_similarity _ _); [|reflexivity]. simpl.
  destruct (_calculate_keyword_match _ _ _) as [[[k m] mi]|]; [|reflexivity].
  simpl.
  destruct (_calculate_experience_match _ _); reflexivity.
Qed.

Lemma score_job_untimed cv sk yrs id job now now' :
  result_map (option_map untimed) (score cv sk yrs id job now) =
  result_map (option_map untimed) (score cv sk yrs id job now').
Proof.
  rewrite (score_job_now cv sk yrs id job now now').
  destruct (score cv sk yrs id job now) as [[m|]|]; reflexivity.
Qed.

Lemma score_job_scored cv sk yrs id job now m :
  score cv sk yrs id job now = Ok (Some m) ->
  truthy (JobPosting.embedding job) = true.
Proof.
  unfold score_job. destruct (truthy _); [reflexivity|discriminate].
Qed.

Lemma score_job_unscored cv sk yrs id job now :
  truthy (JobPosting.embedding job) = false ->
  score cv sk yrs id job now = Ok None.
Proof. unfold score_job. now intros ->. Qed.

Variable clock : nat -> string.

Abbreviation loop := (match_loop get_embedding clock format_percent).

Lemma same_filled_refl items : Forall2 (same_filled get_embedding) items items.
Proof. induction items; constructor; [split; reflexivity | assumption]. Qed.

Lemma match_loop_cache cv sk yrs items matches t :
  Forall2 (same_filled get_embedding) items (fst (fst (loop cv sk yrs items matches t))).
Proof.
  revert matches t.
  induction items as [|[id job] rest IH]; intros matches t; simpl.
  - constructor.
  - destruct (score cv sk yrs id (fill job) (clock t)) as [[m|]|e].
    + specialize (IH (matches ++ [m]) (S t)).
      destruct (loop cv sk yrs rest (matches ++ [m]) (S t)) as [[c t'] r].
      simpl in *. constructor; [|assumption].
      split; [reflexivity|]. simpl. now rewrite fill_embedding_idem.
    + specialize (IH matches t).
      destruct (loop cv sk yrs rest matches t) as [[c t'] r].
      simpl in *. constructor; [|assumption].
      split; [reflexivity|]. simpl. now rewrite fill_embedding_idem.
    + simpl. constructor; [|apply same_filled_refl].
      split; [reflexivity|]. simpl. now rewrite fill_embedding_idem.
Qed.

(** The scored postings, in cache order, and the records made for them. *)
Lemma match_loop_ok cv sk yrs items matches t cache' t' ms :
  loop cv sk yrs items matches t = (cache', t', Ok ms) ->
  cache' = List.map (fun it => (fst it, fill (snd it))) items /\
  exists new,
    ms = matches ++ new /\
    Forall2 (fun it m =>
               exists now,
                 score cv sk yrs (fst it) (fill (snd it)) now = Ok (Some m))
            (List.filter (scored get_embedding) items) new.
Proof.
  revert matches t cache' t' ms.
  induction items as [|[id job] rest IH]; intros matches t cache' t' ms; simpl.
  - intros [= <- <- <-]. split; [reflexivity|].
    exists []. rewrite app_nil_r. split; [reflexivity|constructor].
  - destruct (score cv sk yrs id (fill job) (clock t)) as [[m|]|e] eqn:Es.
    + destruct (loop cv sk yrs rest (matches ++ [m]) (S t))
        as [[c t1] r] eqn:El.
      intros [= <- <- ->].
      destruct (IH _ _ _ _ _ El) as [-> (new & -> & HF)].
      split; [reflexivity|].
      exists (m :: new). rewrite <- app_assoc. split; [reflexivity|].
      unfold scored at 1. simpl.
      rewrite (score_job_scored _ _ _ _ _ _ _ Es).
      constructor; [|assumption]. exists (clock t). exact Es.
    + destruct (loop cv sk yrs rest matches t) as [[c t1] r] eqn:El.
      intros [= <- <- ->].
      destruct (IH _ _ _ _ _ El) as [-> (new & -> & HF)].
      split; [reflexivity|].
      exists new. split; [reflexivity|].
      unfold scored at 1. simpl.
      destruct (truthy (JobPosting.embedding (fill job))) eqn:Et;
        [|assumption].
      unfold score_job in Es. rewrite Et in Es.
      destruct (_cosine_similarity _ _); [|discriminate]. simpl in Es.
      destruct (_calculate_keyword_match _ _ _) as [[[k mm] mi]|];
        [|discriminate]. simpl in Es.
      destruct (_calculate_experience_match _ _); discriminate.
    + intros [= _ _ ?]; discriminate.
Qed.

(** When no scoring step raises, the loop ends normally. *)
Lemma match_loop_total cv sk yrs items matches t :
  Forall (fun it => forall now,
            exists r, score cv sk yrs (fst it) (fill (snd it)) now = Ok r)
         items ->
  exists cache' t' ms, loop cv sk yrs items matches t = (cache', t', Ok ms).
Proof.
  intros HF. revert matches t.
  induction HF as [|[id job] rest Hx HF IH]; intros matches t; simpl.
  - eauto.
  - destruct (Hx (clock t)) as [[m|] Hr]; simpl in Hr; rewrite Hr.
    + destruct (IH (matches ++ [m]) (S t)) as (c & t1 & ms & ->). eauto.
    + destruct (IH matches t) as (c & t1 & ms & ->). eauto.
Qed.

End LoopFacts.

(** The clock only reaches the [timestamp] fields: two runs of the loop over
    caches that agree once filled give the same records, timestamps apart. *)
Lemma match_loop_untimed get_embedding format_percent clock1 clock2
  cv sk yrs items items' ms ms' t t' :
  Forall2 (same_filled get_embedding) items items' ->
  List.map untimed ms = List.map untimed ms' ->
  result_map (List.map untimed)
    (snd (SemanticJobMatcher.match_loop get_embedding clock1 format_percent
            cv sk yrs items ms t)) =
  result_map (List.map untimed)
    (snd (SemanticJobMatcher.match_loop get_embedding clock2 format_percent
            cv sk yrs items' ms' t')).
Proof.
  intros HF. revert ms ms' t t'.
  induction HF as [|[id job] [id' job'] rest rest' [Hid Hfill] HF IH];
    intros ms ms' t t' Hms; simpl in *.
  - now rewrite Hms.
  - subst id'. rewrite <- Hfill.
    pose proof (score_job_untimed format_percent cv sk yrs id
                  (SemanticJobMatcher.fill_embedding get_embedding job)
                  (clock1 t) (clock2 t')) as Hs.
    destruct (SemanticJobMatcher.score_job _ _ _ _ _ _ (clock1 t))
      as [[m|]|e];
      destruct (SemanticJobMatcher.score_job _ _ _ _ _ _ (clock2 t'))
      as [[m'|]|e']; simpl in Hs; try discriminate.
    + apply (f_equal (fun r => match r with
                               | Ok (Some x) => x
                               | _ => untimed m
                               end)) in Hs.
      simpl in Hs.
      specialize (IH (ms ++ [m]) (ms' ++ [m']) (S t) (S t')).
      destruct (SemanticJobMatcher.match_loop _ clock1 _ _ _ _ rest _ _)
        as [[c1 t1] r1].
      destruct (SemanticJobMatcher.match_loop _ clock2 _ _ _ _ rest' _ _)
        as [[c2 t2] r2].
      simpl in *. apply IH.
      rewrite !List.map_app. simpl. now rewrite Hms, Hs.
    + specialize (IH ms ms' t t').
      destruct (SemanticJobMatcher.match_loop _ clock1 _ _ _ _ rest _ _)
        as [[c1 t1] r1].
      destruct (SemanticJobMatcher.match_loop _ clock2 _ _ _ _ rest' _ _)
        as [[c2 t2] r2].
      simpl in *. now apply IH.
    + simpl. now injection Hs as ->.
Qed.

(** ** Sorting *)

Section SortFacts.

Context {A : Type} (key : A -> float).

Lemma insert_reverse_perm x l :
  Permutation (insert_reverse key x l) (x :: l).
Proof.
  induction l as [|y l IH]; simpl.
  - reflexivity.
  - destruct (PrimFloat.ltb (key x) (key y)).
    + rewrite IH. apply perm_swap.
    + reflexivity.
Qed.

Lemma sort_reverse_perm l : Permutation (sort_reverse key l) l.
Proof.
  induction l as [|x l IH]; simpl.
  - reflexivity.
  - rewrite insert_reverse_perm. now constructor.
Qed.

(** Sorting commutes with any relabelling that keeps the keys. *)
Lemma insert_reverse_map {B : Type} (f : A -> B) (key' : B -> float) x l :
  (forall a, key' (f a) = key a) ->
  insert_reverse key' (f x) (List.map f l) =
  List.map f (insert_reverse key x l).
Proof.
  intros Hk. induction l as [|y l IH]; simpl.
  - reflexivity.
  - rewrite !Hk. destruct (PrimFloat.ltb (key x) (key y)); simpl.
    + now rewrite IH.
    + reflexivity.
Qed.

Lemma sort_reverse_map {B : Type} (f : A -> B) (key' : B -> float) l :
  (forall a, key' (f a) = key a) ->
  sort_reverse key' (List.map f l) = List.map f (sort_reverse key l).
Proof.
  intros Hk. induction l as [|x l IH]; simpl.
  - reflexivity.
  - rewrite IH. now apply insert_reverse_map.
Qed.

End SortFacts.

(** ** Postings without embedding (C1) *)

(** C1, as amended.  [match_cv_to_jobs] keeps a posting only under
    [if job.embedding:].  When the embedding of the CV is not available (no
    embedder) it returns the empty list, without raising.  When that
    embedding is available and the call returns normally, the records it
    returns are those of the postings that have an
    embedding once the loop has asked for the missing ones: a posting whose
    embedding could not be obtained is left out, and every record carries the
    embedding sub-score and the four-factor blend with the constant education
    score 0.7. *)
Theorem C1_postings_without_embedding_are_left_out
  (get_embedding : string -> option (list float)) (clock : nat -> string)
  (format_percent : float -> string)
  (cv_text : string) (cv_skills : list string) (cv_experience_years : Z)
  (w : SemanticJobMatcher.World) :
  (truthy (get_embedding cv_text) = false ->
   SemanticJobMatcher.match_cv_to_jobs get_embedding clock format_percent
     cv_text cv_skills cv_experience_years w = (w, Ok [])) /\
  (truthy (get_embedding cv_text) = true ->
   forall w' ms,
     SemanticJobMatcher.match_cv_to_jobs get_embedding clock format_percent
       cv_text cv_skills cv_experience_years w = (w', Ok ms) ->
     Permutation
       (List.map EmbeddingMatch.job_id ms)
       (List.map fst (List.filter (scored get_embedding)
                        (SemanticJobMatcher.jobs_cache w))) /\
     Forall (fun m =>
       EmbeddingMatch.education_match m = 0.7%float /\
       EmbeddingMatch.overall_score m =
         four_factor (EmbeddingMatch.embedding_similarity m)
           (EmbeddingMatch.keyword_match_score m)
           (EmbeddingMatch.experience_match m)
           (EmbeddingMatch.education_match m) /\
       exists job e,
         In (EmbeddingMatch.job_id m, job) (SemanticJobMatcher.jobs_cache w) /\
         JobPosting.embedding
           (SemanticJobMatcher.fill_embedding get_embedding job) = Some e /\
         e <> [] /\
         SemanticJobMatcher._cosine_similarity
           (default [] (get_embedding cv_text)) e =
         Ok (EmbeddingMatch.embedding_similarity m)) ms).
Proof.
  unfold SemanticJobMatcher.match_cv_to_jobs. split.
  - intros ->. reflexivity.
  - intros Ecv w' ms. rewrite Ecv. simpl.
    destruct (SemanticJobMatcher.match_loop _ _ _ _ _ _ _ _ _)
        as [[cache' t'] r] eqn:El.
      destruct r as [unsorted|e]; simpl; [|discriminate].
      intros [= <- <-].
      destruct (match_loop_ok _ _ _ _ _ _ _ _ _ _ _ _ El)
        as [_ (new & Hnew & HF)].
      simpl in Hnew. subst new.
      assert (Hperm := sort_reverse_perm EmbeddingMatch.overall_score unsorted).
      split.
      * rewrite Hperm. clear -HF.
        induction HF as [|[id job] m its ms [now Hs] HF IH]; simpl.
        { reflexivity. }
        rewrite IH. unfold SemanticJobMatcher.score_job in Hs.
        destruct (truthy _); [|discriminate].
        destruct (SemanticJobMatcher._cosine_similarity _ _); [|discriminate].
        simpl in Hs.
        destruct (SemanticJobMatcher._calculate_keyword_match _ _ _)
          as [[[k mm] mi]|]; [|discriminate]. simpl in Hs.
        destruct (SemanticJobMatcher._calculate_experience_match _ _);
          [|discriminate]. simpl in Hs.
        injection Hs as <-. reflexivity.
      * apply (Permutation_Forall (Permutation_sym Hperm)). clear Hperm El.
        assert (Hin : forall it,
                   In it (List.filter (scored get_embedding)
                            (SemanticJobMatcher.jobs_cache w)) ->
                   In it (SemanticJobMatcher.jobs_cache w)).
        { intros it Hit. apply filter_In in Hit. tauto. }
        remember (List.filter (scored get_embedding)
                    (SemanticJobMatcher.jobs_cache w)) as kept eqn:Hkept.
        clear Hkept.
        induction HF as [|[id job] m its ms [now Hs] HF IH]; constructor.
        { unfold SemanticJobMatcher.score_job in Hs. simpl in Hs.
          destruct (JobPosting.embedding
                      (SemanticJobMatcher.fill_embedding get_embedding job))
            as [[|x e]|] eqn:Ee; simpl in Hs; try discriminate.
          destruct (SemanticJobMatcher._cosine_similarity _ _) as [sim|] eqn:Ec;
            [|discriminate]. simpl in Hs.
          destruct (SemanticJobMatcher._calculate_keyword_match _ _ _)
            as [[[k mm] mi]|]; [|discriminate]. simpl in Hs.
          destruct (SemanticJobMatcher._calculate_experience_match _ _);
            [|discriminate]. simpl in Hs.
          injection Hs as <-. simpl.
          split; [reflexivity|]. split; [reflexivity|].
          exists job, (x :: e). split; [apply Hin; now left|].
          split; [exact Ee|]. split; [discriminate|]. exact Ec. }
        apply IH. intros it Hit. apply Hin. now right.
Qed.

(** ** Reproducibility (C3) *)

(** C3, as amended.  With the embedder a function of the text, calling
    [match_cv_to_jobs] twice with the same arguments (the second call on the
    cache the first one leaves, and whatever the clock shows) yields the same
    outcome and the same records in the same order, except for the
    [timestamp] field that every record carries: scores, skills and analysis
    do not depend on the clock. *)
Theorem C3_reproducible_up_to_record_timestamps
  (get_embedding : string -> option (list float))
  (clock1 clock2 : nat -> string) (format_percent : float -> string)
  (cv_text : string) (cv_skills : list string) (cv_experience_years : Z)
  (w : SemanticJobMatcher.World) :
  let first :=
    SemanticJobMatcher.match_cv_to_jobs get_embedding clock1 format_percent
      cv_text cv_skills cv_experience_years w in
  let second :=
    SemanticJobMatcher.match_cv_to_jobs get_embedding clock2 format_percent
      cv_text cv_skills cv_experience_years (fst first) in
  result_map (List.map untimed) (snd first) =
  result_map (List.map untimed) (snd second).
Proof.
  cbv zeta. unfold SemanticJobMatcher.match_cv_to_jobs.
  destruct (truthy (get_embedding cv_text)) eqn:Ecv; simpl; [|reflexivity].
  pose proof (match_loop_cache get_embedding format_percent clock1
                (default [] (get_embedding cv_text)) cv_skills
                cv_experience_years (SemanticJobMatcher.jobs_cache w) []
                (SemanticJobMatcher.ticks w)) as Hc.
  destruct (SemanticJobMatcher.match_loop get_embedding clock1 _ _ _ _ _ _ _)
    as [[c1 t1] r1] eqn:E1.
  simpl in *.
  pose proof (match_loop_untimed get_embedding format_percent clock1 clock2
                (default [] (get_embedding cv_text)) cv_skills
                cv_experience_years _ _ [] [] (SemanticJobMatcher.ticks w) t1
                Hc eq_refl) as Hu.
  rewrite E1 in Hu. simpl in Hu.
  destruct (SemanticJobMatcher.match_loop get_embedding clock2 _ _ _ _ _ _ _)
    as [[c2 t2] r2] eqn:E2.
  simpl in *.
  destruct r1 as [l1|e1], r2 as [l2|e2]; simpl in *; try discriminate.
  - injection Hu as Hu. f_equal.
    rewrite <- !(sort_reverse_map EmbeddingMatch.overall_score untimed
                   EmbeddingMatch.overall_score) by reflexivity.
    now rewrite Hu.
  - exact Hu.
Qed.

(** ** Skill overlap (C5, C6, C7) *)

Lemma str_in_In s l : str_in s l = true <-> In s l.
Proof.
  unfold str_in. rewrite existsb_exists. split.
  - intros (x & Hx & Heq). apply String.eqb_eq in Heq. now subst.
  - intros H. exists s. split; [assumption|apply String.eqb_refl].
Qed.

Lemma filter_in_as_set (cv l : list string) :
  list_to_set (List.filter (fun s => str_in s cv) l)
  = (list_to_set cv ∩ list_to_set l : gset string).
Proof.
  apply set_eq. intros x.
  rewrite elem_of_intersection, !elem_of_list_to_set, !list_elem_of_In.
  rewrite filter_In, str_in_In. tauto.
Qed.

Lemma filter_notin_as_set (cv l : list string) :
  list_to_set (List.filter (fun s => negb (str_in s cv)) l)
  = (list_to_set l ∖ list_to_set cv : gset string).
Proof.
  apply set_eq. intros x.
  rewrite elem_of_difference, !elem_of_list_to_set, !list_elem_of_In.
  rewrite filter_In, negb_true_iff, <- not_true_iff_false, str_in_In. tauto.
Qed.

Lemma len_filter_in (cv l : list string) :
  List.NoDup l ->
  len (List.filter (fun s => str_in s cv) l)
  = Z.of_nat (size (list_to_set cv ∩ list_to_set l : gset string)).
Proof.
  intros Hnd. unfold len. f_equal.
  rewrite <- filter_in_as_set.
  symmetry. apply size_list_to_set.
  apply NoDup_ListNoDup, List.NoDup_filter, Hnd.
Qed.

Lemma len_as_size (l : list string) :
  List.NoDup l -> len l = Z.of_nat (size (list_to_set l : gset string)).
Proof.
  intros Hnd. unfold len. f_equal. symmetry.
  apply size_list_to_set, NoDup_ListNoDup, Hnd.
Qed.

Lemma len_map_lower (l : list string) : len (List.map lower l) = len l.
Proof. unfold len. now rewrite List.length_map. Qed.

(** The two skill matchers of the repository are the same function. *)
Lemma _match_skills_eq cv required preferred :
  JobMatcher._match_skills cv required (Some preferred)
  = SemanticJobMatcher._calculate_keyword_match cv required preferred.
Proof.
  unfold JobMatcher._match_skills,
    SemanticJobMatcher._calculate_keyword_match. simpl.
  destruct (len required =? 0)%Z; [reflexivity|].
  destruct (PyFloat.int_true_div _ _); simpl; [|reflexivity].
  destruct preferred; reflexivity.
Qed.

(** C5, as amended.  On skill lists that stand for sets (no skill listed
    twice, case apart), both skill matchers return the score of the
    specification:
    [|candidate ∩ required| / |required|], plus
    [(|candidate ∩ preferred| / |preferred|) * 0.1] capped by
    [min(score + bonus, 1.0)] when preferred skills are given; and when
    nothing is required they return [1.0] with [matched] and [missing]
    empty. *)
Theorem C5_skill_score_follows_the_formula
  (cv_skills required_skills preferred_skills : list string) :
  List.NoDup (List.map lower required_skills) ->
  List.NoDup (List.map lower preferred_skills) ->
  result_map (fun r => fst (fst r))
    (SemanticJobMatcher._calculate_keyword_match
       cv_skills required_skills preferred_skills)
  = scoreSkills_score (skill_set cv_skills) (skill_set required_skills)
      (skill_set preferred_skills)
  /\ JobMatcher._match_skills cv_skills required_skills (Some preferred_skills)
     = SemanticJobMatcher._calculate_keyword_match
         cv_skills required_skills preferred_skills
  /\ (required_skills = [] ->
      SemanticJobMatcher._calculate_keyword_match
        cv_skills required_skills preferred_skills = Ok (1.0%float, [], [])).
Proof.
  intros Hreq Hpref.
  split; [|split; [apply _match_skills_eq|now intros ->]].
  unfold SemanticJobMatcher._calculate_keyword_match, scoreSkills_score,
    skill_set.
  rewrite <- (len_as_size _ Hreq), <- (len_as_size _ Hpref).
  rewrite <- (len_filter_in _ _ Hreq), <- (len_filter_in _ _ Hpref).
  rewrite !len_map_lower.
  destruct (len required_skills =? 0)%Z; [reflexivity|].
  destruct (PyFloat.int_true_div _ (len required_skills)) as [score|e];
    simpl; [|reflexivity].
  destruct preferred_skills as [|p preferred]; [reflexivity|].
  change (len (p :: preferred) =? 0)%Z with false.
  destruct (PyFloat.int_true_div _ (len (p :: preferred))); reflexivity.
Qed.

(** ** True division of integers *)

Lemma round_spec_fexp_ok W : -1076 <= fexp prec emax (Zdigits2 W + -1076).
Proof. rewrite fexp_eq. lia. Qed.

(** The quotient of two positive integers, as [int_true_div] computes it. *)
Lemma int_true_div_pos a b :
  0 < a -> 0 < b ->
  exists W, 0 < W /\
    PyFloat.int_true_div a b =
      match round_spec false W (-1076) with
      | S754_infinity _ => Raise OverflowError
      | q => Ok (SF2Prim q)
      end /\
    (forall K, 0 < K -> a <= K * b -> W <= K * 2 ^ 1076) /\
    (forall K, 0 < K -> K * b <= a -> K * 2 ^ 1076 <= W).
Proof.
  intros Ha Hb.
  destruct (int_quotient_round false a b Ha Hb) as (W & HW & Hr & Hle & Hge).
  exists W. split; [assumption|]. split; [|split; assumption].
  unfold PyFloat.int_true_div.
  destruct (Z.eqb_spec b 0); [lia|].
  destruct (Z.eqb_spec a 0); [lia|].
  rewrite (Z.abs_eq a), (Z.abs_eq b) by lia.
  destruct (Z.ltb_spec a 0); [lia|].
  destruct (Z.ltb_spec b 0); [lia|].
  simpl xorb.
  destruct (SFdiv_core_binary prec emax a 0 b 0) as [[mz ez] lz].
  rewrite Hr. reflexivity.
Qed.

(** Below [K * b] the quotient is a finite float, at most [K] (for every
    [K] that is itself a float). *)
Lemma int_true_div_below a b K mk ek :
  0 < a -> 0 < b -> 0 < K -> a <= K * b ->
  round_spec false (K * 2 ^ 1076) (-1076) = S754_finite false mk ek ->
  exists q,
    PyFloat.int_true_div a b = Ok q /\
    nonneg_finite (Prim2SF q) = true /\
    SFleb (Prim2SF q) (S754_finite false mk ek) = true.
Proof.
  intros Ha Hb HK Hab HKf.
  destruct (int_true_div_pos a b Ha Hb) as (W & HW & Hr & Hle & _).
  specialize (Hle K HK Hab).
  pose proof (round_spec_mono_scaled W (K * 2 ^ 1076) (-1076)
                ltac:(lia) HW Hle) as Hm.
  rewrite HKf in Hm.
  pose proof (round_spec_class W (-1076)) as Hc.
  pose proof (round_spec_valid false W (-1076) HW (round_spec_fexp_ok W))
    as Hv.
  exists (SF2Prim (round_spec false W (-1076))).
  rewrite Hr, Prim2SF_SF2Prim by assumption.
  destruct (round_spec false W (-1076)) as [s|[|]| |[|] m e];
    simpl in *; try discriminate; auto.
Qed.

(** From [K * b] on the quotient is at least [K], or too large for a
    float. *)
Lemma int_true_div_above a b K mk ek :
  0 < a -> 0 < b -> 0 < K -> K * b <= a ->
  round_spec false (K * 2 ^ 1076) (-1076) = S754_finite false mk ek ->
  PyFloat.int_true_div a b = Raise OverflowError \/
  exists q,
    PyFloat.int_true_div a b = Ok q /\
    nonneg_finite (Prim2SF q) = true /\
    SFleb (S754_finite false mk ek) (Prim2SF q) = true.
Proof.
  intros Ha Hb HK Hab HKf.
  destruct (int_true_div_pos a b Ha Hb) as (W & HW & Hr & _ & Hge).
  specialize (Hge K HK Hab).
  assert (HK0 : 0 < K * 2 ^ 1076) by lia.
  pose proof (round_spec_mono_scaled (K * 2 ^ 1076) W (-1076)
                ltac:(lia) HK0 Hge) as Hm.
  rewrite HKf in Hm.
  pose proof (round_spec_class W (-1076)) as Hc.
  pose proof (round_spec_valid false W (-1076) HW (round_spec_fexp_ok W))
    as Hv.
  rewrite Hr.
  destruct (round_spec false W (-1076)) as [s|[|]| |[|] m e] eqn:E;
    simpl in Hc; try discriminate; auto.
  right. exists (SF2Prim (S754_finite false m e)).
  rewrite Prim2SF_SF2Prim by assumption. auto.
Qed.

(** When the quotient is at least [2^1024] the division overflows. *)
Lemma int_true_div_overflow a b :
  0 < b -> 2 ^ 1024 * b <= a ->
  PyFloat.int_true_div a b = Raise OverflowError.
Proof.
  intros Hb Hab.
  assert (Hinf : round_spec false (2 ^ 1024 * 2 ^ 1076) (-1076)
                 = S754_infinity false) by (vm_compute; reflexivity).
  assert (HK : 0 < 2 ^ 1024) by (apply Z.pow_pos_nonneg; lia).
  assert (HP : 0 < 2 ^ 1076) by (apply Z.pow_pos_nonneg; lia).
  remember (2 ^ 1024) as K eqn:EK. remember (2 ^ 1076) as P eqn:EP.
  assert (Ha : 0 < a) by nia.
  destruct (int_true_div_pos a b Ha Hb) as (W & HW & Hr & _ & Hge).
  specialize (Hge K HK Hab). rewrite <- EP in Hge.
  assert (HKP : 0 < K * P) by (apply Z.mul_pos_pos; assumption).
  pose proof (round_spec_mono_scaled (K * P) W (-1076)
                ltac:(lia) HKP Hge) as Hm.
  rewrite Hinf in Hm.
  pose proof (round_spec_class W (-1076)) as Hc.
  rewrite Hr.
  destruct (round_spec false W (-1076)) as [s|[|]| |[|] m e];
    simpl in *; try discriminate; reflexivity.
Qed.

(** ** Comparison of floats *)

Ltac key_case :=
  repeat split; intros H'; try discriminate H'; try reflexivity;
  try (injection H'; intros); subst; try reflexivity;
  unfold key_lt in *; simpl in *; try lia.

Lemma SFcompare_key x y :
  sf_is_nan x = false -> sf_is_nan y = false ->
  exists c, SFcompare x y = Some c /\
    (c = Lt <-> key_lt (sf_key x) (sf_key y)) /\
    (c = Eq <-> sf_key x = sf_key y) /\
    (c = Gt <-> key_lt (sf_key y) (sf_key x)).
Proof.
  destruct x as [?|[|]| |[|] mx ex]; destruct y as [?|[|]| |[|] my ey];
    simpl; intros Hx Hy; try discriminate;
    try (eexists; split; [reflexivity|]; key_case; fail).
  - eexists; split; [reflexivity|].
    change (Pos.compare_cont Eq mx my) with (mx ?= my)%positive.
    destruct (Z.compare_spec ex ey); simpl;
      [destruct (Pos.compare_spec mx my); simpl|..]; key_case.
  - eexists; split; [reflexivity|].
    change (Pos.compare_cont Eq mx my) with (mx ?= my)%positive.
    destruct (Z.compare_spec ex ey); simpl;
      [destruct (Pos.compare_spec mx my); simpl|..]; key_case.
Qed.

Lemma key_lt_le a b : key_lt a b -> key_le a b.
Proof. destruct a as [[? ?] ?], b as [[? ?] ?]. unfold key_lt, key_le. lia. Qed.

Lemma key_le_cases a b : key_le a b <-> key_lt a b \/ a = b.
Proof.
  destruct a as [[c1 e1] m1], b as [[c2 e2] m2]. unfold key_lt, key_le.
  split.
  - intros H.
    destruct (Z.eq_dec c1 c2), (Z.eq_dec e1 e2), (Z.eq_dec m1 m2);
      subst; try (right; reflexivity); left; lia.
  - intros [H|H]; [lia|]. injection H as -> -> ->. lia.
Qed.

Lemma key_total a b : key_lt a b \/ a = b \/ key_lt b a.
Proof.
  destruct a as [[c1 e1] m1], b as [[c2 e2] m2]. unfold key_lt.
  destruct (Z.eq_dec c1 c2), (Z.eq_dec e1 e2), (Z.eq_dec m1 m2);
    subst; try (right; left; reflexivity); lia.
Qed.

Lemma key_lt_irrefl a b : key_lt a b -> a <> b.
Proof.
  destruct a as [[c1 e1] m1], b as [[c2 e2] m2]. unfold key_lt.
  intros H E. injection E as -> -> ->. lia.
Qed.

Lemma key_lt_asym a b : key_lt a b -> ~ key_lt b a.
Proof.
  destruct a as [[c1 e1] m1], b as [[c2 e2] m2]. unfold key_lt. lia.
Qed.

Lemma key_le_trans a b c : key_le a b -> key_le b c -> key_le a c.
Proof.
  destruct a as [[c1 e1] m1], b as [[c2 e2] m2], c as [[c3 e3] m3].
  unfold key_le. lia.
Qed.

Lemma SFleb_key x y :
  SFleb x y = true <->
  sf_is_nan x = false /\ sf_is_nan y = false /\ key_le (sf_key x) (sf_key y).
Proof.
  split.
  - intros H.
    assert (Hx : sf_is_nan x = false).
    { destruct x; try reflexivity. discriminate H. }
    assert (Hy : sf_is_nan y = false).
    { destruct y; try reflexivity. destruct x; discriminate H. }
    split; [assumption|]. split; [assumption|].
    destruct (SFcompare_key x y Hx Hy) as (c & Hc & HLt & HEq & HGt).
    unfold SFleb in H. rewrite Hc in H. apply key_le_cases.
    destruct c; try discriminate H.
    + right. now apply HEq.
    + left. now apply HLt.
  - intros (Hx & Hy & H).
    destruct (SFcompare_key x y Hx Hy) as (c & Hc & HLt & HEq & HGt).
    unfold SFleb. rewrite Hc. apply key_le_cases in H.
    destruct c; try reflexivity.
    destruct H as [H|H].
    + exfalso. apply (key_lt_asym _ _ H). now apply HGt.
    + exfalso. apply (key_lt_irrefl _ _ (proj1 HGt eq_refl)). now symmetry.
Qed.

Lemma SFltb_key x y :
  SFltb x y = true <->
  sf_is_nan x = false /\ sf_is_nan y = false /\ key_lt (sf_key x) (sf_key y).
Proof.
  split.
  - intros H.
    assert (Hx : sf_is_nan x = false).
    { destruct x; try reflexivity. discriminate H. }
    assert (Hy : sf_is_nan y = false).
    { destruct y; try reflexivity. destruct x; discriminate H. }
    split; [assumption|]. split; [assumption|].
    destruct (SFcompare_key x y Hx Hy) as (c & Hc & HLt & HEq & HGt).
    unfold SFltb in H. rewrite Hc in H.
    destruct c; try discriminate H. now apply HLt.
  - intros (Hx & Hy & H).
    destruct (SFcompare_key x y Hx Hy) as (c & Hc & HLt & HEq & HGt).
    unfold SFltb. rewrite Hc. apply HLt in H. now subst.
Qed.

Lemma SFeqb_key x y :
  SFeqb x y = true <->
  sf_is_nan x = false /\ sf_is_nan y = false /\ sf_key x = sf_key y.
Proof.
  split.
  - intros H.
    assert (Hx : sf_is_nan x = false).
    { destruct x; try reflexivity. discriminate H. }
    assert (Hy : sf_is_nan y = false).
    { destruct y; try reflexivity. destruct x; discriminate H. }
    split; [assumption|]. split; [assumption|].
    destruct (SFcompare_key x y Hx Hy) as (c & Hc & HLt & HEq & HGt).
    unfold SFeqb in H. rewrite Hc in H.
    destruct c; try discriminate H. now apply HEq.
  - intros (Hx & Hy & H).
    destruct (SFcompare_key x y Hx Hy) as (c & Hc & HLt & HEq & HGt).
    unfold SFeqb. rewrite Hc. apply HEq in H. now subst.
Qed.

(** A number that is not NaN, in the two forms the statements use. *)
Lemma is_nan_sf x : PrimFloat.is_nan x = sf_is_nan (Prim2SF x).
Proof.
  unfold PrimFloat.is_nan. rewrite FloatAxioms.eqb_spec.
  destruct (sf_is_nan (Prim2SF x)) eqn:E.
  - destruct (Prim2SF x); try discriminate E. reflexivity.
  - apply negb_false_iff. apply SFeqb_key. auto.
Qed.

Lemma leb_not_nan x y :
  PrimFloat.leb x y = true ->
  PrimFloat.is_nan x = false /\ PrimFloat.is_nan y = false.
Proof.
  rewrite leb_spec, !is_nan_sf, SFleb_key. tauto.
Qed.

Lemma leb_trans x y z :
  PrimFloat.leb x y = true -> PrimFloat.leb y z = true ->
  PrimFloat.leb x z = true.
Proof.
  rewrite !leb_spec, !SFleb_key. intros (Hx & Hy & H1) (_ & Hz & H2).
  split; [assumption|]. split; [assumption|].
  exact (key_le_trans _ _ _ H1 H2).
Qed.

Lemma leb_refl x : PrimFloat.is_nan x = false -> PrimFloat.leb x x = true.
Proof.
  rewrite is_nan_sf, leb_spec, SFleb_key. intros H.
  split; [assumption|]. split; [assumption|].
  apply key_le_cases. now right.
Qed.

Lemma ltb_leb x y : PrimFloat.ltb x y = true -> PrimFloat.leb x y = true.
Proof.
  rewrite ltb_spec, leb_spec, SFltb_key, SFleb_key.
  intros (Hx & Hy & H). auto using key_lt_le.
Qed.

Lemma ltb_false_leb x y :
  PrimFloat.is_nan x = false -> PrimFloat.is_nan y = false ->
  PrimFloat.ltb x y = false -> PrimFloat.leb y x = true.
Proof.
  rewrite !is_nan_sf, ltb_spec, leb_spec, SFleb_key. intros Hx Hy H.
  split; [assumption|]. split; [assumption|].
  apply key_le_cases.
  destruct (key_total (sf_key (Prim2SF x)) (sf_key (Prim2SF y))) as [Hlt|[Heq|Hgt]]; auto.
  exfalso. apply not_true_iff_false in H. apply H, SFltb_key. auto.
Qed.

Lemma leb_ltb_false x y :
  PrimFloat.leb x y = true -> PrimFloat.ltb y x = false.
Proof.
  rewrite leb_spec, ltb_spec, SFleb_key. intros (Hx & Hy & H).
  apply not_true_iff_false. rewrite SFltb_key. intros (_ & _ & H').
  apply key_le_cases in H. destruct H as [H|H].
  - exact (key_lt_asym _ _ H H').
  - exact (key_lt_irrefl _ _ H' (eq_sym H)).
Qed.

(** Numbers equal to the same number are not strictly ordered. *)
Lemma eqb_eqb_ltb_false a b k :
  PrimFloat.eqb a k = true -> PrimFloat.eqb b k = true ->
  PrimFloat.ltb a b = false.
Proof.
  rewrite !FloatAxioms.eqb_spec, ltb_spec, !SFeqb_key. intros (Ha & _ & H1) (Hb & _ & H2).
  apply not_true_iff_false. rewrite SFltb_key. intros (_ & _ & H').
  apply (key_lt_irrefl _ _ H'). congruence.
Qed.

Lemma leb_ltb_trans x y z :
  PrimFloat.leb x y = true -> PrimFloat.ltb y z = true ->
  PrimFloat.ltb x z = true.
Proof.
  rewrite leb_spec, !ltb_spec, SFleb_key, !SFltb_key.
  intros (Hx & Hy & H1) (_ & Hz & H2).
  split; [assumption|]. split; [assumption|].
  destruct (sf_key (Prim2SF x)) as [[c1 e1] m1],
    (sf_key (Prim2SF y)) as [[c2 e2] m2],
    (sf_key (Prim2SF z)) as [[c3 e3] m3].
  unfold key_le, key_lt in *. lia.
Qed.

Lemma ltb_leb_trans x y z :
  PrimFloat.ltb x y = true -> PrimFloat.leb y z = true ->
  PrimFloat.ltb x z = true.
Proof.
  rewrite leb_spec, !ltb_spec, SFleb_key, !SFltb_key.
  intros (Hx & Hy & H1) (_ & Hz & H2).
  split; [assumption|]. split; [assumption|].
  destruct (sf_key (Prim2SF x)) as [[c1 e1] m1],
    (sf_key (Prim2SF y)) as [[c2 e2] m2],
    (sf_key (Prim2SF z)) as [[c3 e3] m3].
  unfold key_le, key_lt in *. lia.
Qed.

(** ** [min(x, 1.0)] *)

Lemma min_one_below x :
  PrimFloat.leb x 1 = true -> PyFloat.min x 1 = x.
Proof.
  intros H. unfold PyFloat.min. now rewrite (leb_ltb_false _ _ H).
Qed.

Lemma min_one_above x :
  PrimFloat.leb 1 x = true -> PyFloat.min x 1 = 1%float.
Proof.
  intros H. unfold PyFloat.min.
  destruct (PrimFloat.ltb 1 x) eqn:E; [reflexivity|].
  apply Prim2SF_inj.
  rewrite leb_spec in H. rewrite ltb_spec in E.
  apply SFleb_key in H. destruct H as (_ & Hx & H).
  apply key_le_cases in H. destruct H as [H|H].
  - exfalso. apply not_true_iff_false in E. apply E, SFltb_key. auto.
  - change (Prim2SF 1) with (S754_finite false (2 ^ 52) (-52)) in *.
    destruct (Prim2SF x) as [?|[|]| |[|] m e]; simpl in *;
      try discriminate.
    injection H as -> ->. reflexivity.
Qed.

Lemma min_one_unit x :
  nonneg_class (Prim2SF x) = true ->
  PrimFloat.leb 0 (PyFloat.min x 1) = true /\
  PrimFloat.leb (PyFloat.min x 1) 1 = true.
Proof.
  intros Hx. unfold PyFloat.min.
  destruct (PrimFloat.ltb 1 x) eqn:E.
  - split; reflexivity.
  - split; [now apply class_leb_zero|].
    apply ltb_false_leb; try assumption; try reflexivity.
    rewrite is_nan_sf. destruct (Prim2SF x); try reflexivity.
    discriminate Hx.
Qed.

(** ** Quotients of integers, as floats *)

Lemma max_float_int_pos : 0 < max_float_int.
Proof. reflexivity. Qed.

Example round_spec_max :
  round_spec false (max_float_int * 2 ^ 1076) (-1076)
  = S754_finite false (2 ^ 53 - 1) 971.
Proof. vm_compute. reflexivity. Qed.

Example round_spec_one' :
  round_spec false (1 * 2 ^ 1076) (-1076) = S754_finite false (2 ^ 52) (-52).
Proof. vm_compute. reflexivity. Qed.

(** The sign does not change whether a rounding overflows. *)
Lemma round_spec_sign s m e :
  round_spec s m e =
  match round_spec false m e with
  | S754_zero _ => S754_zero s
  | S754_infinity _ => S754_infinity s
  | S754_finite _ m' e' => S754_finite s m' e'
  | S754_nan => S754_nan
  end.
Proof.
  unfold round_spec. cbv zeta.
  destruct (_ =? 0); [reflexivity|].
  destruct (_ =? 2 ^ 53).
  - destruct (_ <=? 971); reflexivity.
  - destruct (_ <=? 971); reflexivity.
Qed.

(** A quotient in [0, 1]. *)
Lemma int_true_div_unit a b :
  0 <= a -> a <= b -> 0 < b ->
  exists q, PyFloat.int_true_div a b = Ok q /\
            PrimFloat.leb 0 q = true /\ PrimFloat.leb q 1 = true.
Proof.
  intros Ha Hab Hb.
  destruct (Z.eq_dec a 0) as [->|Hne].
  - exists 0%float. unfold PyFloat.int_true_div.
    destruct (Z.eqb_spec b 0); [lia|]. simpl.
    destruct (Z.ltb_spec b 0); [lia|]. auto.
  - destruct (int_true_div_below a b 1 _ _ ltac:(lia) Hb ltac:(lia)
                ltac:(lia) round_spec_one') as (q & Hq & Hf & Hle).
    exists q. split; [assumption|]. split.
    + apply class_leb_zero. now apply nonneg_finite_class.
    + rewrite leb_spec. exact Hle.
Qed.

(** A quotient of at least 1 that is not too large for a float. *)
Lemma int_true_div_ge_one a b :
  0 < b -> b <= a -> a <= max_float_int * b ->
  exists q, PyFloat.int_true_div a b = Ok q /\ PrimFloat.leb 1 q = true.
Proof.
  intros Hb Hba Hmax.
  destruct (int_true_div_below a b max_float_int _ _ ltac:(lia) Hb
              max_float_int_pos Hmax round_spec_max) as (q & Hq & Hf & _).
  destruct (int_true_div_above a b 1 _ _ ltac:(lia) Hb ltac:(lia)
              ltac:(lia) round_spec_one') as [Hr|(q' & Hq' & _ & Hle)].
  - rewrite Hq in Hr. discriminate.
  - exists q. split; [assumption|].
    rewrite Hq in Hq'. injection Hq' as <-.
    rewrite leb_spec. exact Hle.
Qed.

(** The true division of two integers, whatever their signs: the rounding
    of the quotient of the absolute values, with the sign of the quotient. *)
Lemma int_true_div_abs a b :
  a <> 0 -> b <> 0 ->
  exists W, 0 < W /\
    PyFloat.int_true_div a b =
      match round_spec (xorb (a <? 0) (b <? 0)) W (-1076) with
      | S754_infinity _ => Raise OverflowError
      | q => Ok (SF2Prim q)
      end /\
    (forall K, 0 < K -> Z.abs a <= K * Z.abs b -> W <= K * 2 ^ 1076) /\
    (forall K, 0 < K -> K * Z.abs b <= Z.abs a -> K * 2 ^ 1076 <= W).
Proof.
  intros Ha Hb.
  destruct (int_quotient_round (xorb (a <? 0) (b <? 0)) (Z.abs a) (Z.abs b)
              ltac:(lia) ltac:(lia)) as (W & HW & Hr & Hle & Hge).
  exists W. split; [assumption|]. split; [|split; assumption].
  unfold PyFloat.int_true_div.
  destruct (Z.eqb_spec b 0); [lia|].
  destruct (Z.eqb_spec a 0); [lia|].
  destruct (SFdiv_core_binary prec emax (Z.abs a) 0 (Z.abs b) 0)
    as [[mz ez] lz].
  rewrite Hr. reflexivity.
Qed.

(** The division of two integers raises nothing but [ZeroDivisionError]
    (on a zero divisor) and [OverflowError]. *)
Lemma int_true_div_raises a b e :
  PyFloat.int_true_div a b = Raise e ->
  (e = ZeroDivisionError /\ b = 0) \/ (e = OverflowError /\ b <> 0).
Proof.
  unfold PyFloat.int_true_div.
  destruct (Z.eqb_spec b 0).
  - intros [= <-]. auto.
  - destruct (a =? 0); [discriminate|].
    destruct (SFdiv_core_binary _ _ _ _ _ _) as [[mz ez] lz].
    destruct (binary_round_aux _ _ _ _ _ _); try discriminate.
    intros [= <-]. auto.
Qed.

(** It returns a float whenever the quotient is at most the largest
    float in absolute value. *)
Lemma int_true_div_total a b :
  b <> 0 -> Z.abs a <= max_float_int * Z.abs b ->
  exists q, PyFloat.int_true_div a b = Ok q.
Proof.
  intros Hb Hmax.
  destruct (Z.eq_dec a 0) as [->|Ha].
  - unfold PyFloat.int_true_div.
    destruct (Z.eqb_spec b 0); [lia|]. simpl. eauto.
  - destruct (int_true_div_abs a b Ha Hb) as (W & HW & Hr & Hle & _).
    specialize (Hle max_float_int max_float_int_pos Hmax).
    pose proof (round_spec_mono_scaled W (max_float_int * 2 ^ 1076) (-1076)
                  ltac:(lia) HW Hle) as Hm.
    rewrite round_spec_max in Hm.
    pose proof (round_spec_class W (-1076)) as Hc.
    rewrite Hr, round_spec_sign.
    destruct (round_spec false W (-1076)) as [s|[|]| |[|] m e];
      simpl in *; try discriminate; eauto.
Qed.

(** A negative quotient. *)
Lemma int_true_div_neg a b :
  a < 0 -> 0 < b -> - a <= max_float_int * b ->
  exists q, PyFloat.int_true_div a b = Ok q /\ PrimFloat.leb q 0 = true.
Proof.
  intros Ha Hb Hmax.
  destruct (int_true_div_abs a b ltac:(lia) ltac:(lia))
    as (W & HW & Hr & Hle & _).
  rewrite (Z.abs_neq a), (Z.abs_eq b) in Hle by lia.
  specialize (Hle max_float_int max_float_int_pos Hmax).
  pose proof (round_spec_mono_scaled W (max_float_int * 2 ^ 1076) (-1076)
                ltac:(lia) HW Hle) as Hm.
  rewrite round_spec_max in Hm.
  pose proof (round_spec_class W (-1076)) as Hc.
  pose proof (round_spec_valid true W (-1076) HW (round_spec_fexp_ok W))
    as Hv.
  destruct (Z.ltb_spec a 0); [|lia]. destruct (Z.ltb_spec b 0); [lia|].
  simpl xorb in Hr. rewrite Hr. rewrite round_spec_sign in Hv |- *.
  destruct (round_spec false W (-1076)) as [s|[|]| |[|] m e];
    simpl in Hc, Hm; try discriminate.
  - eexists. split; [reflexivity|].
    rewrite leb_spec, Prim2SF_SF2Prim by assumption. reflexivity.
  - eexists. split; [reflexivity|].
    rewrite leb_spec, Prim2SF_SF2Prim by assumption. reflexivity.
Qed.

(** A negative quotient, of any size: a float that is not positive, or an
    overflow. *)
Lemma int_true_div_negative a b :
  a < 0 -> 0 < b ->
  PyFloat.int_true_div a b = Raise OverflowError \/
  exists q, PyFloat.int_true_div a b = Ok q /\ PrimFloat.leb q 0 = true.
Proof.
  intros Ha Hb.
  destruct (int_true_div_abs a b ltac:(lia) ltac:(lia))
    as (W & HW & Hr & _ & _).
  pose proof (round_spec_class W (-1076)) as Hc.
  pose proof (round_spec_valid true W (-1076) HW (round_spec_fexp_ok W))
    as Hv.
  destruct (Z.ltb_spec a 0); [|lia]. destruct (Z.ltb_spec b 0); [lia|].
  simpl xorb in Hr. rewrite Hr. rewrite round_spec_sign in Hv |- *.
  destruct (round_spec false W (-1076)) as [s|[|]| |[|] m e];
    simpl in Hc; try discriminate.
  - right. eexists. split; [reflexivity|].
    rewrite leb_spec, Prim2SF_SF2Prim by assumption. reflexivity.
  - now left.
  - right. eexists. split; [reflexivity|].
    rewrite leb_spec, Prim2SF_SF2Prim by assumption. reflexivity.
Qed.

(** From [2^1024] times the divisor on, a negative quotient overflows
    too. *)
Lemma int_true_div_neg_overflow a b :
  a < 0 -> 0 < b -> 2 ^ 1024 * b <= - a ->
  PyFloat.int_true_div a b = Raise OverflowError.
Proof.
  intros Ha Hb Hab.
  assert (Hinf : round_spec false (2 ^ 1024 * 2 ^ 1076) (-1076)
                 = S754_infinity false) by (vm_compute; reflexivity).
  assert (HK : 0 < 2 ^ 1024) by (apply Z.pow_pos_nonneg; lia).
  assert (HP : 0 < 2 ^ 1076) by (apply Z.pow_pos_nonneg; lia).
  remember (2 ^ 1024) as K eqn:EK. remember (2 ^ 1076) as P eqn:EP.
  destruct (int_true_div_abs a b ltac:(lia) ltac:(lia))
    as (W & HW & Hr & _ & Hge).
  rewrite (Z.abs_neq a), (Z.abs_eq b) in Hge by lia.
  specialize (Hge K HK Hab). rewrite <- EP in Hge.
  assert (HKP : 0 < K * P) by (apply Z.mul_pos_pos; assumption).
  pose proof (round_spec_mono_scaled (K * P) W (-1076)
                ltac:(lia) HKP Hge) as Hm.
  rewrite Hinf in Hm.
  pose proof (round_spec_class W (-1076)) as Hc.
  rewrite Hr, round_spec_sign.
  destruct (round_spec false W (-1076)) as [s|[|]| |[|] m e];
    simpl in *; try discriminate; reflexivity.
Qed.

(** ** The sub-scores *)

Lemma len_nonneg {A} (l : list A) : 0 <= len l.
Proof. unfold len. lia. Qed.

Lemma len_filter_le {A} (p : A -> bool) (l : list A) :
  len (List.filter p l) <= len l.
Proof. unfold len. pose proof (List.filter_length_le p l). lia. Qed.

Lemma len_zero_nil {A} (l : list A) : (len l =? 0) = true <-> l = [].
Proof.
  unfold len. destruct l as [|a l]; simpl length.
  - split; reflexivity.
  - split; [|discriminate]. intros H. apply Z.eqb_eq in H. lia.
Qed.

(** The bonus-augmented score, capped: a number in [0, 1]. *)
Lemma capped_bonus_unit score ratio :
  PrimFloat.leb 0 score = true -> PrimFloat.leb score 1 = true ->
  PrimFloat.leb 0 ratio = true -> PrimFloat.leb ratio 1 = true ->
  PrimFloat.leb 0 (PyFloat.min (score + ratio * 0.1) 1) = true /\
  PrimFloat.leb (PyFloat.min (score + ratio * 0.1) 1) 1 = true.
Proof.
  intros Hs0 Hs1 Hr0 Hr1.
  destruct (weighted_term ratio 0.1 _ _ eq_refl Hr0 Hr1) as [Hb Hc].
  apply min_one_unit. apply float_add_class.
  - now apply in_unit_finite.
  - apply (leb_bounded_finite _ (1 * 0.1)%float); auto.
Qed.

(** [_calculate_keyword_match] returns, with a score in [0, 1]. *)
Lemma keyword_match_ok cv_skills required_skills preferred_skills :
  exists score,
    SemanticJobMatcher._calculate_keyword_match
      cv_skills required_skills preferred_skills
    = Ok (score,
          List.filter (fun s => str_in s (List.map lower cv_skills))
            (List.map lower required_skills),
          List.filter (fun s => negb (str_in s (List.map lower cv_skills)))
            (List.map lower required_skills)) /\
    PrimFloat.leb 0 score = true /\ PrimFloat.leb score 1 = true.
Proof.
  unfold SemanticJobMatcher._calculate_keyword_match. cbv zeta.
  destruct (len required_skills =? 0) eqn:E.
  - exists 1%float. auto.
  - assert (Hn : 0 < len required_skills).
    { pose proof (len_nonneg required_skills).
      apply Z.eqb_neq in E. lia. }
    destruct (int_true_div_unit
                (len (List.filter
                        (fun s => str_in s (List.map lower cv_skills))
                        (List.map lower required_skills)))
                (len required_skills)) as (q & Hq & Hq0 & Hq1).
    { apply len_nonneg. }
    { rewrite <- (len_map_lower required_skills). apply len_filter_le. }
    { assumption. }
    rewrite Hq. simpl.
    destruct preferred_skills as [|p preferred].
    + exists q. auto.
    + destruct (int_true_div_unit
                  (len (List.filter
                          (fun s => str_in s (List.map lower cv_skills))
                          (List.map lower (p :: preferred))))
                  (len (p :: preferred))) as (r & Hr & Hr0 & Hr1).
      { apply len_nonneg. }
      { rewrite <- (len_map_lower (p :: preferred)). apply len_filter_le. }
      { unfold len. simpl. lia. }
      rewrite Hr. simpl.
      eexists. split; [reflexivity|].
      now apply capped_bonus_unit.
Qed.

(** [_calculate_experience_match] raises nothing but [OverflowError]. *)
Lemma experience_match_raises cv_years required_years e :
  SemanticJobMatcher._calculate_experience_match cv_years required_years
  = Raise e -> e = OverflowError.
Proof.
  unfold SemanticJobMatcher._calculate_experience_match.
  destruct (Z.eqb_spec required_years 0); [discriminate|].
  destruct (PyFloat.int_true_div cv_years required_years) eqn:E; simpl;
    [discriminate|].
  intros [= <-].
  destruct (int_true_div_raises _ _ _ E) as [[_ ?]|[? _]];
    [contradiction|assumption].
Qed.

Lemma experience_match_unit cv_years required_years :
  0 <= cv_years -> 0 <= required_years ->
  cv_years <= max_float_int * required_years \/ required_years = 0 ->
  exists x,
    SemanticJobMatcher._calculate_experience_match cv_years required_years
    = Ok x /\
    PrimFloat.leb 0 x = true /\ PrimFloat.leb x 1 = true /\
    (required_years <= cv_years -> x = 1%float).
Proof.
  intros Hcv Hreq Hmax.
  unfold SemanticJobMatcher._calculate_experience_match.
  destruct (Z.eqb_spec required_years 0) as [->|Hne].
  - exists 1%float. auto.
  - destruct Hmax as [Hmax|]; [|contradiction].
    destruct (Z_le_gt_dec required_years cv_years) as [Hle|Hgt].
    + destruct (int_true_div_ge_one cv_years required_years ltac:(lia)
                  Hle Hmax) as (q & Hq & Hq1).
      rewrite Hq. simpl. rewrite (min_one_above q Hq1).
      exists 1%float. auto.
    + destruct (int_true_div_unit cv_years required_years Hcv ltac:(lia)
                  ltac:(lia)) as (q & Hq & Hq0 & Hq1).
      rewrite Hq. simpl. rewrite (min_one_below q Hq1).
      exists q. repeat split; auto. lia.
Qed.

Lemma experience_match_total cv_years required_years :
  Z.abs cv_years <= max_float_int * Z.abs required_years ->
  exists x,
    SemanticJobMatcher._calculate_experience_match cv_years required_years
    = Ok x.
Proof.
  intros Hmax.
  unfold SemanticJobMatcher._calculate_experience_match.
  destruct (Z.eqb_spec required_years 0) as [->|Hne]; [eauto|].
  destruct (int_true_div_total cv_years required_years Hne Hmax) as (q & ->).
  simpl. eauto.
Qed.

(** ** Cosine similarity *)

Lemma dot_acc_ok acc a b :
  length a = length b -> exists d, np.dot_acc acc a b = Ok d.
Proof.
  revert acc b. induction a as [|x a IH]; intros acc [|y b] H;
    simpl in *; try discriminate; eauto.
Qed.

Lemma dot_acc_mismatch acc a b :
  length a <> length b -> np.dot_acc acc a b = Raise ValueError.
Proof.
  revert acc b. induction a as [|x a IH]; intros acc [|y b] H;
    simpl in *; try reflexivity; try contradiction.
  apply IH. congruence.
Qed.

Lemma linalg_norm_ok a : exists n, np.linalg_norm a = Ok n.
Proof.
  unfold np.linalg_norm, np.dot.
  destruct (dot_acc_ok 0 a a eq_refl) as (d & ->). simpl. eauto.
Qed.

(** Multiplication commutes, bit for bit. *)
Lemma SFmul_comm x y : SFmul prec emax x y = SFmul prec emax y x.
Proof.
  destruct x as [sx|sx| |sx mx ex], y as [sy|sy| |sy my ey]; simpl;
    try reflexivity; try (now rewrite xorb_comm).
  now rewrite (xorb_comm sx sy), (Pos.mul_comm mx my), (Z.add_comm ex ey).
Qed.

Lemma float_mul_comm (x y : float) : (x * y = y * x)%float.
Proof.
  apply Prim2SF_inj. rewrite !mul_spec. apply SFmul_comm.
Qed.

Lemma dot_acc_comm acc a b : np.dot_acc acc a b = np.dot_acc acc b a.
Proof.
  revert acc b. induction a as [|x a IH]; intros acc [|y b]; simpl;
    try reflexivity.
  rewrite (float_mul_comm x y). apply IH.
Qed.

(** Zeros *)

Lemma is_zero_sf x : PrimFloat.is_zero x = sf_is_zero (Prim2SF x).
Proof.
  unfold PrimFloat.is_zero. rewrite FloatAxioms.eqb_spec.
  change (Prim2SF PrimFloat.zero) with (S754_zero false).
  destruct (Prim2SF x) as [?|[|]| |[|] ? ?]; reflexivity.
Qed.

Lemma SFmul_zero_l x y :
  sf_is_zero x = true -> sf_zero_or_nan (SFmul prec emax x y) = true.
Proof. destruct x, y; simpl; intros H; try discriminate; reflexivity. Qed.

Lemma SFmul_zero_r x y :
  sf_is_zero y = true -> sf_zero_or_nan (SFmul prec emax x y) = true.
Proof. rewrite SFmul_comm. apply SFmul_zero_l. Qed.

Lemma SFmul_zero_zero x y :
  sf_is_zero x = true -> sf_is_zero y = true ->
  sf_is_zero (SFmul prec emax x y) = true.
Proof. destruct x, y; simpl; intros H H'; try discriminate; reflexivity. Qed.

Lemma SFadd_zero_zero x y :
  sf_is_zero x = true -> sf_is_zero y = true ->
  sf_is_zero (SFadd prec emax x y) = true.
Proof.
  destruct x as [[|]| | |], y as [[|]| | |]; simpl; intros H H';
    try discriminate; reflexivity.
Qed.

Lemma SFadd_zero_or_nan x y :
  sf_zero_or_nan x = true -> sf_zero_or_nan y = true ->
  sf_zero_or_nan (SFadd prec emax x y) = true.
Proof.
  destruct x as [[|]| | |], y as [[|]| | |]; simpl; intros H H';
    try discriminate; reflexivity.
Qed.

Lemma SFdiv_zero_or_nan x y :
  sf_zero_or_nan x = true -> sf_zero_or_nan y = true ->
  SFdiv prec emax x y = S754_nan.
Proof.
  destruct x, y; simpl; intros H H'; try discriminate; reflexivity.
Qed.

(** The dot product of a vector with an all-zero vector: a zero or NaN. *)
Lemma dot_acc_zeros_l acc a b :
  sf_zero_or_nan (Prim2SF acc) = true ->
  Forall (fun x => PrimFloat.is_zero x = true) a ->
  length a = length b ->
  exists d, np.dot_acc acc a b = Ok d /\ sf_zero_or_nan (Prim2SF d) = true.
Proof.
  intros Hacc Ha. revert acc b Hacc.
  induction Ha as [|x a Hx Ha IH]; intros acc [|y b] Hacc Hlen;
    simpl in *; try discriminate; eauto.
  apply IH; [|congruence].
  rewrite add_spec, mul_spec. apply SFadd_zero_or_nan; [assumption|].
  apply SFmul_zero_l. now rewrite <- is_zero_sf.
Qed.

Lemma dot_acc_zeros_r acc a b :
  sf_zero_or_nan (Prim2SF acc) = true ->
  Forall (fun x => PrimFloat.is_zero x = true) b ->
  length a = length b ->
  exists d, np.dot_acc acc a b = Ok d /\ sf_zero_or_nan (Prim2SF d) = true.
Proof.
  intros Hacc Hb Hlen. rewrite dot_acc_comm.
  now apply dot_acc_zeros_l.
Qed.

(** The norm of an all-zero vector is zero. *)
Lemma dot_acc_zeros_self acc a :
  sf_is_zero (Prim2SF acc) = true ->
  Forall (fun x => PrimFloat.is_zero x = true) a ->
  exists d, np.dot_acc acc a a = Ok d /\ sf_is_zero (Prim2SF d) = true.
Proof.
  intros Hacc Ha. revert acc Hacc.
  induction Ha as [|x a Hx Ha IH]; intros acc Hacc; simpl; eauto.
  apply IH. rewrite add_spec, mul_spec.
  rewrite is_zero_sf in Hx.
  apply SFadd_zero_zero; [assumption|]. now apply SFmul_zero_zero.
Qed.

Lemma linalg_norm_zeros a :
  Forall (fun x => PrimFloat.is_zero x = true) a ->
  exists n, np.linalg_norm a = Ok n /\ sf_is_zero (Prim2SF n) = true.
Proof.
  intros Ha. unfold np.linalg_norm, np.dot.
  destruct (dot_acc_zeros_self 0 a eq_refl Ha) as (d & -> & Hd). simpl.
  eexists. split; [reflexivity|].
  rewrite sqrt_spec. unfold SF64sqrt.
  destruct (Prim2SF d); try discriminate Hd. reflexivity.
Qed.

Lemma nan_rescaled x :
  Prim2SF x = S754_nan -> PrimFloat.is_nan ((x + 1) / 2)%float = true.
Proof.
  intros H. rewrite is_nan_sf, div_spec, add_spec, H. reflexivity.
Qed.

(** ** The sort, when no key is NaN *)

Section SortOrder.

Context {A : Type} (key : A -> float).

Lemma insert_reverse_sorted x l :
  PrimFloat.is_nan (key x) = false -> no_nan key l ->
  StronglySorted (before key) l -> StronglySorted (before key) (insert_reverse key x l).
Proof.
  intros Hx Hl Hs. induction Hs as [|y l Hs IH Hy]; simpl.
  - repeat constructor.
  - apply Forall_cons_iff in Hl. destruct Hl as [Hny Hl].
    destruct (PrimFloat.ltb (key x) (key y)) eqn:E.
    + constructor; [now apply IH|].
      apply (Permutation_Forall (Permutation_sym (insert_reverse_perm key x l))).
      constructor; [|assumption]. now apply ltb_leb.
    + assert (Hxy : before key x y) by now apply ltb_false_leb.
      constructor; [now constructor|].
      constructor; [assumption|].
      eapply Forall_impl; [|exact Hy].
      intros z Hz. unfold before in *. exact (leb_trans _ _ _ Hz Hxy).
Qed.

Lemma sort_reverse_sorted l :
  no_nan key l -> StronglySorted (before key) (sort_reverse key l).
Proof.
  intros Hl. induction Hl as [|x l Hx Hl IH]; simpl.
  - constructor.
  - apply insert_reverse_sorted; try assumption.
    apply (Permutation_Forall (Permutation_sym (sort_reverse_perm key l))).
    exact Hl.
Qed.

(** The elements whose keys equal [k] keep their order. *)
Lemma insert_reverse_stable k x l :
  List.filter (fun y => PrimFloat.eqb (key y) k) (insert_reverse key x l)
  = List.filter (fun y => PrimFloat.eqb (key y) k) (x :: l).
Proof.
  induction l as [|y l IH]; [reflexivity|].
  simpl insert_reverse.
  destruct (PrimFloat.ltb (key x) (key y)) eqn:E; [|reflexivity].
  cbn [List.filter] in *. rewrite IH.
  destruct (PrimFloat.eqb (key x) k) eqn:Ex;
    destruct (PrimFloat.eqb (key y) k) eqn:Ey; try reflexivity.
  rewrite (eqb_eqb_ltb_false _ _ _ Ex Ey) in E. discriminate.
Qed.

Lemma sort_reverse_stable k l :
  List.filter (fun y => PrimFloat.eqb (key y) k) (sort_reverse key l)
  = List.filter (fun y => PrimFloat.eqb (key y) k) l.
Proof.
  induction l as [|x l IH]; [reflexivity|].
  simpl sort_reverse. rewrite insert_reverse_stable.
  cbn [List.filter]. now rewrite IH.
Qed.

(** Sorting a sorted list changes nothing. *)
Lemma insert_reverse_head x l :
  Forall (before key x) l -> insert_reverse key x l = x :: l.
Proof.
  intros H. destruct H as [|y l Hy H]; [reflexivity|]. simpl.
  unfold before in Hy. now rewrite (leb_ltb_false _ _ Hy).
Qed.

Lemma sort_reverse_id l :
  StronglySorted (before key) l -> sort_reverse key l = l.
Proof.
  intros H. induction H as [|x l Hs IH Hx]; [reflexivity|].
  simpl. rewrite IH. now apply insert_reverse_head.
Qed.

End SortOrder.

Lemma Forall2_Forall_r {A B : Type} (P : A -> B -> Prop) l1 l2 :
  Forall2 P l1 l2 -> Forall (fun y => exists x, In x l1 /\ P x y) l2.
Proof.
  intros H. induction H as [|x y l1 l2 Hxy H IH]; constructor.
  - exists x. split; [now left|assumption].
  - eapply Forall_impl; [|exact IH].
    intros b (a & Ha & Hab). exists a. split; [now right|assumption].
Qed.

(** ** Scoring one posting *)

Lemma cosine_similarity_ok a b :
  exists x, SemanticJobMatcher._cosine_similarity a b = Ok x.
Proof.
  unfold SemanticJobMatcher._cosine_similarity, np.dot.
  destruct (np.dot_acc 0 a b); simpl; [|eauto].
  destruct (linalg_norm_ok a) as (n1 & ->).
  destruct (linalg_norm_ok b) as (n2 & ->). simpl. eauto.
Qed.

Section ScoreFacts.

Import SemanticJobMatcher.

Variable get_embedding : string -> option (list float).
Variable format_percent : float -> string.

Abbreviation fill := (fill_embedding get_embedding).
Abbreviation score := (score_job format_percent).

Lemma fill_embedding_fields job :
  JobPosting.job_id (fill job) = JobPosting.job_id job /\
  JobPosting.title (fill job) = JobPosting.title job /\
  JobPosting.company (fill job) = JobPosting.company job /\
  JobPosting.required_skills (fill job) = JobPosting.required_skills job /\
  JobPosting.preferred_skills (fill job) = JobPosting.preferred_skills job /\
  JobPosting.experience_years (fill job) = JobPosting.experience_years job.
Proof.
  unfold fill_embedding. destruct (truthy _); repeat split; reflexivity.
Qed.

(** What a record holds: the three sub-scores of its posting, the constant
    education score and their blend. *)
Lemma score_job_fields cv sk yrs id job now m :
  score cv sk yrs id job now = Ok (Some m) ->
  truthy (JobPosting.embedding job) = true /\
  EmbeddingMatch.job_id m = id /\
  EmbeddingMatch.job_title m = JobPosting.title job /\
  EmbeddingMatch.company m = JobPosting.company job /\
  EmbeddingMatch.timestamp m = now /\
  _cosine_similarity cv (default [] (JobPosting.embedding job))
  = Ok (EmbeddingMatch.embedding_similarity m) /\
  _calculate_keyword_match sk (JobPosting.required_skills job)
    (JobPosting.preferred_skills job)
  = Ok (EmbeddingMatch.keyword_match_score m,
        EmbeddingMatch.matched_skills m, EmbeddingMatch.missing_skills m) /\
  _calculate_experience_match yrs (JobPosting.experience_years job)
  = Ok (EmbeddingMatch.experience_match m) /\
  EmbeddingMatch.education_match m = 0.7%float /\
  EmbeddingMatch.overall_score m
  = four_factor (EmbeddingMatch.embedding_similarity m)
      (EmbeddingMatch.keyword_match_score m)
      (EmbeddingMatch.experience_match m) 0.7.
Proof.
  unfold score_job. destruct (truthy _); [|discriminate].
  destruct (_cosine_similarity _ _) as [sim|]; [|discriminate]. simpl.
  destruct (_calculate_keyword_match _ _ _) as [[[k ma] mi]|];
    [|discriminate]. simpl.
  destruct (_calculate_experience_match _ _) as [ex|]; [|discriminate].
  simpl. intros [= <-]. simpl. repeat split; reflexivity.
Qed.

(** Scoring a posting raises nothing but the [OverflowError] of the
    experience ratio. *)
Lemma score_job_raises cv sk yrs id job now e :
  score cv sk yrs id job now = Raise e ->
  e = OverflowError /\
  truthy (JobPosting.embedding job) = true /\
  _calculate_experience_match yrs (JobPosting.experience_years job)
  = Raise OverflowError.
Proof.
  unfold score_job. destruct (truthy _); [|discriminate].
  destruct (cosine_similarity_ok cv (default [] (JobPosting.embedding job)))
    as (sim & ->). simpl.
  destruct (keyword_match_ok sk (JobPosting.required_skills job)
              (JobPosting.preferred_skills job)) as (k & -> & _). simpl.
  destruct (_calculate_experience_match _ _) as [ex|e'] eqn:E; simpl;
    [discriminate|].
  intros [= <-]. pose proof (experience_match_raises _ _ _ E) as ->. auto.
Qed.

Lemma score_job_overflow cv sk yrs id job now :
  truthy (JobPosting.embedding job) = true ->
  _calculate_experience_match yrs (JobPosting.experience_years job)
  = Raise OverflowError ->
  score cv sk yrs id job now = Raise OverflowError.
Proof.
  intros Ht He. unfold score_job. rewrite Ht.
  destruct (cosine_similarity_ok cv (default [] (JobPosting.embedding job)))
    as (sim & ->). simpl.
  destruct (keyword_match_ok sk (JobPosting.required_skills job)
              (JobPosting.preferred_skills job)) as (k & -> & _). simpl.
  rewrite He. reflexivity.
Qed.

Lemma score_job_returns cv sk yrs id job now x :
  _calculate_experience_match yrs (JobPosting.experience_years job) = Ok x ->
  exists r, score cv sk yrs id job now = Ok r.
Proof.
  intros He. unfold score_job. destruct (truthy _); [|eauto].
  destruct (cosine_similarity_ok cv (default [] (JobPosting.embedding job)))
    as (sim & ->). simpl.
  destruct (keyword_match_ok sk (JobPosting.required_skills job)
              (JobPosting.preferred_skills job)) as (k & -> & _). simpl.
  rewrite He. simpl. eauto.
Qed.

Variable clock : nat -> string.

Abbreviation loop := (match_loop get_embedding clock format_percent).

Lemma match_loop_raises cv sk yrs items matches t e :
  snd (loop cv sk yrs items matches t) = Raise e -> e = OverflowError.
Proof.
  revert matches t.
  induction items as [|[id job] rest IH]; intros matches t; simpl.
  - discriminate.
  - destruct (score cv sk yrs id (fill job) (clock t)) as [[m|]|e'] eqn:Es.
    + specialize (IH (matches ++ [m]) (S t)).
      destruct (loop cv sk yrs rest (matches ++ [m]) (S t)) as [[c t'] r].
      exact IH.
    + specialize (IH matches t).
      destruct (loop cv sk yrs rest matches t) as [[c t'] r]. exact IH.
    + simpl. intros [= <-]. now destruct (score_job_raises _ _ _ _ _ _ _ Es).
Qed.

(** One posting whose experience ratio overflows ends the loop with
    [OverflowError]. *)
Lemma match_loop_overflow cv sk yrs items matches t :
  Exists (fun it =>
            scored get_embedding it = true /\
            _calculate_experience_match yrs
              (JobPosting.experience_years (snd it)) = Raise OverflowError)
         items ->
  snd (loop cv sk yrs items matches t) = Raise OverflowError.
Proof.
  intros Hex. revert matches t.
  induction Hex as [[id job] rest [Hs He]|[id job] rest Hex IH];
    intros matches t; simpl.
  - unfold scored in Hs. simpl in Hs, He.
    rewrite score_job_overflow; [reflexivity|assumption|].
    now rewrite (proj2 (proj2 (proj2 (proj2 (proj2
                  (fill_embedding_fields job)))))).
  - destruct (score cv sk yrs id (fill job) (clock t)) as [[m|]|e'] eqn:Es.
    + specialize (IH (matches ++ [m]) (S t)).
      destruct (loop cv sk yrs rest (matches ++ [m]) (S t)) as [[c t'] r].
      exact IH.
    + specialize (IH matches t).
      destruct (loop cv sk yrs rest matches t) as [[c t'] r]. exact IH.
    + simpl. now destruct (score_job_raises _ _ _ _ _ _ _ Es) as [-> _].
Qed.

(** One clock reading per record. *)
Lemma match_loop_ticks cv sk yrs items matches t cache' t' ms :
  loop cv sk yrs items matches t = (cache', t', Ok ms) ->
  (t' + length matches = t + length ms)%nat.
Proof.
  revert matches t cache' t' ms.
  induction items as [|[id job] rest IH]; intros matches t cache' t' ms; simpl.
  - intros [= <- <- <-]. reflexivity.
  - destruct (score cv sk yrs id (fill job) (clock t)) as [[m|]|e] eqn:Es.
    + destruct (loop cv sk yrs rest (matches ++ [m]) (S t))
        as [[c t1] r] eqn:El.
      intros [= <- <- ->]. apply IH in El.
      rewrite length_app in El. simpl in El. lia.
    + destruct (loop cv sk yrs rest matches t) as [[c t1] r] eqn:El.
      intros [= <- <- ->]. now apply IH in El.
    + intros [= _ _ ?]; discriminate.
Qed.

(** The records of a normal run, each with the posting it was made for. *)
Lemma match_loop_records cv sk yrs items t cache' t' ms :
  loop cv sk yrs items [] t = (cache', t', Ok ms) ->
  Forall (fun m =>
            exists it now,
              In it items /\
              score cv sk yrs (fst it) (fill (snd it)) now = Ok (Some m))
         ms.
Proof.
  intros El.
  destruct (match_loop_ok _ _ _ _ _ _ _ _ _ _ _ _ El) as [_ (new & -> & HF)].
  simpl. apply Forall2_Forall_r in HF.
  eapply Forall_impl; [|exact HF].
  intros m (it & Hit & now & Hs). exists it, now.
  apply filter_In in Hit. tauto.
Qed.

End ScoreFacts.

(** ** Dictionaries *)

Section DictFacts.

Context {V : Type}.
Implicit Types (d : list (string * V)) (k : string) (v : V).

Lemma dict_contains_In k d : dict_contains k d = true <-> In k (dict_keys d).
Proof.
  unfold dict_contains, dict_keys. rewrite existsb_exists, in_map_iff.
  split.
  - intros (it & Hit & E). apply String.eqb_eq in E. eauto.
  - intros (it & E & Hit). exists it. split; [assumption|].
    now apply String.eqb_eq.
Qed.

Lemma dict_contains_false k d :
  dict_contains k d = false <-> ~ In k (dict_keys d).
Proof.
  rewrite <- dict_contains_In. now destruct (dict_contains k d).
Qed.

Lemma dict_get_None k d : dict_get k d = None <-> ~ In k (dict_keys d).
Proof.
  induction d as [|[k' v'] d IH]; simpl.
  - tauto.
  - destruct (String.eqb_spec k' k) as [->|Hne].
    + split; [discriminate|]. intros H. exfalso. apply H. now left.
    + rewrite IH. tauto.
Qed.

Lemma dict_get_In k v d : dict_get k d = Some v -> In (k, v) d.
Proof.
  induction d as [|[k' v'] d IH]; simpl; [discriminate|].
  destruct (String.eqb_spec k' k) as [->|Hne].
  - intros [= ->]. now left.
  - auto.
Qed.

Lemma dict_get_set_eq k v d : dict_get k (dict_set k v d) = Some v.
Proof.
  induction d as [|[k' v'] d IH]; simpl.
  - now rewrite String.eqb_refl.
  - destruct (String.eqb_spec k' k) as [->|Hne]; simpl.
    + now rewrite String.eqb_refl.
    + destruct (String.eqb_spec k' k); [contradiction|assumption].
Qed.

Lemma dict_get_set_ne k k' v d :
  k' <> k -> dict_get k' (dict_set k v d) = dict_get k' d.
Proof.
  intros Hne. induction d as [|[k0 v0] d IH]; simpl.
  - destruct (String.eqb_spec k k'); [congruence|reflexivity].
  - destruct (String.eqb_spec k0 k) as [->|Hne0]; simpl.
    + destruct (String.eqb_spec k k'); [congruence|reflexivity].
    + now rewrite IH.
Qed.

Lemma dict_set_In k v d : In (k, v) (dict_set k v d).
Proof.
  induction d as [|[k' v'] d IH]; simpl.
  - now left.
  - destruct (String.eqb k' k); [now left|now right].
Qed.

Lemma dict_keys_set k v d :
  dict_keys (dict_set k v d)
  = if dict_contains k d then dict_keys d else dict_keys d ++ [k].
Proof.
  induction d as [|[k' v'] d IH]; simpl; [reflexivity|].
  unfold dict_contains in *. simpl.
  destruct (String.eqb_spec k' k) as [->|Hne]; simpl; [reflexivity|].
  unfold dict_keys in *. rewrite IH.
  now destruct (existsb _ d).
Qed.

Lemma dict_values_set_new k v d :
  dict_contains k d = false ->
  dict_values (dict_set k v d) = dict_values d ++ [v].
Proof.
  unfold dict_contains, dict_values.
  induction d as [|[k' v'] d IH]; simpl; [reflexivity|].
  destruct (String.eqb_spec k' k) as [->|Hne]; simpl; [discriminate|].
  intros H. now rewrite IH.
Qed.

Lemma dict_del_set_new k v d :
  dict_contains k d = false -> dict_del k (dict_set k v d) = d.
Proof.
  unfold dict_contains.
  induction d as [|[k' v'] d IH]; simpl.
  - now rewrite String.eqb_refl.
  - destruct (String.eqb_spec k' k) as [->|Hne]; simpl; [discriminate|].
    intros H. destruct (String.eqb_spec k' k); [contradiction|].
    now rewrite IH.
Qed.

Lemma dict_keys_del_incl k k' d :
  In k' (dict_keys (dict_del k d)) -> In k' (dict_keys d).
Proof.
  induction d as [|[k0 v0] d IH]; simpl; [tauto|].
  destruct (String.eqb k0 k); simpl; tauto.
Qed.

Lemma dict_keys_del_NoDup k d :
  List.NoDup (dict_keys d) -> List.NoDup (dict_keys (dict_del k d)).
Proof.
  induction d as [|[k0 v0] d IH]; simpl; [auto|].
  intros H. apply List.NoDup_cons_iff in H. destruct H as [Hn H].
  destruct (String.eqb k0 k); simpl; [assumption|].
  constructor; [|auto].
  intros Hin. apply Hn. exact (dict_keys_del_incl _ _ _ Hin).
Qed.

Lemma dict_get_del_eq k d :
  List.NoDup (dict_keys d) -> dict_get k (dict_del k d) = None.
Proof.
  induction d as [|[k0 v0] d IH]; simpl; [reflexivity|].
  intros H. apply List.NoDup_cons_iff in H. destruct H as [Hn H].
  destruct (String.eqb_spec k0 k) as [->|Hne]; simpl.
  - now apply dict_get_None.
  - destruct (String.eqb_spec k0 k); [contradiction|auto].
Qed.

Lemma dict_get_del_ne k k' d :
  k' <> k -> dict_get k' (dict_del k d) = dict_get k' d.
Proof.
  intros Hne. induction d as [|[k0 v0] d IH]; simpl; [reflexivity|].
  destruct (String.eqb_spec k0 k) as [->|Hne0]; simpl.
  - destruct (String.eqb_spec k k'); [congruence|reflexivity].
  - now rewrite IH.
Qed.

Lemma dict_del_length k d :
  dict_contains k d = true -> S (length (dict_del k d)) = length d.
Proof.
  unfold dict_contains.
  induction d as [|[k0 v0] d IH]; simpl; [discriminate|].
  destruct (String.eqb_spec k0 k) as [->|Hne]; simpl; [reflexivity|].
  intros H. now rewrite IH.
Qed.

Lemma dict_del_Forall (P : string * V -> Prop) k d :
  Forall P d -> Forall P (dict_del k d).
Proof.
  induction 1 as [|[k0 v0] d Hx H IH]; simpl; [constructor|].
  destruct (String.eqb k0 k); [assumption|now constructor].
Qed.

Lemma dict_set_Forall (P : string * V -> Prop) k v d :
  P (k, v) -> Forall P d -> Forall P (dict_set k v d).
Proof.
  intros Hk. induction 1 as [|[k0 v0] d Hx H IH]; simpl.
  - now repeat constructor.
  - destruct (String.eqb k0 k); now constructor.
Qed.

Lemma dict_keys_set_NoDup k v d :
  List.NoDup (dict_keys d) -> List.NoDup (dict_keys (dict_set k v d)).
Proof.
  intros H. rewrite dict_keys_set.
  destruct (dict_contains k d) eqn:E; [assumption|].
  apply dict_contains_false in E.
  apply List.NoDup_app; [assumption|repeat constructor; simpl; tauto|].
  intros a Ha [<-|[]]. contradiction.
Qed.

End DictFacts.

(** ** Integers as floats *)

(** [float(n)] is the rounding of [n]. *)
Lemma of_int_value n :
  0 < n -> PyFloat.of_int n = round_spec false (n * 2 ^ 1074) (-1074).
Proof.
  intros Hn. unfold PyFloat.of_int.
  pose proof (Zdigits2_pos n Hn) as Hd.
  destruct (Z_le_gt_dec 0 (fexp prec emax (Zdigits2 n + 0))) as [Hk|Hk].
  - rewrite binary_normalize_pos by assumption.
    rewrite <- (round_spec_shift false n 0 1074) by (assumption || lia).
    reflexivity.
  - destruct n as [|p|p]; try lia.
    unfold binary_normalize, binary_round.
    change (Z.pos (digits2_pos p)) with (Zdigits2 (Z.pos p)).
    set (E := fexp prec emax (Zdigits2 (Z.pos p) + 0)) in *.
    assert (HE : -1074 <= E) by (unfold E; rewrite fexp_eq; lia).
    pose proof (shl_align_fst p 0 E ltac:(lia)) as Hm.
    assert (Hs : snd (shl_align p 0 E) = E).
    { unfold shl_align. destruct (E - 0) eqn:Ed; try lia. reflexivity. }
    destruct (shl_align p 0 E) as [mz ez]. simpl in Hm, Hs. subst ez.
    rewrite Hm.
    assert (HkE : E <= fexp prec emax (Zdigits2 (Z.pos p * 2 ^ (0 - E)) + E)).
    { rewrite Zdigits2_mul_pow by lia.
      replace (Zdigits2 (Z.pos p) + (0 - E) + E)
        with (Zdigits2 (Z.pos p) + 0) by lia.
      fold E. lia. }
    rewrite binary_round_aux_exact; [|apply Z.mul_pos_pos; [lia|]|assumption].
    2:{ apply Z.pow_pos_nonneg; lia. }
    rewrite <- (round_spec_shift false (Z.pos p * 2 ^ (0 - E)) E (E + 1074));
      [|apply Z.mul_pos_pos; [lia|apply Z.pow_pos_nonneg; lia]|lia|assumption].
    f_equal; [|lia].
    rewrite <- Z.mul_assoc, <- Z.pow_add_r by lia. do 2 f_equal. lia.
Qed.

Example round_spec_maxsize :
  round_spec false (2 ^ 63 * 2 ^ 1074) (-1074)
  = S754_finite false (2 ^ 52) 11.
Proof. vm_compute. reflexivity. Qed.

(** The length of a list, as a float: a finite number that is not
    negative. *)
Lemma float_of_int_small n :
  0 <= n -> n <= 2 ^ 63 ->
  exists c, PyFloat.float_of_int n = Ok c /\
            nonneg_finite (Prim2SF c) = true /\
            PrimFloat.leb c 9223372036854775808 = true.
Proof.
  intros H0 Hn. unfold PyFloat.float_of_int.
  destruct (Z.eq_dec n 0) as [->|Hne].
  - exists 0%float. repeat split; reflexivity.
  - rewrite of_int_value by lia.
    assert (HP : 0 < 2 ^ 1074) by (apply Z.pow_pos_nonneg; lia).
    assert (HQ : 0 < 2 ^ 63) by (apply Z.pow_pos_nonneg; lia).
    pose proof round_spec_maxsize as Hmax.
    remember (2 ^ 1074) as P. remember (2 ^ 63) as Q.
    assert (Hv : 0 < n * P) by nia.
    assert (Hle : n * P <= Q * P) by nia.
    pose proof (round_spec_mono_scaled (n * P) (Q * P) (-1074)
                  ltac:(lia) Hv Hle) as Hm.
    rewrite Hmax in Hm.
    pose proof (round_spec_class (n * P) (-1074)) as Hc.
    assert (Hval : valid_binary (round_spec false (n * P) (-1074)) = true).
    { apply round_spec_valid; [assumption|]. rewrite fexp_eq. lia. }
    destruct (round_spec false (n * P) (-1074)) as [s|[|]| |[|] m e];
      simpl in Hc, Hm; try discriminate.
    + eexists. split; [reflexivity|].
      rewrite leb_spec, Prim2SF_SF2Prim by assumption.
      split; reflexivity.
    + eexists. split; [reflexivity|].
      rewrite leb_spec, Prim2SF_SF2Prim by assumption.
      split; [reflexivity|exact Hm].
Qed.

(** ** Bounds that propagate through a weighted sum *)

Lemma leb_zero_finite x y :
  PrimFloat.leb 0 x = true -> PrimFloat.leb x y = true ->
  nonneg_finite (Prim2SF y) = true -> nonneg_finite (Prim2SF x) = true.
Proof.
  intros H0 Hxy Hy. apply (leb_bounded_finite x y); try assumption.
  now apply leb_zero_class.
Qed.

(** Two numbers [x <= x'] below a finite bound, times a positive
    constant. *)
Lemma mul_chain x x' X c mc ec :
  Prim2SF c = S754_finite false mc ec ->
  nonneg_finite (Prim2SF X) = true ->
  nonneg_finite (Prim2SF (X * c)) = true ->
  PrimFloat.leb 0 x = true -> PrimFloat.leb x x' = true ->
  PrimFloat.leb x' X = true ->
  PrimFloat.leb 0 (x * c) = true /\
  PrimFloat.leb (x * c) (x' * c) = true /\
  PrimFloat.leb (x' * c) (X * c) = true.
Proof.
  intros Hc HX HXc H0 H1 H2.
  assert (Fx' : nonneg_finite (Prim2SF x') = true).
  { apply (leb_zero_finite x' X); try assumption.
    exact (leb_trans _ _ _ H0 H1). }
  assert (Fx : nonneg_finite (Prim2SF x) = true)
    by (apply (leb_zero_finite x x'); assumption).
  split; [|split].
  - apply class_leb_zero. now apply (float_mul_class x c mc ec).
  - now apply (float_mul_mono x x' c mc ec).
  - now apply (float_mul_mono x' X c mc ec).
Qed.

(** The same for a sum. *)
Lemma add_chain s s' S t t' T :
  nonneg_finite (Prim2SF (S + T)) = true ->
  nonneg_finite (Prim2SF S) = true -> nonneg_finite (Prim2SF T) = true ->
  PrimFloat.leb 0 s = true -> PrimFloat.leb s s' = true ->
  PrimFloat.leb s' S = true ->
  PrimFloat.leb 0 t = true -> PrimFloat.leb t t' = true ->
  PrimFloat.leb t' T = true ->
  PrimFloat.leb 0 (s + t) = true /\
  PrimFloat.leb (s + t) (s' + t') = true /\
  PrimFloat.leb (s' + t') (S + T) = true.
Proof.
  intros HST HS HT Hs0 Hs1 Hs2 Ht0 Ht1 Ht2.
  assert (Fs' : nonneg_finite (Prim2SF s') = true).
  { apply (leb_zero_finite s' S); try assumption.
    exact (leb_trans _ _ _ Hs0 Hs1). }
  assert (Fs : nonneg_finite (Prim2SF s) = true)
    by (apply (leb_zero_finite s s'); assumption).
  assert (Ft' : nonneg_finite (Prim2SF t') = true).
  { apply (leb_zero_finite t' T); try assumption.
    exact (leb_trans _ _ _ Ht0 Ht1). }
  assert (Ft : nonneg_finite (Prim2SF t) = true)
    by (apply (leb_zero_finite t t'); assumption).
  split; [|split].
  - apply class_leb_zero. now apply float_add_class.
  - now apply float_add_mono.
  - now apply float_add_mono.
Qed.

(** The four-factor blend grows with each sub-score in [0, 1]. *)
Lemma four_factor_mono a b c d a' b' c' d' :
  PrimFloat.leb 0 a = true -> PrimFloat.leb a a' = true ->
  PrimFloat.leb a' 1 = true ->
  PrimFloat.leb 0 b = true -> PrimFloat.leb b b' = true ->
  PrimFloat.leb b' 1 = true ->
  PrimFloat.leb 0 c = true -> PrimFloat.leb c c' = true ->
  PrimFloat.leb c' 1 = true ->
  PrimFloat.leb 0 d = true -> PrimFloat.leb d d' = true ->
  PrimFloat.leb d' 1 = true ->
  PrimFloat.leb 0 (four_factor a b c d) = true /\
  PrimFloat.leb (four_factor a b c d) (four_factor a' b' c' d') = true /\
  PrimFloat.leb (four_factor a' b' c' d') 1 = true.
Proof.
  intros Ha0 Ha1 Ha2 Hb0 Hb1 Hb2 Hc0 Hc1 Hc2 Hd0 Hd1 Hd2.
  unfold four_factor.
  destruct (mul_chain a a' 1 0.40 _ _ eq_refl eq_refl eq_refl Ha0 Ha1 Ha2)
    as (A0 & A1 & A2).
  destruct (mul_chain b b' 1 0.30 _ _ eq_refl eq_refl eq_refl Hb0 Hb1 Hb2)
    as (B0 & B1 & B2).
  destruct (mul_chain c c' 1 0.15 _ _ eq_refl eq_refl eq_refl Hc0 Hc1 Hc2)
    as (C0 & C1 & C2).
  destruct (mul_chain d d' 1 0.15 _ _ eq_refl eq_refl eq_refl Hd0 Hd1 Hd2)
    as (D0 & D1 & D2).
  destruct (add_chain _ _ (1 * 0.40)%float _ _ (1 * 0.30)%float
              eq_refl eq_refl eq_refl A0 A1 A2 B0 B1 B2) as (S0 & S1 & S2).
  destruct (add_chain _ _ (1 * 0.40 + 1 * 0.30)%float _ _ (1 * 0.15)%float
              eq_refl eq_refl eq_refl S0 S1 S2 C0 C1 C2) as (T0 & T1 & T2).
  destruct (add_chain _ _ (1 * 0.40 + 1 * 0.30 + 1 * 0.15)%float _ _
              (1 * 0.15)%float
              eq_refl eq_refl eq_refl T0 T1 T2 D0 D1 D2) as (U0 & U1 & U2).
  auto.
Qed.

(** ** [min] against any cap *)

Lemma min_le_cap x c :
  PrimFloat.is_nan x = false -> PrimFloat.is_nan c = false ->
  PrimFloat.leb (PyFloat.min x c) c = true.
Proof.
  intros Hx Hc. unfold PyFloat.min.
  destruct (PrimFloat.ltb c x) eqn:E.
  - now apply leb_refl.
  - now apply ltb_false_leb.
Qed.

Lemma min_ge_bound lo x c :
  PrimFloat.leb lo x = true -> PrimFloat.leb lo c = true ->
  PrimFloat.leb lo (PyFloat.min x c) = true.
Proof.
  intros Hx Hc. unfold PyFloat.min. now destruct (PrimFloat.ltb c x).
Qed.

(** ** The sub-scores of [JobMatcher] *)

Lemma estimated_years_range (cv_experience : list Dict) :
  cv_experience <> [] -> 2 <= Z.min (len cv_experience * 2) 20 <= 20.
Proof.
  intros H. unfold len. destruct cv_experience; [contradiction|].
  simpl length. lia.
Qed.

Lemma twenty_fits : 20 <= max_float_int.
Proof. vm_compute. discriminate. Qed.

Lemma match_experience_total (cv_experience : list Dict) required_years :
  exists x, JobMatcher._match_experience cv_experience required_years = Ok x.
Proof.
  unfold JobMatcher._match_experience.
  destruct cv_experience as [|d l] eqn:E; [eauto|]. rewrite <- E.
  assert (Hne : cv_experience <> []) by (rewrite E; discriminate).
  pose proof (estimated_years_range _ Hne) as Hest.
  destruct (Z.eqb_spec required_years 0) as [|Hreq]; [eauto|].
  destruct (int_true_div_total (Z.min (len cv_experience * 2) 20)
              required_years Hreq) as (q & ->).
  - pose proof twenty_fits. pose proof max_float_int_pos.
    remember max_float_int as K. nia.
  - simpl. eauto.
Qed.

Lemma match_experience_unit (cv_experience : list Dict) required_years :
  0 <= required_years ->
  exists x,
    JobMatcher._match_experience cv_experience required_years = Ok x /\
    PrimFloat.leb 0 x = true /\ PrimFloat.leb x 1 = true /\
    (cv_experience <> [] ->
     required_years <= Z.min (len cv_experience * 2) 20 -> x = 1%float).
Proof.
  intros Hreq. unfold JobMatcher._match_experience.
  destruct cv_experience as [|d l] eqn:E.
  { destruct (0 <? required_years); eexists; repeat split;
      try reflexivity; intros H; contradiction. }
  rewrite <- E.
  assert (Hne : cv_experience <> []) by (rewrite E; discriminate).
  pose proof (estimated_years_range _ Hne) as Hest.
  set (est := Z.min (len cv_experience * 2) 20) in *.
  destruct (Z.eqb_spec required_years 0) as [|Hnz].
  { exists 1%float. auto. }
  destruct (Z_le_gt_dec required_years est) as [Hle|Hgt].
  - destruct (int_true_div_ge_one est required_years ltac:(lia) Hle)
      as (q & -> & Hq).
    { pose proof twenty_fits. pose proof max_float_int_pos.
      remember max_float_int as K. nia. }
    simpl. rewrite (min_one_above q Hq). exists 1%float. auto.
  - destruct (int_true_div_unit est required_years ltac:(lia) ltac:(lia)
                ltac:(lia)) as (q & -> & Hq0 & Hq1).
    simpl. rewrite (min_one_below q Hq1). exists q.
    repeat split; auto. intros _ H'. lia.
Qed.

Lemma match_location_cases cv_location job_location :
  let x := JobMatcher._match_location cv_location job_location in
  (x = 0.3 \/ x = 0.5 \/ x = 0.9 \/ x = 1)%float.
Proof.
  cbv zeta. unfold JobMatcher._match_location.
  destruct (_ || _); [auto|].
  destruct (String.eqb _ _); [auto|].
  destruct (str_contains _ _); auto.
Qed.

Lemma match_location_range cv_location job_location :
  PrimFloat.leb 0.3 (JobMatcher._match_location cv_location job_location)
  = true /\
  PrimFloat.leb (JobMatcher._match_location cv_location job_location) 1
  = true.
Proof.
  destruct (match_location_cases cv_location job_location)
    as [H|[H|[H|H]]]; rewrite H; split; reflexivity.
Qed.

Section Education.

Variable str_of_dict : Dict -> string.

Lemma match_education_range cv_education job_description :
  len cv_education <= 2 ^ 63 ->
  exists x,
    JobMatcher._match_education str_of_dict cv_education job_description
    = Ok x /\
    PrimFloat.leb 0.3 x = true /\ PrimFloat.leb x 1 = true.
Proof.
  intros Hlen. unfold JobMatcher._match_education.
  destruct cv_education as [|d l] eqn:E.
  { exists 0.3%float. auto. }
  rewrite <- E in *. cbv zeta.
  destruct (existsb _ _).
  - destruct (float_of_int_small (len cv_education) (len_nonneg _) Hlen)
      as (c & -> & Hc & Hcmax).
    simpl.
    assert (Hc0 : PrimFloat.leb 0 c = true).
    { apply class_leb_zero. now apply nonneg_finite_class. }
    destruct (mul_chain c c 9223372036854775808 0.1 _ _ eq_refl eq_refl
                eq_refl Hc0 (leb_refl c (proj1 (leb_not_nan _ _ Hcmax)))
                Hcmax) as (B0 & _ & B2).
    assert (Hb : nonneg_finite (Prim2SF (c * 0.1)) = true).
    { apply (leb_zero_finite _ (9223372036854775808 * 0.1)%float);
        auto. }
    assert (Hs : PrimFloat.leb 0.5 (0.5 + c * 0.1) = true).
    { change 0.5%float with (0.5 + 0)%float at 1.
      apply float_add_mono; try reflexivity; assumption. }
    eexists. split; [reflexivity|]. split.
    + apply (leb_trans _ 0.5); [reflexivity|].
      now apply min_ge_bound.
    + apply min_le_cap; [|reflexivity].
      exact (proj2 (leb_not_nan _ _ Hs)).
  - exists 0.5%float. auto.
Qed.

Lemma match_education_description cv_education description description' :
  JobMatcher._match_education str_of_dict cv_education description
  = JobMatcher._match_education str_of_dict cv_education description'.
Proof. reflexivity. Qed.

End Education.

(** ** One match of [JobMatcher] *)

Section MatchFacts.

Variable str_of_dict : Dict -> string.
Variable hash : string -> Z.
Variable clock : nat -> string.

Abbreviation match_job := (JobMatcher.match_cv_to_job str_of_dict hash clock).

(** What [match_cv_to_job] does for a posting whose required years are
    not negative. *)
Lemma match_cv_to_job_spec cv_data job st :
  0 <= JobDescription.experience_years job ->
  len (CVData.education cv_data) <= 2 ^ 63 ->
  exists m,
    match_job cv_data job st
    = (JobMatcher.mkState (JobMatcher.match_history st ++ [m])
         (S (JobMatcher.ticks st)), Ok m) /\
    MatchScore.job_title m = JobDescription.title job /\
    MatchScore.timestamp m = clock (JobMatcher.ticks st) /\
    0 <= MatchScore.job_id m < 10000 /\
    PrimFloat.leb 0.09 (MatchScore.overall_score m) = true /\
    PrimFloat.leb (MatchScore.overall_score m) 1 = true /\
    PrimFloat.leb 9 (MatchScore.match_percentage m) = true /\
    PrimFloat.leb (MatchScore.match_percentage m) 100 = true /\
    MatchScore.overall_score m
    = four_factor (MatchScore.skills_match m) (MatchScore.experience_match m)
        (MatchScore.location_match m) (MatchScore.education_match m).
Proof.
  intros Hreq Hlen. unfold JobMatcher.match_cv_to_job.
  rewrite _match_skills_eq.
  destruct (keyword_match_ok (CVData.skills cv_data)
              (JobDescription.required_skills job)
              (JobDescription.preferred_skills job)) as (k & -> & Hk0 & Hk1).
  destruct (match_experience_unit (CVData.experience cv_data) _ Hreq)
    as (x & -> & Hx0 & Hx1 & _).
  destruct (match_education_range str_of_dict (CVData.education cv_data)
              (JobDescription.description job) Hlen) as (ed & -> & Hd0 & Hd1).
  destruct (match_location_range (CVData.location cv_data)
              (JobDescription.location job)) as [Hl0 Hl1].
  set (lo := JobMatcher._match_location _ _) in *.
  simpl.
  eexists. split; [reflexivity|]. simpl.
  destruct (four_factor_mono 0 0 0.3 0.3 k x lo ed
              eq_refl Hk0 Hk1 eq_refl Hx0 Hx1 eq_refl Hl0 Hl1
              eq_refl Hd0 Hd1) as (_ & Hlow & Hup).
  fold (four_factor k x lo ed).
  set (overall := four_factor k x lo ed) in *.
  assert (Hov0 : PrimFloat.leb 0 overall = true).
  { apply (leb_trans _ (four_factor 0 0 0.3 0.3)); [reflexivity|assumption]. }
  destruct (mul_chain (four_factor 0 0 0.3 0.3) overall 1 100 _ _ eq_refl
              eq_refl eq_refl eq_refl Hlow Hup) as (_ & P1 & P2).
  split; [reflexivity|]. split; [reflexivity|].
  split; [apply Z.mod_pos_bound; lia|].
  split; [exact Hlow|]. split; [exact Hup|]. split; [|split].
  - apply min_ge_bound; [exact P1|reflexivity].
  - apply min_le_cap; [|reflexivity].
    exact (proj2 (leb_not_nan _ _ P1)).
  - reflexivity.
Qed.

Abbreviation jobs_loop := (JobMatcher.match_jobs_loop str_of_dict hash clock).

(** The loop of [match_cv_to_multiple_jobs]: one record per job, in the
    order of the jobs, appended to the history as well. *)
Lemma match_jobs_loop_spec cv_data jobs matches st :
  Forall (fun job => 0 <= JobDescription.experience_years job) jobs ->
  len (CVData.education cv_data) <= 2 ^ 63 ->
  exists new,
    jobs_loop cv_data jobs matches st
    = (JobMatcher.mkState (JobMatcher.match_history st ++ new)
         (JobMatcher.ticks st + length jobs), Ok (matches ++ new)) /\
    List.map MatchScore.job_title new = List.map JobDescription.title jobs /\
    List.map MatchScore.timestamp new
    = List.map clock (List.seq (JobMatcher.ticks st) (length jobs)) /\
    Forall (fun m =>
              PrimFloat.leb 0.09 (MatchScore.overall_score m) = true /\
              PrimFloat.leb (MatchScore.overall_score m) 1 = true) new.
Proof.
  intros Hjobs Hlen. revert matches st.
  induction Hjobs as [|job jobs Hjob Hjobs IH]; intros matches st; simpl.
  - exists []. rewrite !app_nil_r, Nat.add_0_r.
    destruct st. repeat split; constructor.
  - destruct (match_cv_to_job_spec cv_data job st Hjob Hlen)
      as (m & -> & Ht & Hts & _ & Ho0 & Ho1 & _).
    destruct (IH (matches ++ [m])
                (JobMatcher.mkState (JobMatcher.match_history st ++ [m])
                   (S (JobMatcher.ticks st))))
      as (new & -> & Hts' & Hcl & Hall).
    simpl in *. exists (m :: new). rewrite <- !app_assoc. simpl.
    rewrite Nat.add_succ_r. split; [reflexivity|].
    rewrite Ht, Hts, Hts', Hcl. repeat split. now constructor.
Qed.

End MatchFacts.

Lemma dot_acc_zero_terms acc a b :
  sf_is_zero (Prim2SF acc) = true ->
  Forall2 (fun x y => PrimFloat.is_zero (x * y) = true) a b ->
  exists d, np.dot_acc acc a b = Ok d /\ sf_is_zero (Prim2SF d) = true.
Proof.
  intros Hacc H. revert acc Hacc.
  induction H as [|x y a b Hxy H IH]; intros acc Hacc; simpl; eauto.
  apply IH. rewrite add_spec. rewrite is_zero_sf in Hxy.
  now apply SFadd_zero_zero.
Qed.

(** With an all-zero vector on either side the division is 0/0: the
    similarity is NaN. *)
Lemma cosine_similarity_zero_vector (a b : list float) :
  length a = length b ->
  Forall (fun x => PrimFloat.is_zero x = true) a \/
  Forall (fun x => PrimFloat.is_zero x = true) b ->
  exists x,
    SemanticJobMatcher._cosine_similarity a b = Ok x /\
    PrimFloat.is_nan x = true.
Proof.
  intros Hlen Hz. unfold SemanticJobMatcher._cosine_similarity.
  assert (Hd : exists d, np.dot a b = Ok d /\
                         sf_zero_or_nan (Prim2SF d) = true).
  { destruct Hz as [Hz|Hz].
    - now apply dot_acc_zeros_l.
    - now apply dot_acc_zeros_r. }
  destruct Hd as (d & -> & Hd).
  assert (Hn : exists n1 n2,
             np.linalg_norm a = Ok n1 /\
             np.linalg_norm b = Ok n2 /\
             sf_zero_or_nan (Prim2SF (n1 * n2)) = true).
  { destruct Hz as [Hz|Hz].
    - destruct (linalg_norm_zeros _ Hz) as (n1 & Hn1 & Hz1).
      destruct (linalg_norm_ok b) as (n2 & Hn2).
      exists n1, n2. repeat split; try assumption.
      rewrite mul_spec. now apply SFmul_zero_l.
    - destruct (linalg_norm_zeros _ Hz) as (n2 & Hn2 & Hz2).
      destruct (linalg_norm_ok a) as (n1 & Hn1).
      exists n1, n2. repeat split; try assumption.
      rewrite mul_spec. now apply SFmul_zero_r. }
  destruct Hn as (n1 & n2 & -> & -> & Hn). simpl.
  eexists. split; [reflexivity|].
  apply nan_rescaled. rewrite div_spec. now apply SFdiv_zero_or_nan.
Qed.

(** Orthogonal vectors: a dot product of zero over a positive product of
    norms. *)
Lemma cosine_similarity_orthogonal (a b : list float) (n1 n2 : float) :
  Forall2 (fun x y => PrimFloat.is_zero (x * y) = true) a b ->
  np.linalg_norm a = Ok n1 ->
  np.linalg_norm b = Ok n2 ->
  PrimFloat.ltb 0 (n1 * n2) = true ->
  SemanticJobMatcher._cosine_similarity a b = Ok 0.5%float.
Proof.
  intros Hort Hn1 Hn2 Hpos. unfold SemanticJobMatcher._cosine_similarity.
  destruct (dot_acc_zero_terms 0 _ _ eq_refl Hort) as (d & Hd & Hz).
  unfold np.dot. rewrite Hd, Hn1, Hn2. simpl. do 2 f_equal.
  assert (H1 : (d / (n1 * n2) + 1 = 1)%float).
  { apply Prim2SF_inj. rewrite add_spec, div_spec.
    rewrite ltb_spec in Hpos.
    change (Prim2SF 0) with (S754_zero false) in Hpos.
    change (Prim2SF 1) with (S754_finite false (2 ^ 52) (-52)).
    destruct (Prim2SF d) as [s| | |]; try discriminate Hz.
    destruct (Prim2SF (n1 * n2)) as [?|[|]| |[|] ? ?];
      try discriminate Hpos; reflexivity. }
  rewrite H1. reflexivity.
Qed.

(** X1.  [_cosine_similarity] never raises: it returns a number for every
    pair of vectors, and that number is [0.0] when the vectors differ in
    length (the [ValueError] of [np.dot] is swallowed by the [except]
    clause). *)
Theorem X1_cosine_similarity_never_raises (embedding1 embedding2 : list float) :
  (exists x,
     SemanticJobMatcher._cosine_similarity embedding1 embedding2 = Ok x) /\
  (length embedding1 <> length embedding2 ->
   SemanticJobMatcher._cosine_similarity embedding1 embedding2 = Ok 0%float).
Proof.
  split; [apply cosine_similarity_ok|].
  intros H. unfold SemanticJobMatcher._cosine_similarity, np.dot.
  now rewrite (dot_acc_mismatch _ _ _ H).
Qed.

(** X2.  An all-zero vector does not make [_cosine_similarity] fail: when
    either embedding has only zero components (and the lengths agree) the
    division is 0/0 and the function returns NaN, which is neither an error
    nor a similarity. *)
Theorem X2_cosine_similarity_zero_vector_is_nan
  (embedding1 embedding2 : list float) :
  length embedding1 = length embedding2 ->
  Forall (fun x => PrimFloat.is_zero x = true) embedding1 \/
  Forall (fun x => PrimFloat.is_zero x = true) embedding2 ->
  exists x,
    SemanticJobMatcher._cosine_similarity embedding1 embedding2 = Ok x /\
    PrimFloat.is_nan x = true.
Proof. apply cosine_similarity_zero_vector. Qed.

(** X3.  For orthogonal vectors (every product of matching components is
    zero) whose norms have a positive product, [_cosine_similarity] is
    exactly [0.5]. *)
Theorem X3_cosine_similarity_orthogonal_is_half
  (embedding1 embedding2 : list float) (n1 n2 : float) :
  Forall2 (fun x y => PrimFloat.is_zero (x * y) = true)
    embedding1 embedding2 ->
  np.linalg_norm embedding1 = Ok n1 ->
  np.linalg_norm embedding2 = Ok n2 ->
  PrimFloat.ltb 0 (n1 * n2) = true ->
  SemanticJobMatcher._cosine_similarity embedding1 embedding2 = Ok 0.5%float.
Proof. apply cosine_similarity_orthogonal. Qed.

(** X4.  [_cosine_similarity] is symmetric in its two arguments, bit for
    bit. *)
Theorem X4_cosine_similarity_symmetric (embedding1 embedding2 : list float) :
  SemanticJobMatcher._cosine_similarity embedding1 embedding2
  = SemanticJobMatcher._cosine_similarity embedding2 embedding1.
Proof.
  unfold SemanticJobMatcher._cosine_similarity, np.dot.
  rewrite (dot_acc_comm 0 embedding1 embedding2).
  destruct (np.dot_acc 0 embedding2 embedding1); [|reflexivity]. simpl.
  destruct (np.linalg_norm embedding1), (np.linalg_norm embedding2); simpl;
    try reflexivity.
  now rewrite float_mul_comm.
Qed.



(** ** Skill matching *)

Lemma filter_partition_perm {A : Type} (p : A -> bool) (l : list A) :
  Permutation (List.filter p l ++ List.filter (fun x => negb (p x)) l) l.
Proof.
  induction l as [|x l IH]; simpl; [reflexivity|].
  destruct (p x); simpl.
  - now constructor.
  - rewrite <- Permutation_middle. now constructor.
Qed.

Lemma filter_all {A : Type} (p : A -> bool) (l : list A) :
  (forall x, In x l -> p x = true) -> List.filter p l = l.
Proof.
  intros H. induction l as [|x l IH]; simpl; [reflexivity|].
  rewrite (H x (or_introl eq_refl)). f_equal.
  apply IH. intros y Hy. apply H. now right.
Qed.

Lemma filter_none {A : Type} (p : A -> bool) (l : list A) :
  (forall x, In x l -> p x = false) -> List.filter p l = [].
Proof.
  intros H. induction l as [|x l IH]; simpl; [reflexivity|].
  rewrite (H x (or_introl eq_refl)).
  apply IH. intros y Hy. apply H. now right.
Qed.

Lemma _match_skills_default cv required preferred :
  JobMatcher._match_skills cv required preferred
  = SemanticJobMatcher._calculate_keyword_match cv required
      (default [] preferred).
Proof.
  destruct preferred as [preferred|]; [apply _match_skills_eq|].
  unfold JobMatcher._match_skills,
    SemanticJobMatcher._calculate_keyword_match. simpl.
  destruct (len required =? 0)%Z; [reflexivity|].
  destruct (PyFloat.int_true_div _ _); reflexivity.
Qed.

(** A quotient [n / n] is exactly 1. *)
Lemma int_true_div_same n : 0 < n -> PyFloat.int_true_div n n = Ok 1%float.
Proof.
  intros Hn.
  destruct (int_true_div_unit n n ltac:(lia) ltac:(lia) Hn)
    as (q & Hq & _ & Hle).
  destruct (int_true_div_above n n 1 _ _ Hn Hn ltac:(lia) ltac:(lia)
              round_spec_one') as [Hr|(q' & Hq' & _ & Hge)].
  - rewrite Hq in Hr. discriminate.
  - rewrite Hq in Hq'. injection Hq' as <-.
    rewrite Hq. f_equal.
    rewrite <- (min_one_below q Hle). apply min_one_above.
    rewrite leb_spec. exact Hge.
Qed.

(** X5.  Both skill matchers always return (no exception, whatever the
    lists: empty, with duplicates, with nothing in common), and the score
    they return lies in [0, 1]. *)
Theorem X5_skill_score_in_unit_interval
  (cv_skills required_skills : list string)
  (preferred_skills : option (list string)) :
  exists score matched missing,
    JobMatcher._match_skills cv_skills required_skills preferred_skills
    = Ok (score, matched, missing) /\
    SemanticJobMatcher._calculate_keyword_match cv_skills required_skills
      (default [] preferred_skills)
    = Ok (score, matched, missing) /\
    PrimFloat.leb 0 score = true /\ PrimFloat.leb score 1 = true.
Proof.
  rewrite _match_skills_default.
  destruct (keyword_match_ok cv_skills required_skills
              (default [] preferred_skills)) as (score & H & H0 & H1).
  eauto 10.
Qed.

(** X6.  The [matched] and [missing] lists returned by
    [_calculate_keyword_match] split the lower-cased required skills: a
    required skill is matched when its lower-case form is the lower-case form
    of a CV skill and missing otherwise, and the two lists together are a
    rearrangement of the required list (duplicates included). *)
Theorem X6_matched_and_missing_partition_required
  (cv_skills required_skills preferred_skills : list string)
  (score : float) (matched missing : list string) :
  SemanticJobMatcher._calculate_keyword_match
    cv_skills required_skills preferred_skills
  = Ok (score, matched, missing) ->
  (forall s, In s matched <->
             In s (List.map lower required_skills) /\
             In s (List.map lower cv_skills)) /\
  (forall s, In s missing <->
             In s (List.map lower required_skills) /\
             ~ In s (List.map lower cv_skills)) /\
  Permutation (matched ++ missing) (List.map lower required_skills).
Proof.
  intros H.
  destruct (keyword_match_ok cv_skills required_skills preferred_skills)
    as (score' & H' & _).
  rewrite H' in H. injection H as _ <- <-.
  split; [|split].
  - intros s. rewrite filter_In, str_in_In. tauto.
  - intros s.
    rewrite filter_In, negb_true_iff, <- not_true_iff_false, str_in_In.
    tauto.
  - apply filter_partition_perm.
Qed.

(** X7.  The two skill matchers of the repository are one function:
    [JobMatcher._match_skills] returns what
    [SemanticJobMatcher._calculate_keyword_match] returns, an absent
    [preferred_skills] standing for the empty list. *)
Theorem X7_skill_matchers_agree
  (cv_skills required_skills : list string)
  (preferred_skills : option (list string)) :
  JobMatcher._match_skills cv_skills required_skills preferred_skills
  = SemanticJobMatcher._calculate_keyword_match cv_skills required_skills
      (default [] preferred_skills).
Proof. apply _match_skills_default. Qed.

(** X8.  When the lower-case form of every required skill is that of some
    CV skill and something is required, the score is exactly [1.0], all
    required skills are matched and none is missing, whatever the preferred
    skills. *)
Theorem X8_all_required_skills_present
  (cv_skills required_skills preferred_skills : list string) :
  required_skills <> [] ->
  (forall r, In r required_skills ->
             In (lower r) (List.map lower cv_skills)) ->
  SemanticJobMatcher._calculate_keyword_match
    cv_skills required_skills preferred_skills
  = Ok (1%float, List.map lower required_skills, []).
Proof.
  intros Hne Hall.
  assert (Hin : forall s, In s (List.map lower required_skills) ->
                          str_in s (List.map lower cv_skills) = true).
  { intros s Hs. apply in_map_iff in Hs. destruct Hs as (r & <- & Hr).
    apply str_in_In. now apply Hall. }
  unfold SemanticJobMatcher._calculate_keyword_match. cbv zeta.
  rewrite (filter_all _ _ Hin).
  rewrite (filter_none (fun s => negb (str_in s (List.map lower cv_skills)))
             (List.map lower required_skills))
    by (intros s Hs; now rewrite (Hin s Hs)).
  destruct (len required_skills =? 0) eqn:E.
  { apply len_zero_nil in E. contradiction. }
  rewrite len_map_lower.
  assert (Hn : 0 < len required_skills).
  { pose proof (len_nonneg required_skills). apply Z.eqb_neq in E. lia. }
  rewrite (int_true_div_same _ Hn). simpl.
  destruct preferred_skills as [|p preferred]; [reflexivity|].
  destruct (int_true_div_unit
              (len (List.filter
                      (fun s => str_in s (List.map lower cv_skills))
                      (List.map lower (p :: preferred))))
              (len (p :: preferred))) as (r & Hr & Hr0 & Hr1).
  { apply len_nonneg. }
  { rewrite <- (len_map_lower (p :: preferred)). apply len_filter_le. }
  { unfold len. simpl. lia. }
  rewrite Hr. simpl. do 3 f_equal.
  apply min_one_above.
  destruct (weighted_term r 0.1 _ _ eq_refl Hr0 Hr1) as [Hb Hc].
  change 1%float with (1 + 0)%float at 1.
  apply float_add_mono; try reflexivity.
  - apply (leb_bounded_finite _ (1 * 0.1)%float); auto.
  - now apply class_leb_zero.
Qed.

(** C6, as amended.  The [matched] and [missing] lists returned by
    [_calculate_keyword_match] hold lower-case forms, and partition the set
    of the lower-case forms of the required skills: together they are that
    set, and they have nothing in common; and the score lies in [0, 1].
    This holds for every required list, the empty one included. *)
Theorem C6_matched_and_missing_partition_the_required_set
  (cv_skills required_skills preferred_skills : list string) :
  exists score matched missing,
    SemanticJobMatcher._calculate_keyword_match
      cv_skills required_skills preferred_skills
    = Ok (score, matched, missing) /\
    (list_to_set matched ∪ list_to_set missing : gset string)
    = skill_set required_skills /\
    (list_to_set matched ∩ list_to_set missing : gset string) = ∅ /\
    PrimFloat.leb 0 score = true /\ PrimFloat.leb score 1 = true.
Proof.
  destruct (keyword_match_ok cv_skills required_skills preferred_skills)
    as (score & H & H0 & H1).
  eexists _, _, _. split; [exact H|].
  rewrite filter_in_as_set, filter_notin_as_set. unfold skill_set.
  set (R := list_to_set (List.map lower required_skills) : gset string).
  set (C := list_to_set (List.map lower cv_skills) : gset string).
  split; [|split; [|split; assumption]].
  - apply set_eq. intros x. rewrite elem_of_union, elem_of_intersection,
      elem_of_difference.
    destruct (decide (x ∈ C)); tauto.
  - apply set_eq. intros x. rewrite elem_of_intersection,
      elem_of_intersection, elem_of_difference, elem_of_empty. tauto.
Qed.

(** C7, as amended.  Both skill matchers compare skills by their
    lower-case forms and by nothing else: a required skill is matched when
    some CV skill has the same lower-case form, and missing otherwise.
    Nothing is trimmed and no synonym is resolved: two skills with different
    lower-case forms never match. *)
Theorem C7_skills_are_compared_by_lower_case_form_only
  (cv_skills required_skills : list string)
  (preferred_skills : option (list string)) :
  exists score matched missing,
    SemanticJobMatcher._calculate_keyword_match cv_skills required_skills
      (default [] preferred_skills) = Ok (score, matched, missing) /\
    JobMatcher._match_skills cv_skills required_skills preferred_skills
    = Ok (score, matched, missing) /\
    forall r, In r required_skills ->
      (In (lower r) matched <->
       exists c, In c cv_skills /\ lower c = lower r) /\
      (In (lower r) missing <->
       forall c, In c cv_skills -> lower c <> lower r).
Proof.
  rewrite _match_skills_default.
  destruct (keyword_match_ok cv_skills required_skills
              (default [] preferred_skills)) as (score & H & _).
  eexists _, _, _. split; [exact H|]. split; [exact H|].
  intros r Hr.
  assert (Hin : In (lower r) (List.map lower required_skills))
    by now apply in_map.
  assert (Hcv : In (lower r) (List.map lower cv_skills) <->
                exists c, In c cv_skills /\ lower c = lower r).
  { rewrite in_map_iff. split; intros (c & ? & ?); eauto. }
  split.
  - rewrite filter_In, str_in_In, Hcv. tauto.
  - rewrite filter_In, negb_true_iff, <- not_true_iff_false, str_in_In, Hcv.
    split.
    + intros [_ Hn] c Hc E. apply Hn. eauto.
    + intros Hn. split; [assumption|]. intros (c & Hc & E).
      exact (Hn c Hc E).
Qed.

(** ** Experience *)

(** With years that are not negative, a returned experience score lies in
    [0, 1]. *)
Lemma experience_match_ok_unit cv_years required_years x :
  0 <= cv_years -> 0 <= required_years ->
  SemanticJobMatcher._calculate_experience_match cv_years required_years
  = Ok x ->
  PrimFloat.leb 0 x = true /\ PrimFloat.leb x 1 = true.
Proof.
  intros Hcv Hreq. unfold SemanticJobMatcher._calculate_experience_match.
  destruct (Z.eqb_spec required_years 0) as [->|Hne].
  - intros [= <-]. auto.
  - destruct (Z_le_gt_dec cv_years required_years) as [Hle|Hgt].
    + destruct (int_true_div_unit cv_years required_years Hcv Hle
                  ltac:(lia)) as (q & -> & Hq0 & Hq1).
      simpl. rewrite (min_one_below q Hq1). intros [= <-]. auto.
    + destruct (int_true_div_above cv_years required_years 1 _ _
                  ltac:(lia) ltac:(lia) ltac:(lia) ltac:(lia)
                  round_spec_one') as [->|(q & -> & _ & Hge)];
        [discriminate|].
      simpl. rewrite (min_one_above q) by (rewrite leb_spec; exact Hge).
      intros [= <-]. auto.
Qed.

(** X9.  For years of experience that are not negative and a ratio that
    fits in a float, [_calculate_experience_match] returns a score in
    [0, 1], which is exactly [1.0] as soon as the candidate has the required
    years (and when nothing is required). *)
Theorem X9_experience_score_in_unit_interval (cv_years required_years : Z) :
  0 <= cv_years -> 0 <= required_years ->
  cv_years <= max_float_int * required_years \/ required_years = 0 ->
  exists x,
    SemanticJobMatcher._calculate_experience_match cv_years required_years
    = Ok x /\
    PrimFloat.leb 0 x = true /\ PrimFloat.leb x 1 = true /\
    (required_years <= cv_years -> x = 1%float).
Proof. apply experience_match_unit. Qed.

(** X10.  [_calculate_experience_match] has no guard against large
    numbers: when the candidate's years are at least [2^1024] times the
    required ones the division raises [OverflowError]. *)
Theorem X10_experience_ratio_overflow (cv_years required_years : Z) :
  0 < required_years -> 2 ^ 1024 * required_years <= cv_years ->
  SemanticJobMatcher._calculate_experience_match cv_years required_years
  = Raise OverflowError.
Proof.
  intros Hreq Hbig. unfold SemanticJobMatcher._calculate_experience_match.
  destruct (Z.eqb_spec required_years 0); [lia|].
  now rewrite (int_true_div_overflow _ _ Hreq Hbig).
Qed.

(** X11.  [_calculate_experience_match] does not validate its input: for
    negative years of experience and a positive requirement it never reports
    an invalid input.  It returns a number that is not positive; the one
    exception is an [OverflowError] when the ratio does not fit in a float,
    which happens from [2^1024] times the requirement on and never up to the
    largest float times the requirement. *)
Theorem X11_negative_years_are_not_rejected (cv_years required_years : Z) :
  cv_years < 0 -> 0 < required_years ->
  (SemanticJobMatcher._calculate_experience_match cv_years required_years
   = Raise OverflowError \/
   exists x,
     SemanticJobMatcher._calculate_experience_match cv_years required_years
     = Ok x /\ PrimFloat.leb x 0 = true) /\
  (- cv_years <= max_float_int * required_years ->
   exists x,
     SemanticJobMatcher._calculate_experience_match cv_years required_years
     = Ok x /\ PrimFloat.leb x 0 = true) /\
  (2 ^ 1024 * required_years <= - cv_years ->
   SemanticJobMatcher._calculate_experience_match cv_years required_years
   = Raise OverflowError).
Proof.
  intros Hcv Hreq. unfold SemanticJobMatcher._calculate_experience_match.
  destruct (Z.eqb_spec required_years 0); [lia|].
  assert (Hmin : forall q, PrimFloat.leb q 0 = true -> PyFloat.min q 1 = q).
  { intros q Hq. apply min_one_below.
    apply (leb_trans q 0 1 Hq). reflexivity. }
  split; [|split].
  - destruct (int_true_div_negative _ _ Hcv Hreq) as [->|(q & -> & Hq)];
      [now left|].
    right. simpl. exists q. now rewrite (Hmin q Hq).
  - intros Hmax.
    destruct (int_true_div_neg _ _ Hcv Hreq Hmax) as (q & -> & Hq). simpl.
    exists q. now rewrite (Hmin q Hq).
  - intros Hbig.
    now rewrite (int_true_div_neg_overflow _ _ Hcv Hreq Hbig).
Qed.


(** ** The ranking as a whole *)

(** X12.  [match_cv_to_jobs] has no [try]: the only exception that can
    leave it is the [OverflowError] of an experience ratio.  When, for every
    posting of the catalog, the candidate's years are at most the largest
    float times the required years (or nothing is required), it returns
    normally. *)
Theorem X12_ranking_raises_only_overflow
  (get_embedding : string -> option (list float)) (clock : nat -> string)
  (format_percent : float -> string)
  (cv_text : string) (cv_skills : list string) (cv_experience_years : Z)
  (w : SemanticJobMatcher.World) :
  (forall e,
     snd (SemanticJobMatcher.match_cv_to_jobs get_embedding clock
            format_percent cv_text cv_skills cv_experience_years w)
     = Raise e -> e = OverflowError) /\
  (Forall (fun it =>
             Z.abs cv_experience_years
             <= max_float_int * Z.abs (JobPosting.experience_years (snd it)))
          (SemanticJobMatcher.jobs_cache w) ->
   exists w' ms,
     SemanticJobMatcher.match_cv_to_jobs get_embedding clock format_percent
       cv_text cv_skills cv_experience_years w = (w', Ok ms)).
Proof.
  unfold SemanticJobMatcher.match_cv_to_jobs. split.
  - intros e. destruct (negb _); [discriminate|].
    pose proof (match_loop_raises get_embedding format_percent clock
                  (default [] (get_embedding cv_text)) cv_skills
                  cv_experience_years (SemanticJobMatcher.jobs_cache w) []
                  (SemanticJobMatcher.ticks w)) as Hr.
    destruct (SemanticJobMatcher.match_loop _ _ _ _ _ _ _ _ _)
      as [[c t] [ms|e']]; simpl in *; [discriminate|].
    intros [= <-]. now apply Hr.
  - intros Hall. destruct (negb _); [eauto|].
    destruct (match_loop_total get_embedding format_percent clock
                (default [] (get_embedding cv_text)) cv_skills
                cv_experience_years (SemanticJobMatcher.jobs_cache w) []
                (SemanticJobMatcher.ticks w)) as (c & t & ms & ->).
    + eapply Forall_impl; [|exact Hall].
      intros [id job] Hb now. simpl in *.
      destruct (experience_match_total _ _ Hb) as (x & Hx).
      apply (score_job_returns _ _ _ _ _ _ _ x).
      now rewrite (proj2 (proj2 (proj2 (proj2 (proj2
                    (fill_embedding_fields get_embedding job)))))).
    + simpl. eauto.
Qed.

(** X13.  A candidate whose stated years are at least [2^1024] times the
    requirement of one posting that is scored makes the whole ranking fail
    with [OverflowError]: no result is returned for any posting. *)
Theorem X13_ranking_overflow
  (get_embedding : string -> option (list float)) (clock : nat -> string)
  (format_percent : float -> string)
  (cv_text : string) (cv_skills : list string) (cv_experience_years : Z)
  (w : SemanticJobMatcher.World) :
  truthy (get_embedding cv_text) = true ->
  Exists (fun it =>
            scored get_embedding it = true /\
            0 < JobPosting.experience_years (snd it) /\
            2 ^ 1024 * JobPosting.experience_years (snd it)
            <= cv_experience_years)
         (SemanticJobMatcher.jobs_cache w) ->
  snd (SemanticJobMatcher.match_cv_to_jobs get_embedding clock format_percent
         cv_text cv_skills cv_experience_years w)
  = Raise OverflowError.
Proof.
  intros Hcv Hex. unfold SemanticJobMatcher.match_cv_to_jobs.
  rewrite Hcv. simpl.
  pose proof (match_loop_overflow get_embedding format_percent clock
                (default [] (get_embedding cv_text)) cv_skills
                cv_experience_years (SemanticJobMatcher.jobs_cache w) []
                (SemanticJobMatcher.ticks w)) as Ho.
  destruct (SemanticJobMatcher.match_loop _ _ _ _ _ _ _ _ _) as [[c t] r].
  simpl in *. rewrite Ho; [reflexivity|].
  eapply Exists_impl; [|exact Hex].
  intros it (Hs & Hpos & Hbig). split; [assumption|].
  unfold SemanticJobMatcher._calculate_experience_match.
  destruct (Z.eqb_spec (JobPosting.experience_years (snd it)) 0); [lia|].
  now rewrite (int_true_div_overflow _ _ Hpos Hbig).
Qed.

(** X14.  With years that are not negative (the candidate's and the
    postings'), every record returned by [match_cv_to_jobs] has a keyword
    score and an experience score in [0, 1], and an overall score in
    [0.105, 0.955] whenever its embedding similarity lies in [0, 1]. *)
Theorem X14_ranking_scores_in_range
  (get_embedding : string -> option (list float)) (clock : nat -> string)
  (format_percent : float -> string)
  (cv_text : string) (cv_skills : list string) (cv_experience_years : Z)
  (w w' : SemanticJobMatcher.World) (ms : list EmbeddingMatch.t) :
  0 <= cv_experience_years ->
  Forall (fun it => 0 <= JobPosting.experience_years (snd it))
         (SemanticJobMatcher.jobs_cache w) ->
  SemanticJobMatcher.match_cv_to_jobs get_embedding clock format_percent
    cv_text cv_skills cv_experience_years w = (w', Ok ms) ->
  Forall (fun m =>
            PrimFloat.leb 0 (EmbeddingMatch.keyword_match_score m) = true /\
            PrimFloat.leb (EmbeddingMatch.keyword_match_score m) 1 = true /\
            PrimFloat.leb 0 (EmbeddingMatch.experience_match m) = true /\
            PrimFloat.leb (EmbeddingMatch.experience_match m) 1 = true /\
            (PrimFloat.leb 0 (EmbeddingMatch.embedding_similarity m) = true ->
             PrimFloat.leb (EmbeddingMatch.embedding_similarity m) 1 = true ->
             PrimFloat.leb 0.105 (EmbeddingMatch.overall_score m) = true /\
             PrimFloat.leb (EmbeddingMatch.overall_score m) 0.955 = true))
         ms.
Proof.
  intros Hcv Hreq. unfold SemanticJobMatcher.match_cv_to_jobs.
  destruct (negb _).
  { intros [= _ <-]. constructor. }
  destruct (SemanticJobMatcher.match_loop _ _ _ _ _ _ _ _ _)
    as [[c t] [unsorted|e]] eqn:El; simpl; [|discriminate].
  intros [= _ <-].
  apply (Permutation_Forall
           (Permutation_sym
              (sort_reverse_perm EmbeddingMatch.overall_score unsorted))).
  pose proof (match_loop_records _ _ _ _ _ _ _ _ _ _ _ El) as Hrec.
  eapply Forall_impl; [|exact Hrec].
  intros m ([id job] & now & Hin & Hs). simpl in Hs.
  destruct (score_job_fields _ _ _ _ _ _ _ _ Hs)
    as (_ & _ & _ & _ & _ & _ & Hk & He & _ & Ho).
  rewrite Forall_forall in Hreq. specialize (Hreq _ Hin). simpl in Hreq.
  destruct (fill_embedding_fields get_embedding job)
    as (_ & _ & _ & Er & Ep & Ey).
  rewrite Er, Ep in Hk. rewrite Ey in He.
  destruct (keyword_match_ok cv_skills (JobPosting.required_skills job)
              (JobPosting.preferred_skills job)) as (k & Hk' & Hk0 & Hk1).
  rewrite Hk' in Hk. injection Hk as Hk _ _. subst k.
  destruct (experience_match_ok_unit _ _ _ Hcv Hreq He) as [He0 He1].
  repeat split; try assumption.
  - rewrite Ho. now apply four_factor_bounds.
  - rewrite Ho. now apply four_factor_bounds.
Qed.

(** C10.  Every record returned by [match_cv_to_jobs] comes from the
    four-factor blend with the education term fixed at [0.7]; when its
    embedding similarity, keyword score and experience score lie in [0, 1]
    its overall score lies in [0.105, 0.955], so it is above 0 and below
    1. *)
Theorem C10_overall_score_between_0105_and_0955
  (get_embedding : string -> option (list float)) (clock : nat -> string)
  (format_percent : float -> string)
  (cv_text : string) (cv_skills : list string) (cv_experience_years : Z)
  (w w' : SemanticJobMatcher.World) (ms : list EmbeddingMatch.t) :
  SemanticJobMatcher.match_cv_to_jobs get_embedding clock format_percent
    cv_text cv_skills cv_experience_years w = (w', Ok ms) ->
  Forall (fun m =>
            EmbeddingMatch.education_match m = 0.7%float /\
            EmbeddingMatch.overall_score m
            = four_factor (EmbeddingMatch.embedding_similarity m)
                (EmbeddingMatch.keyword_match_score m)
                (EmbeddingMatch.experience_match m) 0.7 /\
            (PrimFloat.leb 0 (EmbeddingMatch.embedding_similarity m) = true ->
             PrimFloat.leb (EmbeddingMatch.embedding_similarity m) 1 = true ->
             PrimFloat.leb 0 (EmbeddingMatch.keyword_match_score m) = true ->
             PrimFloat.leb (EmbeddingMatch.keyword_match_score m) 1 = true ->
             PrimFloat.leb 0 (EmbeddingMatch.experience_match m) = true ->
             PrimFloat.leb (EmbeddingMatch.experience_match m) 1 = true ->
             PrimFloat.leb 0.105 (EmbeddingMatch.overall_score m) = true /\
             PrimFloat.leb (EmbeddingMatch.overall_score m) 0.955 = true /\
             PrimFloat.ltb 0 (EmbeddingMatch.overall_score m) = true /\
             PrimFloat.ltb (EmbeddingMatch.overall_score m) 1 = true))
         ms.
Proof.
  unfold SemanticJobMatcher.match_cv_to_jobs.
  destruct (negb _).
  { intros [= _ <-]. constructor. }
  destruct (SemanticJobMatcher.match_loop _ _ _ _ _ _ _ _ _)
    as [[c t] [unsorted|e]] eqn:El; simpl; [|discriminate].
  intros [= _ <-].
  apply (Permutation_Forall
           (Permutation_sym
              (sort_reverse_perm EmbeddingMatch.overall_score unsorted))).
  pose proof (match_loop_records _ _ _ _ _ _ _ _ _ _ _ El) as Hrec.
  eapply Forall_impl; [|exact Hrec].
  intros m ([id job] & now & Hin & Hs). simpl in Hs.
  destruct (score_job_fields _ _ _ _ _ _ _ _ Hs)
    as (_ & _ & _ & _ & _ & _ & _ & _ & Hedu & Ho).
  split; [assumption|]. split; [assumption|].
  intros Hs0 Hs1 Hk0 Hk1 He0 He1.
  destruct (four_factor_bounds _ _ _ Hs0 Hs1 Hk0 Hk1 He0 He1) as [Hlo Hhi].
  rewrite Ho. repeat split; try assumption.
  - apply (ltb_leb_trans 0 0.105 _ eq_refl Hlo).
  - apply (leb_ltb_trans _ 0.955 1 Hhi eq_refl).
Qed.

(** ** Order of the ranking *)

Section LoopOrder.

Import SemanticJobMatcher.

Variable get_embedding : string -> option (list float).
Variable format_percent : float -> string.
Variable clock : nat -> string.

Abbreviation fill := (fill_embedding get_embedding).
Abbreviation score := (score_job format_percent).
Abbreviation loop := (match_loop get_embedding clock format_percent).

(** The records are made in catalog order, and stamped with successive
    readings of the clock. *)
Lemma match_loop_order cv sk yrs items matches t cache' t' ms :
  loop cv sk yrs items matches t = (cache', t', Ok ms) ->
  exists new,
    ms = matches ++ new /\
    List.map EmbeddingMatch.job_id new
    = List.map fst (List.filter (scored get_embedding) items) /\
    List.map EmbeddingMatch.timestamp new
    = List.map clock (List.seq t (length new)).
Proof.
  revert matches t cache' t' ms.
  induction items as [|[id job] rest IH]; intros matches t cache' t' ms; simpl.
  - intros [= <- <- <-]. exists []. now rewrite app_nil_r.
  - destruct (score cv sk yrs id (fill job) (clock t)) as [[m|]|e] eqn:Es.
    + destruct (loop cv sk yrs rest (matches ++ [m]) (S t))
        as [[c t1] r] eqn:El.
      intros [= <- <- ->].
      destruct (IH _ _ _ _ _ El) as (new & -> & Hid & Hts).
      exists (m :: new). rewrite <- app_assoc. split; [reflexivity|].
      destruct (score_job_fields _ _ _ _ _ _ _ _ Es)
        as (Ht & Hjid & _ & _ & Hnow & _).
      unfold scored at 1. simpl. rewrite Ht. simpl.
      now rewrite Hid, Hts, Hjid, Hnow.
    + destruct (loop cv sk yrs rest matches t) as [[c t1] r] eqn:El.
      intros [= <- <- ->].
      destruct (IH _ _ _ _ _ El) as (new & -> & Hid & Hts).
      exists new. split; [reflexivity|]. split; [|assumption].
      unfold scored at 1. simpl.
      destruct (truthy (JobPosting.embedding (fill job))) eqn:Et;
        [|assumption].
      unfold score_job in Es. rewrite Et in Es.
      destruct (_cosine_similarity _ _); [|discriminate]. simpl in Es.
      destruct (_calculate_keyword_match _ _ _) as [[[k mm] mi]|];
        [|discriminate]. simpl in Es.
      destruct (_calculate_experience_match _ _); discriminate.
    + intros [= _ _ ?]; discriminate.
Qed.

End LoopOrder.

(** X15.  When no overall score is NaN, the list returned by
    [match_cv_to_jobs] is sorted by overall score, highest first: every
    record scores at least as much as every record after it. *)
Theorem X15_ranking_sorted_without_nan
  (get_embedding : string -> option (list float)) (clock : nat -> string)
  (format_percent : float -> string)
  (cv_text : string) (cv_skills : list string) (cv_experience_years : Z)
  (w w' : SemanticJobMatcher.World) (ms : list EmbeddingMatch.t) :
  SemanticJobMatcher.match_cv_to_jobs get_embedding clock format_percent
    cv_text cv_skills cv_experience_years w = (w', Ok ms) ->
  no_nan EmbeddingMatch.overall_score ms ->
  StronglySorted (before EmbeddingMatch.overall_score) ms.
Proof.
  unfold SemanticJobMatcher.match_cv_to_jobs.
  destruct (negb _).
  { intros [= _ <-] _. constructor. }
  destruct (SemanticJobMatcher.match_loop _ _ _ _ _ _ _ _ _)
    as [[c t] [unsorted|e]]; simpl; [|discriminate].
  intros [= _ <-] Hnan. apply sort_reverse_sorted.
  exact (Permutation_Forall
           (sort_reverse_perm EmbeddingMatch.overall_score unsorted) Hnan).
Qed.

(** X16.  The sort is stable: when no overall score is NaN, the records
    of [match_cv_to_jobs] that have the same overall score stand in the order
    of the catalog.  The result is a rearrangement of the records made in
    catalog order (one per posting with an embedding) that leaves the records
    of every given score in place. *)
Theorem X16_ranking_ties_keep_catalog_order
  (get_embedding : string -> option (list float)) (clock : nat -> string)
  (format_percent : float -> string)
  (cv_text : string) (cv_skills : list string) (cv_experience_years : Z)
  (w w' : SemanticJobMatcher.World) (ms : list EmbeddingMatch.t) :
  truthy (get_embedding cv_text) = true ->
  SemanticJobMatcher.match_cv_to_jobs get_embedding clock format_percent
    cv_text cv_skills cv_experience_years w = (w', Ok ms) ->
  no_nan EmbeddingMatch.overall_score ms ->
  exists unsorted,
    List.map EmbeddingMatch.job_id unsorted
    = List.map fst (List.filter (scored get_embedding)
                      (SemanticJobMatcher.jobs_cache w)) /\
    Permutation ms unsorted /\
    forall k,
      List.filter
        (fun m => PrimFloat.eqb (EmbeddingMatch.overall_score m) k) ms
      = List.filter
          (fun m => PrimFloat.eqb (EmbeddingMatch.overall_score m) k)
          unsorted.
Proof.
  intros Hcv. unfold SemanticJobMatcher.match_cv_to_jobs. rewrite Hcv. simpl.
  destruct (SemanticJobMatcher.match_loop _ _ _ _ _ _ _ _ _)
    as [[c t] [unsorted|e]] eqn:El; simpl; [|discriminate].
  intros [= _ <-] _.
  destruct (match_loop_order _ _ _ _ _ _ _ _ _ _ _ _ El)
    as (new & Hnew & Hid & _).
  simpl in Hnew. subst new.
  exists unsorted. split; [assumption|]. split.
  - apply sort_reverse_perm.
  - intros k. apply sort_reverse_stable.
Qed.

(** ** A score that is not a number *)

(** A similarity that is NaN makes the blend NaN. *)
Lemma four_factor_nan similarity keyword experience education :
  PrimFloat.is_nan similarity = true ->
  PrimFloat.is_nan (four_factor similarity keyword experience education)
  = true.
Proof.
  rewrite !is_nan_sf. unfold four_factor.
  rewrite !add_spec, !mul_spec.
  destruct (Prim2SF similarity); try discriminate. reflexivity.
Qed.

(** Neighbours of a sorted list are comparable: with two elements or more,
    no key of a sorted list is NaN. *)
Lemma sorted_no_nan {A : Type} (key : A -> float) (p : list A) :
  Sorted (before key) p -> (2 <= length p)%nat -> no_nan key p.
Proof.
  unfold no_nan.
  induction 1 as [|a l Hs IH Hd]; simpl; intros Hlen; [lia|].
  destruct Hd as [|b l' Hab]; [simpl in Hlen; lia|].
  unfold before in Hab. apply leb_not_nan in Hab. destruct Hab as [Hb Ha].
  constructor; [assumption|].
  destruct l' as [|c l'']; [repeat constructor; assumption|].
  apply IH. simpl. lia.
Qed.

Lemma Forall2_In_l {A B : Type} (P : A -> B -> Prop) l1 l2 x :
  Forall2 P l1 l2 -> In x l1 -> exists y, In y l2 /\ P x y.
Proof.
  induction 1 as [|a b l1 l2 Hab H IH]; simpl; [contradiction|].
  intros [<-|Hin].
  - exists b. auto.
  - destruct (IH Hin) as (y & Hy & Hxy). exists y. auto.
Qed.

(** C9.  The claim fails as soon as one score is NaN, and a posting whose
    stored embedding is all zeros gets such a score: when the catalog holds
    one (of the length of the CV embedding) and two records or more are
    returned, the record of that posting has a NaN overall score, and the
    returned records are not in non-increasing order of score, nor is any
    rearrangement of them. *)
Theorem C9_zero_embedding_leaves_the_ranking_unsorted
  (get_embedding : string -> option (list float)) (clock : nat -> string)
  (format_percent : float -> string)
  (cv_text : string) (cv_skills : list string) (cv_experience_years : Z)
  (w w' : SemanticJobMatcher.World) (ms : list EmbeddingMatch.t)
  (id : string) (job : JobPosting.t) :
  truthy (get_embedding cv_text) = true ->
  SemanticJobMatcher.match_cv_to_jobs get_embedding clock format_percent
    cv_text cv_skills cv_experience_years w = (w', Ok ms) ->
  In (id, job) (SemanticJobMatcher.jobs_cache w) ->
  truthy (JobPosting.embedding job) = true ->
  Forall (fun x => PrimFloat.is_zero x = true)
    (default [] (JobPosting.embedding job)) ->
  length (default [] (JobPosting.embedding job))
  = length (default [] (get_embedding cv_text)) ->
  (2 <= length ms)%nat ->
  (exists m, In m ms /\ EmbeddingMatch.job_id m = id /\
             PrimFloat.is_nan (EmbeddingMatch.overall_score m) = true) /\
  forall p, Permutation p ms ->
            ~ Sorted (before EmbeddingMatch.overall_score) p.
Proof.
  intros Hcv Hrun Hin Ht Hz Hlen H2.
  assert (Hm : exists m, In m ms /\ EmbeddingMatch.job_id m = id /\
                 PrimFloat.is_nan (EmbeddingMatch.overall_score m) = true).
  { revert Hrun. unfold SemanticJobMatcher.match_cv_to_jobs.
    rewrite Hcv. simpl.
    destruct (SemanticJobMatcher.match_loop _ _ _ _ _ _ _ _ _)
      as [[c t] [unsorted|e]] eqn:El; simpl; [|discriminate].
    intros [= _ <-].
    destruct (match_loop_ok _ _ _ _ _ _ _ _ _ _ _ _ El)
      as [_ (new & Hnew & HF)].
    simpl in Hnew. subst new.
    assert (Hfill : SemanticJobMatcher.fill_embedding get_embedding job
                    = job).
    { unfold SemanticJobMatcher.fill_embedding. now rewrite Ht. }
    assert (Hsc : In (id, job)
                    (List.filter (scored get_embedding)
                       (SemanticJobMatcher.jobs_cache w))).
    { apply filter_In. split; [assumption|].
      unfold scored. simpl. now rewrite Hfill. }
    destruct (Forall2_In_l _ _ _ _ HF Hsc) as (m & Hmin & now & Hs).
    simpl in Hs. rewrite Hfill in Hs.
    destruct (score_job_fields _ _ _ _ _ _ _ _ Hs)
      as (_ & Hid & _ & _ & _ & Hsim & _ & _ & _ & Ho).
    exists m. split; [|split; [assumption|]].
    - apply (Permutation_in _
               (Permutation_sym
                  (sort_reverse_perm EmbeddingMatch.overall_score unsorted))).
      assumption.
    - destruct (cosine_similarity_zero_vector
                  (default [] (get_embedding cv_text))
                  (default [] (JobPosting.embedding job))
                  (eq_sym Hlen) (or_intror Hz)) as (x & Hx & Hnan).
      rewrite Hx in Hsim. injection Hsim as Hsim.
      rewrite Ho, <- Hsim. now apply four_factor_nan. }
  split; [exact Hm|].
  intros p Hp Hs. destruct Hm as (m & Hmin & _ & Hnan).
  assert (Hno : no_nan EmbeddingMatch.overall_score p).
  { apply sorted_no_nan; [assumption|].
    now rewrite (Permutation_length Hp). }
  unfold no_nan in Hno. rewrite Forall_forall in Hno.
  specialize (Hno m (Permutation_in _ (Permutation_sym Hp) Hmin)).
  congruence.
Qed.

(** X17.  What a normal run of [match_cv_to_jobs] leaves behind: the
    catalog keeps its keys and their order, every posting that lacked an
    embedding holds the answer of the embedder (the others are untouched),
    the clock has been read once per record, and the records carry these
    successive readings. *)
Theorem X17_ranking_fills_the_cache
  (get_embedding : string -> option (list float)) (clock : nat -> string)
  (format_percent : float -> string)
  (cv_text : string) (cv_skills : list string) (cv_experience_years : Z)
  (w w' : SemanticJobMatcher.World) (ms : list EmbeddingMatch.t) :
  truthy (get_embedding cv_text) = true ->
  SemanticJobMatcher.match_cv_to_jobs get_embedding clock format_percent
    cv_text cv_skills cv_experience_years w = (w', Ok ms) ->
  SemanticJobMatcher.jobs_cache w'
  = List.map (fun it =>
                (fst it,
                 SemanticJobMatcher.fill_embedding get_embedding (snd it)))
      (SemanticJobMatcher.jobs_cache w) /\
  SemanticJobMatcher.ticks w'
  = (SemanticJobMatcher.ticks w + length ms)%nat /\
  Permutation (List.map EmbeddingMatch.timestamp ms)
    (List.map clock (List.seq (SemanticJobMatcher.ticks w) (length ms))).
Proof.
  intros Hcv. unfold SemanticJobMatcher.match_cv_to_jobs. rewrite Hcv. simpl.
  destruct (SemanticJobMatcher.match_loop _ _ _ _ _ _ _ _ _)
    as [[c t] [unsorted|e]] eqn:El; simpl; [|discriminate].
  intros [= <- <-]. simpl.
  pose proof (sort_reverse_perm EmbeddingMatch.overall_score unsorted)
    as Hperm.
  rewrite (Permutation_length Hperm).
  destruct (match_loop_ok _ _ _ _ _ _ _ _ _ _ _ _ El) as [Hc _].
  pose proof (match_loop_ticks _ _ _ _ _ _ _ _ _ _ _ _ El) as Ht.
  destruct (match_loop_order _ _ _ _ _ _ _ _ _ _ _ _ El)
    as (new & Hnew & _ & Hts).
  simpl in Hnew, Ht. subst new.
  split; [assumption|]. split; [lia|].
  rewrite <- Hts. now apply Permutation_map.
Qed.

(** ** The catalog *)

Lemma world_eta (w : SemanticJobMatcher.World) :
  SemanticJobMatcher.mkWorld (SemanticJobMatcher.jobs_cache w)
    (SemanticJobMatcher.ticks w) = w.
Proof. now destruct w. Qed.

(** X18.  [add_job] keeps a posting only when the embedder returns an
    embedding of its text.  Otherwise it answers [False] and the catalog is
    unchanged.  When it answers [True], the catalog holds the posting under
    its [job_id], with the embedding and [embedding_cached] set; the other
    entries are untouched; and the order of the keys is kept, a new key
    going to the end. *)
Theorem X18_add_job_stores_embedded_postings
  (get_embedding : string -> option (list float))
  (upload_json : JobPosting.t -> string -> bool)
  (job : JobPosting.t) (w : SemanticJobMatcher.World) :
  let e := get_embedding (SemanticJobMatcher.job_text job) in
  let stored :=
    JobPosting.mk (JobPosting.job_id job) (JobPosting.title job)
      (JobPosting.company job) (JobPosting.description job)
      (JobPosting.required_skills job) (JobPosting.preferred_skills job)
      (JobPosting.experience_years job) (JobPosting.location job)
      (JobPosting.salary_range job) (JobPosting.posted_date job) e true in
  let w' := fst (SemanticJobMatcher.add_job get_embedding upload_json job w) in
  (truthy e = false ->
   SemanticJobMatcher.add_job get_embedding upload_json job w = (w, false))
  /\
  (truthy e = true ->
   snd (SemanticJobMatcher.add_job get_embedding upload_json job w) = true /\
   dict_get (JobPosting.job_id job) (SemanticJobMatcher.jobs_cache w')
   = Some stored /\
   (forall k, k <> JobPosting.job_id job ->
              dict_get k (SemanticJobMatcher.jobs_cache w')
              = dict_get k (SemanticJobMatcher.jobs_cache w)) /\
   dict_keys (SemanticJobMatcher.jobs_cache w')
   = (if dict_contains (JobPosting.job_id job)
           (SemanticJobMatcher.jobs_cache w)
      then dict_keys (SemanticJobMatcher.jobs_cache w)
      else dict_keys (SemanticJobMatcher.jobs_cache w)
           ++ [JobPosting.job_id job])).
Proof.
  cbv zeta. unfold SemanticJobMatcher.add_job. split.
  - intros ->. reflexivity.
  - intros ->. simpl. split; [reflexivity|]. split; [|split].
    + apply dict_get_set_eq.
    + intros k Hk. now apply dict_get_set_ne.
    + apply dict_keys_set.
Qed.

(** X19.  [delete_job] on a catalog: for an identifier that is not there
    it answers [False] and changes nothing; for one that is there it answers
    [True], the identifier is gone, the other entries are untouched, one
    posting fewer is listed by [get_all_jobs], and deleting again answers
    [False]. *)
Theorem X19_delete_job_removes_the_posting
  (job_id : string) (w : SemanticJobMatcher.World) :
  List.NoDup (dict_keys (SemanticJobMatcher.jobs_cache w)) ->
  let w' := fst (SemanticJobMatcher.delete_job job_id w) in
  (dict_contains job_id (SemanticJobMatcher.jobs_cache w) = false ->
   SemanticJobMatcher.delete_job job_id w = (w, false))
  /\
  (dict_contains job_id (SemanticJobMatcher.jobs_cache w) = true ->
   snd (SemanticJobMatcher.delete_job job_id w) = true /\
   dict_get job_id (SemanticJobMatcher.jobs_cache w') = None /\
   (forall k, k <> job_id ->
              dict_get k (SemanticJobMatcher.jobs_cache w')
              = dict_get k (SemanticJobMatcher.jobs_cache w)) /\
   S (length (SemanticJobMatcher.get_all_jobs w'))
   = length (SemanticJobMatcher.get_all_jobs w) /\
   SemanticJobMatcher.delete_job job_id w' = (w', false)).
Proof.
  intros Hnd. cbv zeta. unfold SemanticJobMatcher.delete_job. split.
  - intros ->. reflexivity.
  - intros H. rewrite H. simpl.
    pose proof (dict_get_del_eq job_id _ Hnd) as Hgone.
    split; [reflexivity|]. split; [assumption|]. split; [|split].
    + intros k Hk. now apply dict_get_del_ne.
    + unfold SemanticJobMatcher.get_all_jobs, dict_values. simpl.
      rewrite !List.length_map. now apply dict_del_length.
    + apply dict_get_None, dict_contains_false in Hgone.
      now rewrite Hgone.
Qed.

(** X20.  Adding a posting under a new identifier and deleting it again
    gives back the catalog as it was. *)
Theorem X20_add_then_delete_restores_the_catalog
  (get_embedding : string -> option (list float))
  (upload_json : JobPosting.t -> string -> bool)
  (job : JobPosting.t) (w : SemanticJobMatcher.World) :
  dict_contains (JobPosting.job_id job) (SemanticJobMatcher.jobs_cache w)
  = false ->
  truthy (get_embedding (SemanticJobMatcher.job_text job)) = true ->
  SemanticJobMatcher.delete_job (JobPosting.job_id job)
    (fst (SemanticJobMatcher.add_job get_embedding upload_json job w))
  = (w, true).
Proof.
  intros Hnew He.
  unfold SemanticJobMatcher.add_job, SemanticJobMatcher.delete_job.
  rewrite He. simpl.
  assert (Hin : dict_contains (JobPosting.job_id job)
                  (dict_set (JobPosting.job_id job)
                     (JobPosting.mk (JobPosting.job_id job)
                        (JobPosting.title job) (JobPosting.company job)
                        (JobPosting.description job)
                        (JobPosting.required_skills job)
                        (JobPosting.preferred_skills job)
                        (JobPosting.experience_years job)
                        (JobPosting.location job)
                        (JobPosting.salary_range job)
                        (JobPosting.posted_date job)
                        (get_embedding (SemanticJobMatcher.job_text job))
                        true)
                     (SemanticJobMatcher.jobs_cache w)) = true).
  { apply dict_contains_In. rewrite dict_keys_set, Hnew.
    apply in_or_app. right. now left. }
  rewrite Hin, (dict_del_set_new _ _ _ Hnew). now rewrite world_eta.
Qed.

(** X21.  The catalog stays a dictionary whose postings are filed under
    their own [job_id]: [add_job], [delete_job] and [match_cv_to_jobs]
    (whether it returns or raises) keep this invariant. *)
Theorem X21_catalog_invariant
  (get_embedding : string -> option (list float))
  (upload_json : JobPosting.t -> string -> bool)
  (clock : nat -> string) (format_percent : float -> string)
  (job : JobPosting.t) (job_id cv_text : string) (cv_skills : list string)
  (cv_experience_years : Z) (w : SemanticJobMatcher.World) :
  cache_wf (SemanticJobMatcher.jobs_cache w) ->
  cache_wf (SemanticJobMatcher.jobs_cache
              (fst (SemanticJobMatcher.add_job get_embedding upload_json
                      job w))) /\
  cache_wf (SemanticJobMatcher.jobs_cache
              (fst (SemanticJobMatcher.delete_job job_id w))) /\
  cache_wf (SemanticJobMatcher.jobs_cache
              (fst (SemanticJobMatcher.match_cv_to_jobs get_embedding clock
                      format_percent cv_text cv_skills cv_experience_years
                      w))).
Proof.
  intros [Hnd Hid]. split; [|split].
  - unfold SemanticJobMatcher.add_job.
    destruct (truthy _); simpl; [|now split].
    split; [now apply dict_keys_set_NoDup|].
    now apply dict_set_Forall.
  - unfold SemanticJobMatcher.delete_job.
    destruct (dict_contains _ _); simpl; [|now split].
    split; [now apply dict_keys_del_NoDup|now apply dict_del_Forall].
  - unfold SemanticJobMatcher.match_cv_to_jobs.
    destruct (negb _); simpl; [now split|].
    pose proof (match_loop_cache get_embedding format_percent clock
                  (default [] (get_embedding cv_text)) cv_skills
                  cv_experience_years (SemanticJobMatcher.jobs_cache w) []
                  (SemanticJobMatcher.ticks w)) as Hc.
    destruct (SemanticJobMatcher.match_loop _ _ _ _ _ _ _ _ _)
      as [[c t] r]. simpl in *.
    clear r t. revert Hnd Hid. unfold cache_wf, dict_keys.
    induction Hc as [|[k1 j1] [k2 j2] l1 l2 [Hk Hf] Hc IH]; simpl;
      intros Hnd Hid; [now split|].
    simpl in Hk, Hf. subst k2.
    apply List.NoDup_cons_iff in Hnd. destruct Hnd as [Hn Hnd].
    apply Forall_cons_iff in Hid. destruct Hid as [Hj Hid]. simpl in Hj.
    destruct (IH Hnd Hid) as [Hnd' Hid'].
    assert (Hkeys : List.map fst l2 = List.map fst l1).
    { clear -Hc. induction Hc as [|a b l1 l2 [Hk _] Hc IH]; simpl;
        [reflexivity|]. now rewrite IH, Hk. }
    split.
    + constructor; [now rewrite Hkeys|assumption].
    + constructor; [|assumption]. simpl.
      rewrite Hj.
      rewrite <- (proj1 (fill_embedding_fields get_embedding j1)).
      rewrite <- (proj1 (fill_embedding_fields get_embedding j2)).
      now rewrite Hf.
Qed.

(** X22.  A posting that [add_job] has accepted is scored by every later
    [match_cv_to_jobs] that returns normally with the CV embedded: its
    identifier is among those of the records. *)
Theorem X22_added_job_is_ranked
  (get_embedding : string -> option (list float))
  (upload_json : JobPosting.t -> string -> bool)
  (clock : nat -> string) (format_percent : float -> string)
  (job : JobPosting.t) (cv_text : string) (cv_skills : list string)
  (cv_experience_years : Z) (w w' : SemanticJobMatcher.World)
  (ms : list EmbeddingMatch.t) :
  truthy (get_embedding (SemanticJobMatcher.job_text job)) = true ->
  truthy (get_embedding cv_text) = true ->
  SemanticJobMatcher.match_cv_to_jobs get_embedding clock format_percent
    cv_text cv_skills cv_experience_years
    (fst (SemanticJobMatcher.add_job get_embedding upload_json job w))
  = (w', Ok ms) ->
  In (JobPosting.job_id job) (List.map EmbeddingMatch.job_id ms).
Proof.
  intros He Hcv. unfold SemanticJobMatcher.match_cv_to_jobs.
  rewrite Hcv. simpl.
  destruct (SemanticJobMatcher.match_loop _ _ _ _ _ _ _ _ _)
    as [[c t] [unsorted|e]] eqn:El; simpl; [|discriminate].
  intros [= _ <-].
  destruct (match_loop_order _ _ _ _ _ _ _ _ _ _ _ _ El)
    as (new & Hnew & Hid & _).
  simpl in Hnew. subst new.
  apply (Permutation_in _
           (Permutation_sym
              (Permutation_map EmbeddingMatch.job_id
                 (sort_reverse_perm EmbeddingMatch.overall_score unsorted)))).
  rewrite Hid. unfold SemanticJobMatcher.add_job. rewrite He. simpl.
  apply in_map_iff.
  eexists (JobPosting.job_id job, _). split; [reflexivity|].
  apply filter_In. split; [apply dict_set_In|].
  unfold scored, SemanticJobMatcher.fill_embedding. simpl.
  rewrite He. simpl. exact He.
Qed.

(** X23.  [get_embeddings_batch] returns one answer per text, in the order
    of the texts: the embedding of each text, or [None] where the client
    failed. *)
Theorem X23_get_embeddings_batch_is_pointwise
  (get_embedding : string -> option (list float)) (texts : list string) :
  AzureEmbeddingClient.get_embeddings_batch get_embedding texts
  = List.map get_embedding texts.
Proof.
  unfold AzureEmbeddingClient.get_embeddings_batch.
  enough (H : forall acc,
             AzureEmbeddingClient.get_embeddings_batch_loop get_embedding
               texts acc = acc ++ List.map get_embedding texts)
    by apply (H []).
  induction texts as [|text rest IH]; intros acc; simpl.
  - now rewrite app_nil_r.
  - now rewrite IH, <- app_assoc.
Qed.

(** ** JobMatcher (job_matching.py) *)

(** X24.  [JobMatcher._match_experience] never raises.  For required
    years that are not negative its score lies in [0, 1]; a CV with at least
    one experience entry gets exactly [1.0] as soon as the requirement is at
    most the estimate [min(2 * entries, 20)]; a CV without entries gets [0.0]
    against a positive requirement. *)
Theorem X24_match_experience_score
  (cv_experience : list Dict) (required_years : Z) :
  exists x,
    JobMatcher._match_experience cv_experience required_years = Ok x /\
    (0 <= required_years ->
     PrimFloat.leb 0 x = true /\ PrimFloat.leb x 1 = true) /\
    (cv_experience <> [] -> 0 <= required_years ->
     required_years <= Z.min (len cv_experience * 2) 20 -> x = 1%float) /\
    (cv_experience = [] -> 0 < required_years -> x = 0%float).
Proof.
  destruct (Z_le_gt_dec 0 required_years) as [Hreq|Hneg].
  - destruct (match_experience_unit cv_experience required_years Hreq)
      as (x & Hx & H0 & H1 & Hsat).
    exists x. repeat split; auto.
    intros -> Hpos. simpl in Hx.
    destruct (Z.ltb_spec 0 required_years); [|lia]. now injection Hx as <-.
  - destruct (match_experience_total cv_experience required_years)
      as (x & Hx).
    exists x. split; [exact Hx|]. repeat split; intros; lia.
Qed.

(** X25.  [_match_location] looks at the lower-case forms only: two pairs
    of locations with the same lower-case forms, empty where the others are
    empty, get the same score. *)
Theorem X25_match_location_ignores_letter_case
  (cv_location cv_location' job_location job_location' : string) :
  (cv_location = EmptyString <-> cv_location' = EmptyString) ->
  (job_location = EmptyString <-> job_location' = EmptyString) ->
  lower cv_location = lower cv_location' ->
  lower job_location = lower job_location' ->
  JobMatcher._match_location (Some cv_location) job_location
  = JobMatcher._match_location (Some cv_location') job_location'.
Proof.
  intros Hc Hj Ec Ej. unfold JobMatcher._match_location.
  assert (Tc : str_truthy (Some cv_location) = str_truthy (Some cv_location')).
  { destruct cv_location, cv_location'; simpl; try reflexivity.
    - destruct Hc as [Hc _]. now specialize (Hc eq_refl).
    - destruct Hc as [_ Hc]. now specialize (Hc eq_refl). }
  assert (Tj : str_truthy (Some job_location)
               = str_truthy (Some job_location')).
  { destruct job_location, job_location'; simpl; try reflexivity.
    - destruct Hj as [Hj _]. now specialize (Hj eq_refl).
    - destruct Hj as [_ Hj]. now specialize (Hj eq_refl). }
  simpl in *. now rewrite Tc, Tj, Ec, Ej.
Qed.

(** X26.  [JobMatcher._match_education] returns a score in [0.3, 1.0]
    (for any list whose length is a machine integer), and the job
    description it is given has no influence on the score. *)
Theorem X26_match_education_score
  (str_of_dict : Dict -> string) (cv_education : list Dict)
  (job_description : string) :
  len cv_education <= 2 ^ 63 ->
  (exists x,
     JobMatcher._match_education str_of_dict cv_education job_description
     = Ok x /\
     PrimFloat.leb 0.3 x = true /\ PrimFloat.leb x 1 = true) /\
  (forall other_description,
     JobMatcher._match_education str_of_dict cv_education other_description
     = JobMatcher._match_education str_of_dict cv_education job_description).
Proof.
  intros Hlen. split.
  - now apply match_education_range.
  - intros other. apply match_education_description.
Qed.

(** X27.  [JobMatcher.match_cv_to_job], for a job whose required years
    are not negative: it returns a record (no exception), appends exactly
    that record to the history, and reads the clock once.  The record's
    [job_id] is in 0..9999, its overall score is the weighted sum of the four
    sub-scores and lies in [0.09, 1.0], and its percentage lies in
    [9, 100]. *)
Theorem X27_match_cv_to_job_record
  (str_of_dict : Dict -> string) (hash : string -> Z) (clock : nat -> string)
  (cv_data : CVData.t) (job : JobDescription.t) (st : JobMatcher.State) :
  0 <= JobDescription.experience_years job ->
  len (CVData.education cv_data) <= 2 ^ 63 ->
  exists m,
    JobMatcher.match_cv_to_job str_of_dict hash clock cv_data job st
    = (JobMatcher.mkState (JobMatcher.match_history st ++ [m])
         (S (JobMatcher.ticks st)), Ok m) /\
    MatchScore.job_title m = JobDescription.title job /\
    MatchScore.timestamp m = clock (JobMatcher.ticks st) /\
    0 <= MatchScore.job_id m < 10000 /\
    PrimFloat.leb 0.09 (MatchScore.overall_score m) = true /\
    PrimFloat.leb (MatchScore.overall_score m) 1 = true /\
    PrimFloat.leb 9 (MatchScore.match_percentage m) = true /\
    PrimFloat.leb (MatchScore.match_percentage m) 100 = true /\
    MatchScore.overall_score m
    = four_factor (MatchScore.skills_match m) (MatchScore.experience_match m)
        (MatchScore.location_match m) (MatchScore.education_match m).
Proof. apply match_cv_to_job_spec. Qed.

(** X28.  [JobMatcher.match_cv_to_multiple_jobs], for jobs whose required
    years are not negative: it returns one record per job, sorted by overall
    score, highest first (no score can be NaN here), the records of equal
    score in the order of the jobs; and the history has grown by these
    records, in the order of the jobs. *)
Theorem X28_match_cv_to_multiple_jobs_sorted
  (str_of_dict : Dict -> string) (hash : string -> Z) (clock : nat -> string)
  (cv_data : CVData.t) (jobs : list JobDescription.t)
  (st : JobMatcher.State) :
  Forall (fun job => 0 <= JobDescription.experience_years job) jobs ->
  len (CVData.education cv_data) <= 2 ^ 63 ->
  exists made ms,
    JobMatcher.match_cv_to_multiple_jobs str_of_dict hash clock
      cv_data jobs st
    = (JobMatcher.mkState (JobMatcher.match_history st ++ made)
         (JobMatcher.ticks st + length jobs), Ok ms) /\
    List.map MatchScore.job_title made = List.map JobDescription.title jobs /\
    Permutation ms made /\
    StronglySorted (before MatchScore.overall_score) ms /\
    forall k,
      List.filter (fun m => PrimFloat.eqb (MatchScore.overall_score m) k) ms
      = List.filter (fun m => PrimFloat.eqb (MatchScore.overall_score m) k)
          made.
Proof.
  intros Hjobs Hlen. unfold JobMatcher.match_cv_to_multiple_jobs.
  destruct (match_jobs_loop_spec str_of_dict hash clock cv_data jobs [] st
              Hjobs Hlen) as (made & -> & Htitles & _ & Hrange).
  simpl. exists made, (sort_reverse MatchScore.overall_score made).
  split; [reflexivity|]. split; [assumption|]. split; [|split].
  - apply sort_reverse_perm.
  - apply sort_reverse_sorted.
    eapply Forall_impl; [|exact Hrange].
    intros m [H _]. exact (proj2 (leb_not_nan _ _ H)).
  - intros k. apply sort_reverse_stable.
Qed.

(** ** What the results do not depend on *)

Lemma match_loop_embedder get1 get2 clock format_percent
  cv sk yrs items matches t :
  Forall (fun it =>
            SemanticJobMatcher.fill_embedding get1 (snd it)
            = SemanticJobMatcher.fill_embedding get2 (snd it)) items ->
  SemanticJobMatcher.match_loop get1 clock format_percent
    cv sk yrs items matches t
  = SemanticJobMatcher.match_loop get2 clock format_percent
      cv sk yrs items matches t.
Proof.
  intros H. revert matches t.
  induction H as [|[id job] rest Hj H IH]; intros matches t; simpl;
    [reflexivity|].
  simpl in Hj. rewrite Hj.
  destruct (SemanticJobMatcher.score_job _ _ _ _ _ _ _) as [[m|]|e];
    [now rewrite IH|now rewrite IH|reflexivity].
Qed.

(** X29.  [match_cv_to_jobs] asks the embedder for the text of the CV and
    for the texts of the postings that have no embedding, and for nothing
    else: two embedders that agree on these texts give the same results and
    leave the same cache, whatever they would answer for the postings that
    already carry an embedding. *)
Theorem X29_cached_embeddings_are_not_requested
  (get1 get2 : string -> option (list float)) (clock : nat -> string)
  (format_percent : float -> string)
  (cv_text : string) (cv_skills : list string) (cv_experience_years : Z)
  (w : SemanticJobMatcher.World) :
  get1 cv_text = get2 cv_text ->
  Forall (fun it =>
            truthy (JobPosting.embedding (snd it)) = false ->
            get1 (SemanticJobMatcher.job_text (snd it))
            = get2 (SemanticJobMatcher.job_text (snd it)))
         (SemanticJobMatcher.jobs_cache w) ->
  SemanticJobMatcher.match_cv_to_jobs get1 clock format_percent
    cv_text cv_skills cv_experience_years w
  = SemanticJobMatcher.match_cv_to_jobs get2 clock format_percent
      cv_text cv_skills cv_experience_years w.
Proof.
  intros Hcv Hjobs. unfold SemanticJobMatcher.match_cv_to_jobs.
  rewrite <- Hcv. destruct (negb _); [reflexivity|].
  rewrite (match_loop_embedder get1 get2); [reflexivity|].
  eapply Forall_impl; [|exact Hjobs].
  intros [id job] Hj. simpl in *.
  unfold SemanticJobMatcher.fill_embedding.
  destruct (truthy (JobPosting.embedding job)); [reflexivity|].
  now rewrite Hj.
Qed.

(** X30.  The skill match looks at the CV skills as a set of lower-case
    names: two CVs whose skills have the same lower-case forms (in any
    order, any number of times) get the same score, the same matched skills
    and the same missing skills. *)
Theorem X30_skill_match_depends_on_the_cv_skill_set
  (cv_skills cv_skills' required_skills preferred_skills : list string) :
  (forall s, In s (List.map lower cv_skills)
             <-> In s (List.map lower cv_skills')) ->
  SemanticJobMatcher._calculate_keyword_match
    cv_skills required_skills preferred_skills
  = SemanticJobMatcher._calculate_keyword_match
      cv_skills' required_skills preferred_skills.
Proof.
  intros Hset.
  assert (Hin : forall s, str_in s (List.map lower cv_skills)
                          = str_in s (List.map lower cv_skills')).
  { intros s. apply eq_true_iff_eq. rewrite !str_in_In. apply Hset. }
  unfold SemanticJobMatcher._calculate_keyword_match. cbv zeta.
  rewrite (List.filter_ext _ _ Hin (List.map lower required_skills)).
  rewrite (List.filter_ext _ _ Hin (List.map lower preferred_skills)).
  rewrite (List.filter_ext
             (fun s => negb (str_in s (List.map lower cv_skills)))
             (fun s => negb (str_in s (List.map lower cv_skills')))
             (fun s => f_equal negb (Hin s))
             (List.map lower required_skills)).
  reflexivity.
Qed.

End Model.

(** * Runs on concrete inputs

    The sample data is ASCII text, on which [str.lower()] is
    [ascii_lower]. *)

Existing Instance Sample.ascii_text.

Lemma C1_postings_without_embedding_witness :
  let w := Sample.world
             [("job_001"%string, Sample.job_001 (Some [1; 0]%float));
              ("job_002"%string, Sample.job_002 None);
              ("job_003"%string, Sample.job_003 (Some [0; 1]%float))] in
  let run :=
    SemanticJobMatcher.match_cv_to_jobs Sample.cv_only_embedder
      Sample.counting_clock Sample.no_format
      "my cv" ["python"; "docker"]%string 4 w in
  let ms := match snd run with Ok ms => ms | Raise _ => [] end in
  truthy (Sample.cv_only_embedder "my cv") = true /\
  run = (fst run, Ok ms) /\
  Permutation
    (List.map EmbeddingMatch.job_id ms)
    (List.map fst (List.filter (scored Sample.cv_only_embedder)
                     (SemanticJobMatcher.jobs_cache w))).
Proof.
  cbv zeta.
  split; [reflexivity|].
  split; [vm_compute; reflexivity|].
  refine (proj1 (proj2 (C1_postings_without_embedding_are_left_out
                          Sample.cv_only_embedder Sample.counting_clock
                          Sample.no_format "my cv"
                          ["python"; "docker"]%string 4 _) eq_refl _ _ _)).
  vm_compute. reflexivity.
Defined.

(** A catalog with one posting that has no embedding, and an embedder that
    fails on its text: the posting is in the catalog and not in the
    output. *)
Lemma C1_posting_without_embedding_counterexample :
  let w := Sample.world [("job_001"%string, Sample.job_001 None)] in
  let r := snd (SemanticJobMatcher.match_cv_to_jobs Sample.cv_only_embedder
                  Sample.counting_clock Sample.no_format
                  "my cv" ["python"; "docker"]%string 4 w) in
  In "job_001"%string (List.map fst (SemanticJobMatcher.jobs_cache w)) /\
  Sample.cv_only_embedder
    (SemanticJobMatcher.job_text (Sample.job_001 None)) = None /\
  r = Ok [] /\
  ~ (exists ms m, r = Ok ms /\ In m ms /\
                  EmbeddingMatch.job_id m = "job_001"%string /\
                  EmbeddingMatch.overall_score m =
                    two_factor (EmbeddingMatch.keyword_match_score m)
                               (EmbeddingMatch.experience_match m)).
Proof.
  cbv zeta. split; [now left|]. split; [reflexivity|].
  split; [reflexivity|].
  intros (ms & m & Hr & Hin & _).
  vm_compute in Hr. injection Hr as <-. destruct Hin.
Qed.

(** Two calls with identical inputs and a deterministic embedder, read
    against a clock that advances: the outputs differ. *)
Lemma C3_record_timestamp_counterexample :
  let w := Sample.world
             [("job_001"%string, Sample.job_001 (Some [1; 0]%float))] in
  let first :=
    SemanticJobMatcher.match_cv_to_jobs Sample.cv_only_embedder
      Sample.counting_clock Sample.no_format
      "my cv" ["python"; "docker"]%string 4 w in
  let second :=
    SemanticJobMatcher.match_cv_to_jobs Sample.cv_only_embedder
      Sample.counting_clock Sample.no_format
      "my cv" ["python"; "docker"]%string 4 (fst first) in
  snd first <> snd second /\
  List.map EmbeddingMatch.timestamp
    (match snd first with Ok ms => ms | Raise _ => [] end) = ["0"%string] /\
  List.map EmbeddingMatch.timestamp
    (match snd second with Ok ms => ms | Raise _ => [] end) = ["1"%string].
Proof.
  cbv zeta. split; [|split; vm_compute; reflexivity].
  intros H.
  apply (f_equal (fun r => List.map EmbeddingMatch.timestamp
                             (match r with Ok ms => ms | Raise _ => [] end)))
    in H.
  vm_compute in H. discriminate H.
Qed.

Lemma C5_skill_score_witness :
  List.NoDup (List.map lower ["Python"; "Docker"; "Azure"]%string) /\
  List.NoDup (List.map lower ["Kubernetes"]%string) /\
  result_map (fun r => fst (fst r))
    (SemanticJobMatcher._calculate_keyword_match
       ["python"; "docker"]%string ["Python"; "Docker"; "Azure"]%string
       ["Kubernetes"]%string)
  = scoreSkills_score (skill_set ["python"; "docker"]%string)
      (skill_set ["Python"; "Docker"; "Azure"]%string)
      (skill_set ["Kubernetes"]%string).
Proof.
  assert (H1 : List.NoDup (List.map lower ["Python"; "Docker"; "Azure"]%string)).
  { simpl. repeat constructor; simpl; intuition discriminate. }
  assert (H2 : List.NoDup (List.map lower ["Kubernetes"]%string)).
  { simpl. repeat constructor; simpl; intuition discriminate. }
  split; [exact H1|]. split; [exact H2|].
  exact (proj1 (C5_skill_score_follows_the_formula
                  ["python"; "docker"]%string
                  ["Python"; "Docker"; "Azure"]%string
                  ["Kubernetes"]%string H1 H2)).
Defined.

(** A required skill listed twice: the code counts the entries of the list
    (2 of 3), the formula of the claim the elements of the set (1 of 2). *)
Lemma C5_repeated_skill_counterexample :
  let cv := ["python"]%string in
  let required := ["python"; "python"; "go"]%string in
  SemanticJobMatcher._calculate_keyword_match cv required []
  = Ok (0.66666666666666663%float, ["python"; "python"]%string,
        ["go"]%string) /\
  JobMatcher._match_skills cv required None
  = Ok (0.66666666666666663%float, ["python"; "python"]%string,
        ["go"]%string) /\
  scoreSkills_score (skill_set cv) (skill_set required) (skill_set [])
  = Ok 0.5%float /\
  result_map (fun r => fst (fst r))
    (SemanticJobMatcher._calculate_keyword_match cv required [])
  <> scoreSkills_score (skill_set cv) (skill_set required) (skill_set []).
Proof.
  cbv zeta.
  assert (H : scoreSkills_score (skill_set ["python"]%string)
                (skill_set ["python"; "python"; "go"]%string) (skill_set [])
              = Ok 0.5%float) by (vm_compute; reflexivity).
  split; [vm_compute; reflexivity|]. split; [vm_compute; reflexivity|].
  split; [exact H|].
  rewrite H. intros E.
  apply (f_equal (fun r => match r with
                           | Ok x => PrimFloat.eqb x 0.5
                           | Raise _ => true
                           end)) in E.
  vm_compute in E. discriminate.
Qed.

Lemma X1_cosine_similarity_witness :
  SemanticJobMatcher._cosine_similarity [1; 2]%float [1]%float = Ok 0%float.
Proof.
  apply (proj2 (X1_cosine_similarity_never_raises [1; 2]%float [1]%float)).
  simpl. lia.
Defined.

Lemma X2_cosine_similarity_zero_vector_witness :
  exists x,
    SemanticJobMatcher._cosine_similarity [0; 0]%float [1; 1]%float = Ok x /\
    PrimFloat.is_nan x = true.
Proof.
  apply X2_cosine_similarity_zero_vector_is_nan.
  - reflexivity.
  - left. repeat constructor.
Defined.

Lemma X3_cosine_similarity_orthogonal_witness :
  SemanticJobMatcher._cosine_similarity [1; 0]%float [0; 1]%float
  = Ok 0.5%float.
Proof.
  apply (X3_cosine_similarity_orthogonal_is_half
           [1; 0]%float [0; 1]%float 1%float 1%float).
  - repeat constructor.
  - reflexivity.
  - reflexivity.
  - reflexivity.
Defined.

Lemma X6_matched_and_missing_witness :
  let r := SemanticJobMatcher._calculate_keyword_match
             ["python"; "Docker"]%string
             ["Python"; "FastAPI"; "docker"]%string [] in
  r = Ok (fst (fst (match r with Ok x => x | Raise _ => (0%float, [], []) end)),
          ["python"; "docker"]%string, ["fastapi"]%string) /\
  Permutation (["python"; "docker"]%string ++ ["fastapi"]%string)
    (List.map lower ["Python"; "FastAPI"; "docker"]%string).
Proof.
  cbv zeta. split; [vm_compute; reflexivity|].
  refine (proj2 (proj2 (X6_matched_and_missing_partition_required
                          ["python"; "Docker"]%string
                          ["Python"; "FastAPI"; "docker"]%string []
                          _ _ _ _))).
  vm_compute. reflexivity.
Defined.

Lemma X8_all_required_skills_present_witness :
  SemanticJobMatcher._calculate_keyword_match
    ["PYTHON"; "docker"; "aws"]%string ["Python"; "Docker"]%string
    ["Kubernetes"]%string
  = Ok (1%float, ["python"; "docker"]%string, []).
Proof.
  refine (X8_all_required_skills_present
            ["PYTHON"; "docker"; "aws"]%string ["Python"; "Docker"]%string
            ["Kubernetes"]%string _ _).
  - discriminate.
  - intros r [<-|[<-|[]]]; simpl; auto.
Defined.

Lemma X9_experience_score_witness :
  exists x,
    SemanticJobMatcher._calculate_experience_match 4 5 = Ok x /\
    PrimFloat.leb 0 x = true /\ PrimFloat.leb x 1 = true /\
    (5 <= 4 -> x = 1%float).
Proof.
  apply (X9_experience_score_in_unit_interval 4 5); try lia.
  left. vm_compute. discriminate.
Defined.

Lemma X10_experience_ratio_overflow_witness :
  SemanticJobMatcher._calculate_experience_match (2 ^ 1024 * 1) 1
  = Raise OverflowError.
Proof.
  apply (X10_experience_ratio_overflow (2 ^ 1024 * 1) 1).
  - reflexivity.
  - apply Z.le_refl.
Defined.

Lemma X11_negative_years_witness :
  (exists x,
     SemanticJobMatcher._calculate_experience_match (-1) 5 = Ok x /\
     PrimFloat.leb x 0 = true) /\
  SemanticJobMatcher._calculate_experience_match (- 2 ^ 1024) 1
  = Raise OverflowError.
Proof.
  split.
  - apply (proj1 (proj2 (X11_negative_years_are_not_rejected (-1) 5
                           eq_refl eq_refl))).
    vm_compute. discriminate.
  - apply (proj2 (proj2 (X11_negative_years_are_not_rejected (- 2 ^ 1024) 1
                           eq_refl eq_refl))).
    vm_compute. discriminate.
Defined.

Lemma X12_ranking_witness :
  exists w' ms,
    SemanticJobMatcher.match_cv_to_jobs Sample.cv_only_embedder
      Sample.counting_clock Sample.no_format
      "my cv" ["python"; "docker"]%string 4
      (Sample.world
         [("job_001"%string, Sample.job_001 (Some [1; 0]%float));
          ("job_002"%string, Sample.job_002 None)])
    = (w', Ok ms).
Proof.
  apply (proj2 (X12_ranking_raises_only_overflow Sample.cv_only_embedder
                  Sample.counting_clock Sample.no_format
                  "my cv" ["python"; "docker"]%string 4 _)).
  repeat constructor; vm_compute; discriminate.
Defined.

Lemma X13_ranking_overflow_witness :
  snd (SemanticJobMatcher.match_cv_to_jobs Sample.cv_only_embedder
         Sample.counting_clock Sample.no_format
         "my cv" ["python"; "docker"]%string (2 ^ 1024 * 5)
         (Sample.world
            [("job_001"%string, Sample.job_001 (Some [1; 0]%float))]))
  = Raise OverflowError.
Proof.
  apply X13_ranking_overflow.
  - reflexivity.
  - constructor. split; [reflexivity|]. split; [reflexivity|].
    apply Z.le_refl.
Defined.

Lemma X14_ranking_scores_witness :
  let run :=
    SemanticJobMatcher.match_cv_to_jobs Sample.cv_only_embedder
      Sample.counting_clock Sample.no_format
      "my cv" ["python"; "docker"]%string 4
      (Sample.world
         [("job_001"%string, Sample.job_001 (Some [1; 0]%float));
          ("job_003"%string, Sample.job_003 (Some [0; 1]%float))]) in
  let ms := match snd run with Ok ms => ms | Raise _ => [] end in
  run = (fst run, Ok ms) /\
  Forall (fun m =>
            PrimFloat.leb 0 (EmbeddingMatch.keyword_match_score m) = true /\
            PrimFloat.leb (EmbeddingMatch.keyword_match_score m) 1 = true /\
            PrimFloat.leb 0 (EmbeddingMatch.experience_match m) = true /\
            PrimFloat.leb (EmbeddingMatch.experience_match m) 1 = true /\
            (PrimFloat.leb 0 (EmbeddingMatch.embedding_similarity m) = true ->
             PrimFloat.leb (EmbeddingMatch.embedding_similarity m) 1 = true ->
             PrimFloat.leb 0.105 (EmbeddingMatch.overall_score m) = true /\
             PrimFloat.leb (EmbeddingMatch.overall_score m) 0.955 = true))
         ms.
Proof.
  cbv zeta. split; [vm_compute; reflexivity|].
  refine (X14_ranking_scores_in_range Sample.cv_only_embedder
            Sample.counting_clock Sample.no_format
            "my cv" ["python"; "docker"]%string 4
            (Sample.world
               [("job_001"%string, Sample.job_001 (Some [1; 0]%float));
                ("job_003"%string, Sample.job_003 (Some [0; 1]%float))])
            _ _ _ _ _).
  - lia.
  - repeat constructor; simpl; lia.
  - vm_compute. reflexivity.
Defined.

Lemma X15_ranking_sorted_witness :
  let run :=
    SemanticJobMatcher.match_cv_to_jobs Sample.cv_only_embedder
      Sample.counting_clock Sample.no_format
      "my cv" ["python"; "docker"]%string 4
      (Sample.world
         [("job_001"%string, Sample.job_001 (Some [0; 1]%float));
          ("job_003"%string, Sample.job_003 (Some [1; 0]%float))]) in
  let ms := match snd run with Ok ms => ms | Raise _ => [] end in
  run = (fst run, Ok ms) /\
  List.map EmbeddingMatch.job_id ms = ["job_003"; "job_001"]%string /\
  StronglySorted (before EmbeddingMatch.overall_score) ms.
Proof.
  cbv zeta. split; [vm_compute; reflexivity|].
  split; [vm_compute; reflexivity|].
  refine (X15_ranking_sorted_without_nan Sample.cv_only_embedder
            Sample.counting_clock Sample.no_format
            "my cv" ["python"; "docker"]%string 4
            (Sample.world
               [("job_001"%string, Sample.job_001 (Some [0; 1]%float));
                ("job_003"%string, Sample.job_003 (Some [1; 0]%float))])
            _ _ _ _).
  - vm_compute. reflexivity.
  - repeat constructor.
Defined.

Lemma X16_ranking_ties_witness :
  let w := Sample.world
             [("job_003"%string, Sample.job_003 (Some [1; 0]%float));
              ("job_001"%string, Sample.job_001 (Some [1; 0]%float));
              ("job_002"%string, Sample.job_001 (Some [1; 0]%float))] in
  let run :=
    SemanticJobMatcher.match_cv_to_jobs Sample.cv_only_embedder
      Sample.counting_clock Sample.no_format
      "my cv" ["python"; "docker"]%string 4 w in
  let ms := match snd run with Ok ms => ms | Raise _ => [] end in
  run = (fst run, Ok ms) /\
  List.map EmbeddingMatch.job_id ms
  = ["job_001"; "job_002"; "job_003"]%string /\
  exists unsorted,
    List.map EmbeddingMatch.job_id unsorted
    = List.map fst (List.filter (scored Sample.cv_only_embedder)
                      (SemanticJobMatcher.jobs_cache w)) /\
    Permutation ms unsorted /\
    forall k,
      List.filter
        (fun m => PrimFloat.eqb (EmbeddingMatch.overall_score m) k) ms
      = List.filter
          (fun m => PrimFloat.eqb (EmbeddingMatch.overall_score m) k)
          unsorted.
Proof.
  cbv zeta. split; [vm_compute; reflexivity|].
  split; [vm_compute; reflexivity|].
  refine (X16_ranking_ties_keep_catalog_order Sample.cv_only_embedder
            Sample.counting_clock Sample.no_format
            "my cv" ["python"; "docker"]%string 4
            (Sample.world
               [("job_003"%string, Sample.job_003 (Some [1; 0]%float));
                ("job_001"%string, Sample.job_001 (Some [1; 0]%float));
                ("job_002"%string, Sample.job_001 (Some [1; 0]%float))])
            _ _ _ _ _).
  - reflexivity.
  - vm_compute. reflexivity.
  - repeat constructor.
Defined.

Lemma X17_ranking_fills_the_cache_witness :
  let w := Sample.world
             [("job_001"%string, Sample.job_001 (Some [1; 0]%float));
              ("job_002"%string, Sample.job_002 None)] in
  let run :=
    SemanticJobMatcher.match_cv_to_jobs Sample.cv_only_embedder
      Sample.counting_clock Sample.no_format
      "my cv" ["python"; "docker"]%string 4 w in
  let ms := match snd run with Ok ms => ms | Raise _ => [] end in
  run = (fst run, Ok ms) /\
  SemanticJobMatcher.ticks (fst run)
  = (SemanticJobMatcher.ticks w + length ms)%nat.
Proof.
  cbv zeta. split; [vm_compute; reflexivity|].
  refine (proj1 (proj2 (X17_ranking_fills_the_cache Sample.cv_only_embedder
            Sample.counting_clock Sample.no_format
            "my cv" ["python"; "docker"]%string 4
            (Sample.world
               [("job_001"%string, Sample.job_001 (Some [1; 0]%float));
                ("job_002"%string, Sample.job_002 None)])
            _ _ _ _))).
  - reflexivity.
  - vm_compute. reflexivity.
Defined.

Lemma X18_add_job_witness :
  SemanticJobMatcher.add_job Sample.cv_only_embedder (fun _ _ => false)
    (Sample.job_001 None) (Sample.world [])
  = (Sample.world [], false).
Proof.
  apply (proj1 (X18_add_job_stores_embedded_postings
                  Sample.cv_only_embedder (fun _ _ => false)
                  (Sample.job_001 None) (Sample.world []))).
  reflexivity.
Defined.

Lemma X19_delete_job_witness :
  let w := Sample.world
             [("job_001"%string, Sample.job_001 None);
              ("job_002"%string, Sample.job_002 None)] in
  snd (SemanticJobMatcher.delete_job "job_001" w) = true /\
  dict_get "job_001"
    (SemanticJobMatcher.jobs_cache
       (fst (SemanticJobMatcher.delete_job "job_001" w))) = None.
Proof.
  cbv zeta.
  assert (Hnd : List.NoDup
                  (dict_keys
                     (SemanticJobMatcher.jobs_cache
                        (Sample.world
                           [("job_001"%string, Sample.job_001 None);
                            ("job_002"%string, Sample.job_002 None)])))).
  { simpl. repeat constructor; simpl; intuition discriminate. }
  pose proof (proj2 (X19_delete_job_removes_the_posting "job_001" _ Hnd)
                eq_refl) as H.
  split; [exact (proj1 H)|exact (proj1 (proj2 H))].
Defined.

Lemma X20_add_then_delete_witness :
  SemanticJobMatcher.delete_job "job_001"
    (fst (SemanticJobMatcher.add_job (fun _ => Some [1%float])
            (fun _ _ => true) (Sample.job_001 None) (Sample.world [])))
  = (Sample.world [], true).
Proof.
  apply (X20_add_then_delete_restores_the_catalog (fun _ => Some [1%float])
           (fun _ _ => true) (Sample.job_001 None) (Sample.world []));
    reflexivity.
Defined.

Lemma X21_catalog_invariant_witness :
  cache_wf (SemanticJobMatcher.jobs_cache
              (fst (SemanticJobMatcher.add_job (fun _ => Some [1%float])
                      (fun _ _ => true) (Sample.job_001 None)
                      (Sample.world
                         [("job_002"%string, Sample.job_002 None)])))).
Proof.
  apply (X21_catalog_invariant (fun _ => Some [1%float]) (fun _ _ => true)
           Sample.counting_clock Sample.no_format (Sample.job_001 None)
           "job_002" "my cv" [] 0
           (Sample.world [("job_002"%string, Sample.job_002 None)])).
  split; simpl.
  - repeat constructor; simpl; tauto.
  - repeat constructor.
Defined.

Lemma X22_added_job_is_ranked_witness :
  let w1 := fst (SemanticJobMatcher.add_job (fun _ => Some [1%float])
                   (fun _ _ => true) (Sample.job_001 None)
                   (Sample.world [])) in
  let run :=
    SemanticJobMatcher.match_cv_to_jobs (fun _ => Some [1%float])
      Sample.counting_clock Sample.no_format
      "my cv" ["python"]%string 4 w1 in
  let ms := match snd run with Ok ms => ms | Raise _ => [] end in
  run = (fst run, Ok ms) /\
  In "job_001"%string (List.map EmbeddingMatch.job_id ms).
Proof.
  cbv zeta. split; [vm_compute; reflexivity|].
  refine (X22_added_job_is_ranked (fun _ => Some [1%float])
            (fun _ _ => true) Sample.counting_clock Sample.no_format
            (Sample.job_001 None) "my cv" ["python"]%string 4
            (Sample.world []) _ _ _ _ _).
  - reflexivity.
  - reflexivity.
  - vm_compute. reflexivity.
Defined.

Lemma X24_match_experience_witness :
  exists x,
    JobMatcher._match_experience [[]; []; []] 5 = Ok x /\ x = 1%float.
Proof.
  destruct (X24_match_experience_score [[]; []; []] 5)
    as (x & Hx & _ & Hsat & _).
  exists x. split; [exact Hx|].
  apply Hsat; [discriminate|lia|vm_compute; discriminate].
Defined.

Lemma X25_match_location_witness :
  JobMatcher._match_location (Some "Austin, TX"%string) "austin, tx"%string
  = JobMatcher._match_location (Some "AUSTIN, tx"%string)
      "Austin, Tx"%string.
Proof.
  apply X25_match_location_ignores_letter_case;
    try reflexivity; split; discriminate.
Defined.

Lemma X26_match_education_witness :
  exists x,
    JobMatcher._match_education
      (fun d => default EmptyString (dict_get "qualification" d))
      [[("qualification", "Bachelor of Science")]%string] "Any degree"
    = Ok x /\
    PrimFloat.leb 0.3 x = true /\ PrimFloat.leb x 1 = true.
Proof.
  apply (proj1 (X26_match_education_score
                  (fun d => default EmptyString (dict_get "qualification" d))
                  [[("qualification", "Bachelor of Science")]%string]
                  "Any degree" ltac:(vm_compute; discriminate))).
Defined.

Lemma X27_match_cv_to_job_witness :
  let cv_data :=
    CVData.mk (Some "Ann") None None (Some "Remote") None
      ["Python"; "Docker"] [[("title", "Developer")]] [] [] EmptyString in
  let job :=
    JobDescription.mk "Senior Python Developer" "TechCorp" "backend"
      ["Python"; "FastAPI"] [] 5 "Remote" EmptyString in
  let st := JobMatcher.mkState [] 0 in
  exists m,
    JobMatcher.match_cv_to_job (fun _ => EmptyString) (fun _ => 123456789)
      Sample.counting_clock cv_data job st
    = (JobMatcher.mkState [m] 1, Ok m) /\
    0 <= MatchScore.job_id m < 10000.
Proof.
  cbv zeta.
  destruct (X27_match_cv_to_job_record (fun _ => EmptyString)
              (fun _ => 123456789) Sample.counting_clock
              (CVData.mk (Some "Ann") None None (Some "Remote") None
                 ["Python"; "Docker"] [[("title", "Developer")]] [] [] EmptyString)
              (JobDescription.mk "Senior Python Developer" "TechCorp"
                 "backend" ["Python"; "FastAPI"] [] 5 "Remote" EmptyString)
              (JobMatcher.mkState [] 0)
              ltac:(simpl; lia) ltac:(vm_compute; discriminate))
    as (m & E & _ & _ & Hid & _).
  exists m. split; [exact E|exact Hid].
Defined.

Lemma X28_match_cv_to_multiple_jobs_witness :
  let cv_data :=
    CVData.mk (Some "Ann") None None (Some "Remote") None
      ["Python"; "Docker"] [[("title", "Developer")]] [] [] EmptyString in
  let jobs :=
    [JobDescription.mk "Full Stack Developer" "WebInnovate" "web"
       ["JavaScript"; "React"] [] 3 "Austin, TX" EmptyString;
     JobDescription.mk "Senior Python Developer" "TechCorp" "backend"
       ["Python"; "FastAPI"] [] 5 "Remote" EmptyString] in
  exists made ms,
    JobMatcher.match_cv_to_multiple_jobs (fun _ => EmptyString)
      (fun _ => 123456789) Sample.counting_clock cv_data jobs
      (JobMatcher.mkState [] 0)
    = (JobMatcher.mkState made 2, Ok ms) /\
    StronglySorted (before MatchScore.overall_score) ms.
Proof.
  cbv zeta.
  destruct (X28_match_cv_to_multiple_jobs_sorted (fun _ => EmptyString)
              (fun _ => 123456789) Sample.counting_clock
              (CVData.mk (Some "Ann") None None (Some "Remote") None
                 ["Python"; "Docker"] [[("title", "Developer")]] [] []
                 EmptyString)
              [JobDescription.mk "Full Stack Developer" "WebInnovate" "web"
                 ["JavaScript"; "React"] [] 3 "Austin, TX" EmptyString;
               JobDescription.mk "Senior Python Developer" "TechCorp"
                 "backend" ["Python"; "FastAPI"] [] 5 "Remote" EmptyString]
              (JobMatcher.mkState [] 0)
              ltac:(repeat constructor; simpl; lia)
              ltac:(vm_compute; discriminate))
    as (made & ms & E & _ & _ & Hs & _).
  exists made, ms. split; [exact E|exact Hs].
Defined.

Lemma X29_cached_embeddings_witness :
  let w := Sample.world
             [("job_001"%string, Sample.job_001 (Some [0; 1]%float));
              ("job_003"%string, Sample.job_003 (Some [1; 0]%float))] in
  SemanticJobMatcher.match_cv_to_jobs Sample.cv_only_embedder
    Sample.counting_clock Sample.no_format "my cv" ["python"]%string 4 w
  = SemanticJobMatcher.match_cv_to_jobs (fun _ => Some [1; 0]%float)
      Sample.counting_clock Sample.no_format "my cv" ["python"]%string 4 w.
Proof.
  cbv zeta.
  apply (X29_cached_embeddings_are_not_requested Sample.cv_only_embedder
           (fun _ => Some [1; 0]%float)).
  - reflexivity.
  - repeat constructor; simpl; discriminate.
Defined.

Lemma X30_skill_match_witness :
  SemanticJobMatcher._calculate_keyword_match
    ["Python"; "python"; "Docker"]%string ["Python"; "AWS"]%string
    ["docker"]%string
  = SemanticJobMatcher._calculate_keyword_match
      ["docker"; "PYTHON"]%string ["Python"; "AWS"]%string ["docker"]%string.
Proof.
  apply X30_skill_match_depends_on_the_cv_skill_set.
  intros s. simpl. tauto.
Defined.





(** Required skills written with capitals: the lists that come back hold
    the lower-case forms, and together they are not the required set. *)
Lemma C6_lower_case_lists_counterexample :
  let required := ["Python"; "Go"]%string in
  SemanticJobMatcher._calculate_keyword_match ["python"]%string required []
  = Ok (0.5%float, ["python"]%string, ["go"]%string) /\
  (list_to_set ["python"]%string ∪ list_to_set ["go"]%string : gset string)
  <> list_to_set required.
Proof.
  cbv zeta. split; [vm_compute; reflexivity|].
  intros E.
  assert (H : "Python"%string ∈ (list_to_set ["Python"; "Go"]%string
                                 : gset string)).
  { apply elem_of_list_to_set. left. }
  rewrite <- E in H.
  apply elem_of_union in H.
  rewrite !elem_of_list_to_set, !list_elem_of_In in H.
  destruct H as [[H|[]]|[H|[]]]; discriminate H.
Qed.

(** A skill with a trailing space, and the same skill in another case: the
    claim takes them for one skill, the code does not match them. *)
Lemma C7_untrimmed_skill_counterexample :
  same_skill "python "%string "Python"%string /\
  SemanticJobMatcher._calculate_keyword_match
    ["python "]%string ["Python"]%string []
  = Ok (0%float, [], ["python"]%string) /\
  JobMatcher._match_skills ["python "]%string ["Python"]%string None
  = Ok (0%float, [], ["python"]%string).
Proof. repeat split; vm_compute; reflexivity. Qed.

Lemma C7_lower_case_form_witness :
  exists score matched missing,
    SemanticJobMatcher._calculate_keyword_match
      ["JS"; "python"]%string ["JavaScript"; "Python"]%string []
    = Ok (score, matched, missing) /\
    In "python"%string matched /\ In "javascript"%string missing.
Proof.
  destruct (C7_skills_are_compared_by_lower_case_form_only
              ["JS"; "python"]%string ["JavaScript"; "Python"]%string None)
    as (score & matched & missing & H & _ & Hall).
  exists score, matched, missing. split; [exact H|]. split.
  - apply (proj1 (Hall "Python"%string (or_intror (or_introl eq_refl)))).
    exists "python"%string. split; [right; left|]; reflexivity.
  - apply (proj2 (Hall "JavaScript"%string (or_introl eq_refl))).
    intros c [<-|[<-|[]]]; vm_compute; discriminate.
Defined.



(** A catalog of three postings, the second with an embedding of zeros:
    its record has a NaN score, and no arrangement of the three records is
    in non-increasing order. *)
Lemma C9_zero_embedding_run :
  let w := Sample.world
             [("job_001"%string, Sample.job_001 (Some [0; 1]%float));
              ("job_002"%string, Sample.job_002 (Some [0; 0]%float));
              ("job_003"%string, Sample.job_003 (Some [1; 0]%float))] in
  let run :=
    SemanticJobMatcher.match_cv_to_jobs Sample.cv_only_embedder
      Sample.counting_clock Sample.no_format
      "my cv" ["python"; "docker"]%string 4 w in
  let ms := match snd run with Ok ms => ms | Raise _ => [] end in
  run = (fst run, Ok ms) /\
  List.map EmbeddingMatch.job_id ms
  = ["job_001"; "job_002"; "job_003"]%string /\
  List.map EmbeddingMatch.overall_score ms
  = [0.54500000000000004; nan; 0.72999999999999998]%float /\
  (exists m, In m ms /\ EmbeddingMatch.job_id m = "job_002"%string /\
             PrimFloat.is_nan (EmbeddingMatch.overall_score m) = true) /\
  forall p, Permutation p ms ->
            ~ Sorted (before EmbeddingMatch.overall_score) p.
Proof.
  cbv zeta. split; [vm_compute; reflexivity|].
  split; [vm_compute; reflexivity|].
  split; [vm_compute; reflexivity|].
  refine (C9_zero_embedding_leaves_the_ranking_unsorted
            Sample.cv_only_embedder Sample.counting_clock Sample.no_format
            "my cv" ["python"; "docker"]%string 4
            (Sample.world
               [("job_001"%string, Sample.job_001 (Some [0; 1]%float));
                ("job_002"%string, Sample.job_002 (Some [0; 0]%float));
                ("job_003"%string, Sample.job_003 (Some [1; 0]%float))])
            _ _ "job_002"%string (Sample.job_002 (Some [0; 0]%float))
            eq_refl _ _ eq_refl _ eq_refl _).
  - vm_compute. reflexivity.
  - right. left. reflexivity.
  - repeat constructor.
  - vm_compute. lia.
Defined.

Lemma C10_overall_score_witness :
  let run :=
    SemanticJobMatcher.match_cv_to_jobs Sample.cv_only_embedder
      Sample.counting_clock Sample.no_format
      "my cv" ["python"; "docker"]%string 4
      (Sample.world
         [("job_001"%string, Sample.job_001 (Some [1; 0]%float));
          ("job_003"%string, Sample.job_003 (Some [0; 1]%float))]) in
  let ms := match snd run with Ok ms => ms | Raise _ => [] end in
  run = (fst run, Ok ms) /\
  List.map EmbeddingMatch.overall_score ms
  = [0.745; 0.53000000000000003]%float /\
  Forall (fun m =>
            PrimFloat.leb 0.105 (EmbeddingMatch.overall_score m) = true /\
            PrimFloat.leb (EmbeddingMatch.overall_score m) 0.955 = true /\
            PrimFloat.ltb 0 (EmbeddingMatch.overall_score m) = true /\
            PrimFloat.ltb (EmbeddingMatch.overall_score m) 1 = true)
         ms.
Proof.
  intros run ms.
  assert (Hrun : run = (fst run, Ok ms)) by (vm_compute; reflexivity).
  split; [exact Hrun|]. split; [vm_compute; reflexivity|].
  pose proof (C10_overall_score_between_0105_and_0955
                Sample.cv_only_embedder Sample.counting_clock
                Sample.no_format "my cv" ["python"; "docker"]%string 4
                _ (fst run) ms Hrun) as H.
  assert (Hsub : Forall
                   (fun m =>
                      (PrimFloat.leb 0 (EmbeddingMatch.embedding_similarity m)
                       = true /\
                       PrimFloat.leb (EmbeddingMatch.embedding_similarity m) 1
                       = true) /\
                      (PrimFloat.leb 0 (EmbeddingMatch.keyword_match_score m)
                       = true /\
                       PrimFloat.leb (EmbeddingMatch.keyword_match_score m) 1
                       = true) /\
                      (PrimFloat.leb 0 (EmbeddingMatch.experience_match m)
                       = true /\
                       PrimFloat.leb (EmbeddingMatch.experience_match m) 1
                       = true)) ms)
    by (vm_compute; repeat constructor).
  rewrite Forall_forall in H, Hsub |- *.
  intros m Hm.
  destruct (Hsub m Hm) as ((Hs0 & Hs1) & (Hk0 & Hk1) & (He0 & He1)).
  destruct (H m Hm) as (_ & _ & Hb).
  exact (Hb Hs0 Hs1 Hk0 Hk1 He0 He1).
Defined.
